(** * wmipp: the C++ wrapper classes over the WMI COM interface

    A shallow embedding of [nv2_wmi.h] (namespace [nv2::wmi]) and of the
    way [main.cpp] uses it.

    The wrapper is a sequence of calls into COM, OLE Automation and WMI.
    Those calls are the platform: they are not part of the repository, so
    the embedding takes them as an interface ([Platform]) that answers each
    call with an HRESULT and the values of its out parameters.  The code of
    the wrapper is written in a small monad that threads

    - the members of the object a method runs on ([this]),
    - the state of the platform, and
    - the log of the platform calls made, each with the source line of the
      call and the answer it got,

    and that ends in a normal return, a C++ exception, a call of
    [std::terminate], undefined behaviour, or an exhausted loop budget (the
    loops that run until the platform says stop are given fuel).

    Left out: the reference counting of [CComPtr] (AddRef/Release), the
    freeing of [CComBSTR] and [CComVariant], and the trace output ([DBMSG],
    [TRMSG], [uw32::trace_hresult]). *)

From stdpp Require Import gmap strings list sorting.
From Stdlib Require Import ZArith Lia.

Local Open Scope Z_scope.

(** ** Data *)

(** [std::wstring]: the characters do not matter to any property below. *)
Abbreviation wstring := string (only parsing).

(** A COM interface pointer, a [SAFEARRAY*]: [None] is the null pointer. *)
Definition handle := nat.
Abbreviation ptr := (option handle) (only parsing).

(** A [BSTR] as the wrapper reads it: [None] is the null [BSTR]. *)
Abbreviation BSTR := (option string) (only parsing).

(** [HRESULT] is a signed 32-bit [long]; [DWORD] an unsigned one. *)
Abbreviation HRESULT := Z (only parsing).
Abbreviation DWORD := Z (only parsing).

(** The signed value of a 32-bit pattern, for the constants that the
    headers write in hexadecimal. *)
Definition as_long (u : Z) : Z :=
  let v := u mod 2 ^ 32 in if v <? 2 ^ 31 then v else v - 2 ^ 32.

Definition LONG_MAX : Z := 2147483647.

Definition S_OK : HRESULT := 0.
Definition S_FALSE : HRESULT := 1.
Definition E_POINTER : HRESULT := as_long 0x80004003.
Definition E_FAIL : HRESULT := as_long 0x80004005.
Definition RPC_E_TOO_LATE : HRESULT := as_long 0x80010119.
Definition WBEM_S_NO_MORE_DATA : HRESULT := as_long 0x40005.

(** The macros of [winerror.h]. *)
Definition SUCCEEDED (hr : HRESULT) : bool := 0 <=? hr.
Definition FAILED (hr : HRESULT) : bool := hr <? 0.

Definition VT_EMPTY : Z := 0.
Definition VT_NULL : Z := 1.
Definition VT_I4 : Z := 3.
Definition VT_BSTR : Z := 8.
Definition VT_BOOL : Z := 11.
Definition VT_INT : Z := 22.
Definition VT_LPWSTR : Z := 31.

Definition WBEM_FLAG_ALWAYS : Z := 0.
Definition WBEM_FLAG_NONSYSTEM_ONLY : Z := 0x40.
Definition WBEM_FLAG_RETURN_IMMEDIATELY : Z := 0x10.
Definition WBEM_FLAG_FORWARD_ONLY : Z := 0x20.
Definition WBEM_INFINITE : Z := as_long 0xFFFFFFFF.
Definition COINIT_APARTMENTTHREADED : Z := 0x2.

(** A [VARIANT] ([CComVariant]): the type tag and the 8-byte union.  [raw]
    is the union read as a little-endian unsigned integer, so that its
    scalar members are bit fields of it; [pointee] is the string found
    when the union is read as the pointer [bstrVal], [None] when that
    pointer is null or is not the address of a string. *)
Record VARIANT := mkVARIANT { vt : Z; raw : Z; pointee : BSTR }.

(** [CComVariant()] : [VT_EMPTY]. *)
Definition VariantEmpty : VARIANT := mkVARIANT VT_EMPTY 0 None.

(** The members of the union the wrapper reads. *)
Definition bVal (v : VARIANT) : Z := Z.land (raw v) 0xFF.
Definition boolVal (v : VARIANT) : Z := Z.land (raw v) 0xFFFF.
Definition intVal (v : VARIANT) : Z := as_long (Z.land (raw v) 0xFFFFFFFF).
Definition bstrVal (v : VARIANT) : BSTR := pointee v.

(** [CComVariant(bool)] : [VT_BOOL] with [VARIANT_TRUE] (-1) or
    [VARIANT_FALSE] (0). *)
Definition VariantOfBool (b : bool) : VARIANT :=
  mkVARIANT VT_BOOL (if b then 0xFFFF else 0) None.

(** [Object::param_list] is a list of pairs in the order written; [param_map] is a
    [std::map] from names to variants. *)
Abbreviation param_t := (wstring * VARIANT)%type (only parsing).
Abbreviation param_list := (list (string * VARIANT)) (only parsing).
Abbreviation param_map := (gmap string VARIANT) (only parsing).

(** [struct MethodDef]. *)
Record MethodDef := mkMethodDef {
  name : wstring;
  ipParams : list wstring;
  opParams : list wstring
}.

(** ** The platform *)

(** The COM, OLE Automation and WMI calls the wrapper makes, with the
    arguments it passes.  The receiver of an interface method is a
    [handle]: the wrapper has dereferenced the pointer to make the call. *)
Inductive Call : Type :=
| CoInitializeEx (dwCoInit : Z)
| CoUninitialize
| CoInitializeSecurity
| CoCreateInstance_WbemLocator
| IWbemLocator_ConnectServer (loc : handle) (strNetworkResource : wstring)
| CoSetProxyBlanket (pProxy : ptr)
| SafeArrayDestroy (psa : handle)
| SafeArrayGetLBound (psa : ptr) (nDim : Z)
| SafeArrayGetUBound (psa : ptr) (nDim : Z)
| SafeArrayGetElement (psa : ptr) (index : Z)
| VariantChangeType (src : VARIANT) (vtNew : Z)
| IWbemClassObject_GetNames (obj : handle) (lFlags : Z)
| IWbemClassObject_Get (obj : handle) (wszName : wstring)
| IWbemClassObject_Put (obj : handle) (wszName : wstring) (val : VARIANT) (type : Z)
| IWbemClassObject_GetMethod (obj : handle) (wszName : wstring)
| IWbemClassObject_SpawnInstance (obj : handle)
| IWbemClassObject_BeginEnumeration (obj : handle) (lEnumFlags : Z)
| IWbemClassObject_Next (obj : handle)
| IWbemClassObject_EndEnumeration (obj : handle)
| IWbemClassObject_BeginMethodEnumeration (obj : handle) (lEnumFlags : Z)
| IWbemClassObject_NextMethod (obj : handle)
| IWbemClassObject_EndMethodEnumeration (obj : handle)
| IWbemServices_GetObject (svc : handle) (strObjectPath : wstring)
| IWbemServices_ExecMethod (svc : handle) (strObjectPath strMethodName : wstring)
                           (lFlags : Z) (pInParams : ptr)
| IWbemServices_CreateInstanceEnum (svc : handle) (strFilter : wstring) (lFlags : Z)
| IWbemServices_ExecQuery (svc : handle) (strQueryLanguage strQuery : wstring) (lFlags : Z)
| IEnumWbemClassObject_Next (enum : handle) (lTimeout : Z) (uCount : Z).

(** What a call hands back: its HRESULT and the values its out parameters
    hold afterwards.  Every out parameter the wrapper passes is freshly
    initialised (a null [CComPtr], a null [CComBSTR], an empty
    [CComVariant], zero), so the answer alone fixes what the wrapper sees. *)
Definition Reply (c : Call) : Type :=
  match c with
  | CoInitializeEx _ => HRESULT
  | CoUninitialize => unit
  | CoInitializeSecurity => HRESULT
  | CoCreateInstance_WbemLocator => HRESULT * ptr
  | IWbemLocator_ConnectServer _ _ => HRESULT * ptr
  | CoSetProxyBlanket _ => HRESULT
  | SafeArrayDestroy _ => HRESULT
  | SafeArrayGetLBound _ _ => HRESULT * Z
  | SafeArrayGetUBound _ _ => HRESULT * Z
  | SafeArrayGetElement _ _ => HRESULT * BSTR
  | VariantChangeType _ _ => HRESULT * VARIANT
  | IWbemClassObject_GetNames _ _ => HRESULT * ptr
  | IWbemClassObject_Get _ _ => HRESULT * VARIANT
  | IWbemClassObject_Put _ _ _ _ => HRESULT
  | IWbemClassObject_GetMethod _ _ => HRESULT * ptr
  | IWbemClassObject_SpawnInstance _ => HRESULT * ptr
  | IWbemClassObject_BeginEnumeration _ _ => HRESULT
  | IWbemClassObject_Next _ => HRESULT * BSTR * VARIANT
  | IWbemClassObject_EndEnumeration _ => HRESULT
  | IWbemClassObject_BeginMethodEnumeration _ _ => HRESULT
  | IWbemClassObject_NextMethod _ => HRESULT * BSTR * ptr * ptr
  | IWbemClassObject_EndMethodEnumeration _ => HRESULT
  | IWbemServices_GetObject _ _ => HRESULT * ptr
  | IWbemServices_ExecMethod _ _ _ _ _ => HRESULT * ptr
  | IWbemServices_CreateInstanceEnum _ _ _ => HRESULT * ptr
  | IWbemServices_ExecQuery _ _ _ _ => HRESULT * ptr
  | IEnumWbemClassObject_Next _ _ _ => HRESULT * ptr * Z
  end.

(** The HRESULT of an answer ([CoUninitialize] returns nothing). *)
Definition hr_of (c : Call) : Reply c → HRESULT :=
  match c with
  | CoUninitialize => λ _, S_OK
  | CoInitializeEx _ | CoInitializeSecurity | CoSetProxyBlanket _
  | SafeArrayDestroy _ | IWbemClassObject_Put _ _ _ _
  | IWbemClassObject_BeginEnumeration _ _ | IWbemClassObject_EndEnumeration _
  | IWbemClassObject_BeginMethodEnumeration _ _
  | IWbemClassObject_EndMethodEnumeration _ => λ hr, hr
  | CoCreateInstance_WbemLocator | IWbemLocator_ConnectServer _ _
  | IWbemClassObject_GetNames _ _ | IWbemClassObject_GetMethod _ _
  | IWbemClassObject_SpawnInstance _ | IWbemServices_GetObject _ _
  | IWbemServices_ExecMethod _ _ _ _ _ | IWbemServices_CreateInstanceEnum _ _ _
  | IWbemServices_ExecQuery _ _ _ _ => λ r, fst r
  | SafeArrayGetLBound _ _ | SafeArrayGetUBound _ _ => λ r, fst r
  | SafeArrayGetElement _ _ => λ r, fst r
  | VariantChangeType _ _ | IWbemClassObject_Get _ _ => λ r, fst r
  | IWbemClassObject_Next _ => λ r, fst (fst r)
  | IWbemClassObject_NextMethod _ => λ r, fst (fst (fst r))
  | IEnumWbemClassObject_Next _ _ _ => λ r, fst (fst r)
  end.

(** The platform: a deterministic machine that answers each call from its
    current state.  [Win32FromHResult] is the translation of an HRESULT
    into a Win32 error code that [g40/nv2_w32.h] provides; the header is
    not part of the sources. *)
Class Platform := {
  World : Type;
  respond : ∀ c : Call, World → Reply c * World;
  Win32FromHResult : HRESULT → DWORD
}.

(** One platform call in the log: where it was made, what was asked, what
    came back. *)
Record Event := Ev { ev_line : nat; ev_call : Call; ev_reply : Reply ev_call }.

Definition ev_hr (e : Event) : HRESULT := hr_of (ev_call e) (ev_reply e).

(** ** Outcomes *)

(** What [nv2::throw_if] throws: built from [nv2::acc(LFL)], the place of
    the throw, and, where given, [s_error(Win32FromHResult(hr))]. *)
Record exn := mkExn { exn_line : nat; exn_code : option DWORD }.

(** Undefined behaviour the wrapper can run into. *)
Inductive fault : Type :=
| NullDeref (line : nat)        (* [p->f()] on a null [CComPtr] *)
| NullString (line : nat)       (* a [std::wstring] built from a null pointer *)
| SignedOverflow (line : nat).  (* [i++] on [LONG_MAX] *)

Inductive outcome (A : Type) : Type :=
| Done (a : A)
| Raised (e : exn)
| Terminated
| Crashed (f : fault)
| OutOfFuel.
Arguments Done {A} a.
Arguments Raised {A} e.
Arguments Terminated {A}.
Arguments Crashed {A} f.
Arguments OutOfFuel {A}.

Definition is_Done {A} (o : outcome A) : bool :=
  match o with Done _ => true | _ => false end.
Definition is_Raised {A} (o : outcome A) : bool :=
  match o with Raised _ => true | _ => false end.

(** An outcome that is not a normal return, at another result type. *)
Definition abnormal {A B} (o : outcome A) : outcome B :=
  match o with
  | Done _ => OutOfFuel
  | Raised e => Raised e
  | Terminated => Terminated
  | Crashed f => Crashed f
  | OutOfFuel => OutOfFuel
  end.

(** What a run leaves behind, on a platform with states [W] and an object
    with members [S]. *)
Record result (W S A : Type) := Res {
  out : outcome A;     (* how the code ended *)
  self : S;            (* the members of [this] afterwards *)
  world : W;           (* the platform afterwards *)
  log : list Event     (* the platform calls made, in order *)
}.
Arguments Res {W S A} out self world log.
Arguments out {W S A} r.
Arguments self {W S A} r.
Arguments world {W S A} r.
Arguments log {W S A} r.

(** A result with the calls [l] made before it. *)
Definition prepend {W S A} (l : list Event) (r : result W S A) : result W S A :=
  match r with Res o s w l' => Res o s w (l ++ l') end.

Section Wrapper.
Context `{P : Platform}.

(** Code running on an object with members [S]. *)
Definition M (S A : Type) : Type := S → World → result World S A.

Definition ret {S A} (a : A) : M S A := λ s w, Res (Done a) s w [].

Definition bind {S A B} (m : M S A) (k : A → M S B) : M S B := λ s w,
  match m s w with
  | Res (Done a) s1 w1 l1 => prepend l1 (k a s1 w1)
  | Res o s1 w1 l1 => Res (abnormal o) s1 w1 l1
  end.

Notation "x <- m ;; k" := (bind m (λ x, k))
  (at level 20, m at level 99, k at level 200, only parsing).
Notation "' pat <- m ;; k" := (bind m (λ x, match x with pat => k end))
  (at level 20, pat pattern, m at level 99, k at level 200, only parsing).
Notation "m ;; k" := (bind m (λ _, k))
  (at level 100, k at level 200, only parsing, right associativity).

Definition throw {S A} (e : exn) : M S A := λ s w, Res (Raised e) s w [].
Definition crash {S A} (f : fault) : M S A := λ s w, Res (Crashed f) s w [].
Definition out_of_fuel {S A} : M S A := λ s w, Res OutOfFuel s w [].

(** Reading and writing the members of [this]. *)
Definition get_this {S} : M S S := λ s w, Res (Done s) s w [].
Definition put_this {S} (s' : S) : M S unit := λ _ w, Res (Done tt) s' w [].

(** A platform call made at [line]. *)
Definition call {S} (line : nat) (c : Call) : M S (Reply c) := λ s w,
  let (r, w') := respond c w in Res (Done r) s w' [Ev line c r].

(** [p->...] on a [CComPtr]. *)
Definition deref {S} (line : nat) (p : ptr) : M S handle :=
  match p with Some h => ret h | None => crash (NullDeref line) end.

(** A [std::wstring] built or assigned from a [wchar_t*]. *)
Definition wstring_of {S} (line : nat) (b : BSTR) : M S wstring :=
  match b with Some s => ret s | None => crash (NullString line) end.

(** [nv2::throw_if(cond, ...)]. *)
Definition throw_if {S} (cond : bool) (e : exn) : M S unit :=
  if cond then throw e else ret tt.

(** [nv2::acc(LFL) << nv2::s_error(uw32::Win32FromHResult(hr))]. *)
Definition hr_error (line : nat) (hr : HRESULT) : exn :=
  mkExn line (Some (Win32FromHResult hr)).

(** A function that may not let an exception out: a destructor, which is
    [noexcept] unless declared otherwise, and a function declared
    [throw()].  An exception that reaches the boundary of such a function
    does not go on to the caller: the program ends ([std::terminate];
    before C++17 a [throw()] goes through [std::unexpected], which ends
    the program likewise). *)
Definition noexcept {S A} (m : M S A) : M S A := λ s w,
  match m s w with
  | Res (Raised _) s1 w1 l1 => Res Terminated s1 w1 l1
  | r => r
  end.

(** A local object with destructor [dtor] whose scope is [body]: the
    destructor runs when the scope is left, by return or by exception. *)
Definition scoped {S A} (dtor : M S unit) (body : M S A) : M S A := λ s w,
  match body s w with
  | Res ((Done _ | Raised _) as o) s1 w1 l1 =>
      match noexcept dtor s1 w1 with
      | Res (Done _) s2 w2 l2 => Res o s2 w2 (l1 ++ l2)
      | Res o' s2 w2 l2 => Res (abnormal o') s2 w2 (l1 ++ l2)
      end
  | r => r
  end.

(** Running a method of another object [this'], whose members the caller
    cannot see change. *)
Definition on {S S' A} (this' : S') (m : M S' A) : M S (A * S') := λ s w,
  match m this' w with
  | Res (Done a) s1 w1 l1 => Res (Done (a, s1)) s w1 l1
  | Res o _ w1 l1 => Res (abnormal o) s w1 l1
  end.

(** ** [class ComInit] *)

Record ComInit := mkComInit { ok : bool }.

Definition ComInit_ctor : M ComInit unit :=
  result <- call 64 (CoInitializeEx COINIT_APARTMENTTHREADED) ;;
  throw_if (negb (result =? S_OK)) (mkExn 66 None) ;;
  put_this (mkComInit true).

Definition ComInit_dtor : M ComInit unit :=
  noexcept (
    this <- get_this ;;
    if ok this then
      call 73 CoUninitialize ;;
      put_this (mkComInit false)
    else ret tt).

(** ** [class SAHandle] *)

(** [~SAHandle()] on a handle built from [m_psa].  The destructor has no
    exception specification of its own, hence may not let one out. *)
Definition SAHandle_dtor {S} (m_psa : ptr) : M S unit :=
  noexcept (
    match m_psa with
    | Some psa =>
        hr <- call 92 (SafeArrayDestroy psa) ;;
        throw_if (negb (hr =? S_OK)) (hr_error 93 hr)
    | None => ret tt
    end).

(** [SAHandle sah(psa); body]. *)
Definition with_SAHandle {S A} (psa : ptr) (body : M S A) : M S A :=
  scoped (SAHandle_dtor psa) body.

(** ** [EnumNames] *)

(** [i++] on a [long]. *)
Definition incr_long {S} (line : nat) (i : Z) : M S Z :=
  if i =? LONG_MAX then crash (SignedOverflow line) else ret (i + 1).

(** [for (long i = lLower; i <= lUpper; i++)], entered with [budget] at
    least the number of indices left. *)
Fixpoint EnumNames_loop {S} (budget : nat) (psaNames : ptr) (i lUpper : Z)
    (ret_ : list wstring) : M S (list wstring) :=
  if i <=? lUpper then
    match budget with
    | O => out_of_fuel
    | Datatypes.S budget' =>
        '(hResult, name) <- call 142 (SafeArrayGetElement psaNames i) ;;
        throw_if (negb (hResult =? S_OK)) (hr_error 146 hResult) ;;
        s <- wstring_of 147 name ;;
        i' <- incr_long 139 i ;;
        EnumNames_loop budget' psaNames i' lUpper (ret_ ++ [s])
    end
  else ret ret_.

Definition EnumNames {S} (pClass : ptr) : M S (list wstring) :=
  obj <- deref 120 pClass ;;
  '(hResult, psaNames) <-
     call 120 (IWbemClassObject_GetNames obj
                 (Z.lor WBEM_FLAG_ALWAYS WBEM_FLAG_NONSYSTEM_ONLY)) ;;
  throw_if (negb (hResult =? S_OK)) (hr_error 125 hResult) ;;
  with_SAHandle psaNames (
    '(hResult, lLower) <- call 132 (SafeArrayGetLBound psaNames 1) ;;
    throw_if (negb (hResult =? S_OK)) (hr_error 133 hResult) ;;
    '(hResult, lUpper) <- call 136 (SafeArrayGetUBound psaNames 1) ;;
    throw_if (negb (hResult =? S_OK)) (hr_error 137 hResult) ;;
    EnumNames_loop (Z.to_nat (lUpper - lLower + 1)) psaNames lLower lUpper []).

(** ** [class Object] *)

Record Object := mkObject { m_pObj : ptr; m_pServices : ptr }.

Definition is_null (p : ptr) : bool :=
  match p with None => true | Some _ => false end.

(** [Object(const CComPtr<IWbemClassObject>&, const CComPtr<IWbemServices>&)]
    is [mkObject].  The two constructors that take an [IUnknown] are used
    nowhere in the sources and are left out. *)

Definition Valid (this : Object) : bool := negb (is_null (m_pObj this)).

Definition GetProperties : M Object (list wstring) :=
  this <- get_this ;;
  obj <- deref 214 (m_pObj this) ;;
  '(hResult, psaNames) <-
     call 214 (IWbemClassObject_GetNames obj
                 (Z.lor WBEM_FLAG_ALWAYS WBEM_FLAG_NONSYSTEM_ONLY)) ;;
  throw_if (negb (hResult =? S_OK)) (hr_error 218 hResult) ;;
  with_SAHandle psaNames (
    this <- get_this ;;
    EnumNames (m_pObj this)).

Definition GetValue (property : wstring) : M Object wstring :=
  this <- get_this ;;
  throw_if (is_null (m_pObj this)) (hr_error 231 E_POINTER) ;;
  obj <- deref 234 (m_pObj this) ;;
  '(hResult, val) <- call 234 (IWbemClassObject_Get obj property) ;;
  throw_if (negb (hResult =? S_OK)) (hr_error 235 hResult) ;;
  if vt val =? VT_NULL then
    ret "NULL"%string
  else if vt val =? VT_BOOL then
    ret (if negb (bVal val =? 0) then "true"%string else "false"%string)
  else if negb ((vt val =? VT_LPWSTR) || (vt val =? VT_BSTR)) then
    '(_, val) <- call 248 (VariantChangeType val VT_BSTR) ;;
    wstring_of 249 (bstrVal val)
  else
    wstring_of 253 (bstrVal val).

Definition GetIValue (property : wstring) : M Object Z :=
  this <- get_this ;;
  throw_if (is_null (m_pObj this)) (hr_error 262 E_POINTER) ;;
  obj <- deref 265 (m_pObj this) ;;
  '(hResult, val) <- call 265 (IWbemClassObject_Get obj property) ;;
  throw_if (negb (hResult =? S_OK)) (hr_error 266 hResult) ;;
  val <- (if negb (vt val =? VT_INT) then
            '(_, val) <- call 270 (VariantChangeType val VT_INT) ;; ret val
          else ret val) ;;
  ret (intVal val).

(** The [for (;;)] of [GetMethods]. *)
Fixpoint GetMethods_loop {S} (fuel : nat) (pClassDefinition : handle)
    (ret_ : list MethodDef) : M S (list MethodDef) :=
  match fuel with
  | O => out_of_fuel
  | Datatypes.S fuel' =>
      '(hr, name, ppInSignature, ppOutSignature) <-
         call 297 (IWbemClassObject_NextMethod pClassDefinition) ;;
      if FAILED hr then ret ret_
      else
        match name with
        | None => ret ret_
        | Some name =>
            ipParams <- (if negb (is_null ppInSignature)
                         then EnumNames ppInSignature else ret []) ;;
            opParams <- (if negb (is_null ppOutSignature)
                         then EnumNames ppOutSignature else ret []) ;;
            GetMethods_loop fuel' pClassDefinition
              (ret_ ++ [mkMethodDef name ipParams opParams])
        end
  end.

Definition GetMethods (fuel : nat) : M Object (list MethodDef) :=
  className <- GetValue "__CLASS" ;;
  this <- get_this ;;
  svc <- deref 285 (m_pServices this) ;;
  '(hR, pClassDefinition) <- call 285 (IWbemServices_GetObject svc className) ;;
  throw_if (negb (hR =? S_OK)) (hr_error 286 hR) ;;
  cd <- deref 288 pClassDefinition ;;
  hr <- call 288 (IWbemClassObject_BeginMethodEnumeration cd 0) ;;
  if SUCCEEDED hr then
    ret_ <- GetMethods_loop fuel cd [] ;;
    hr <- call 314 (IWbemClassObject_EndMethodEnumeration cd) ;;
    ret ret_
  else
    ret [].

(** [for (auto& iparam : iparams)]. *)
Fixpoint ExecMethod_put {S} (pInParamsInstance : ptr) (iparams : param_list)
    : M S unit :=
  match iparams with
  | [] => ret tt
  | iparam :: rest =>
      inst <- deref 358 pInParamsInstance ;;
      hR <- call 358 (IWbemClassObject_Put inst (fst iparam) (snd iparam)
                        (vt (snd iparam))) ;;
      ExecMethod_put pInParamsInstance rest
  end.

(** The [for (;;)] that drains the out-parameter object.  [!name] tests
    the [CComBSTR] for null; [name == _W("ReturnValue")] is taken to hold of
    that very string only. *)
Fixpoint ExecMethod_drain {S} (fuel : nat) (pOutParamsInstance : handle)
    (oparams : param_map) : M S param_map :=
  match fuel with
  | O => out_of_fuel
  | Datatypes.S fuel' =>
      '(hR, name, val) <- call 397 (IWbemClassObject_Next pOutParamsInstance) ;;
      match name with
      | None => ret oparams
      | Some name =>
          if String.eqb name "ReturnValue" then
            ExecMethod_drain fuel' pOutParamsInstance oparams
          else
            ExecMethod_drain fuel' pOutParamsInstance (<[name := val]> oparams)
      end
  end.

(** [oparams] is a reference the method writes through.  All the writes
    happen in the draining loop, after which nothing can throw, so the map
    is handed back next to the return value. *)
Definition ExecMethod (fuel : nat) (lpMethodName : wstring)
    (iparams : param_list) (oparams : param_map)
    : M Object (VARIANT * param_map) :=
  this <- get_this ;;
  throw_if (is_null (m_pServices this)) (hr_error 339 E_POINTER) ;;
  throw_if (is_null (m_pObj this)) (hr_error 340 E_POINTER) ;;
  className <- GetValue "__CLASS" ;;
  this <- get_this ;;
  svc <- deref 344 (m_pServices this) ;;
  '(hR, pClassDefinition) <- call 344 (IWbemServices_GetObject svc className) ;;
  throw_if (negb (hR =? S_OK)) (hr_error 345 hR) ;;
  cd <- deref 348 pClassDefinition ;;
  '(hR, pInParamsClass) <- call 348 (IWbemClassObject_GetMethod cd lpMethodName) ;;
  inc <- deref 352 pInParamsClass ;;
  '(hR, pInParamsInstance) <- call 352 (IWbemClassObject_SpawnInstance inc) ;;
  ExecMethod_put pInParamsInstance iparams ;;
  relPath <- GetValue "__RELPATH" ;;
  this <- get_this ;;
  svc <- deref 373 (m_pServices this) ;;
  '(hR, pOutParamsInstance) <-
     call 373 (IWbemServices_ExecMethod svc relPath lpMethodName 0
                 pInParamsInstance) ;;
  match pOutParamsInstance with
  | Some o =>
      '(hR, ret_) <- call 387 (IWbemClassObject_Get o "ReturnValue") ;;
      hR <- call 390 (IWbemClassObject_BeginEnumeration o WBEM_FLAG_NONSYSTEM_ONLY) ;;
      oparams <- ExecMethod_drain fuel o oparams ;;
      hR <- call 405 (IWbemClassObject_EndEnumeration o) ;;
      ret (ret_, oparams)
  | None => ret (VariantEmpty, oparams)
  end.

(** ** [class Services] *)

Record Services := mkServices { m_pService : ptr }.

(** [Services(LPCWSTR lpResourcePath) throw()], run on the freshly
    initialised member (a null [CComPtr]).  [ConnectServer] writes
    [m_pService] through the pointer it is given, before its HRESULT is
    looked at. *)
Definition Services_ctor (lpResourcePath : wstring) : M Services unit :=
  noexcept (
    hResult <- call 426 CoInitializeSecurity ;;
    throw_if (negb (hResult =? S_OK)) (hr_error 437 hResult) ;;
    '(hResult, pLocator) <- call 440 CoCreateInstance_WbemLocator ;;
    throw_if (negb (hResult =? S_OK)) (hr_error 441 hResult) ;;
    loc <- deref 443 pLocator ;;
    '(hResult, pService) <- call 443 (IWbemLocator_ConnectServer loc lpResourcePath) ;;
    put_this (mkServices pService) ;;
    throw_if (negb (hResult =? S_OK)) (hr_error 444 hResult) ;;
    this <- get_this ;;
    hResult <- call 446 (CoSetProxyBlanket (m_pService this)) ;;
    throw_if (negb (hResult =? S_OK)) (hr_error 447 hResult)).

Definition Services_Valid (this : Services) : bool :=
  negb (is_null (m_pService this)).

(** [while (pEnum)] of [GetInstances]. *)
Fixpoint GetInstances_loop (fuel : nat) (pEnum : ptr) (ret_ : list Object)
    : M Services (list Object) :=
  match pEnum with
  | None => ret ret_
  | Some enum =>
      match fuel with
      | O => out_of_fuel
      | Datatypes.S fuel' =>
          '(hResult, pObject, returned) <-
             call 478 (IEnumWbemClassObject_Next enum 0 1) ;;
          if returned =? 0 then ret ret_
          else
            throw_if (negb (hResult =? S_OK)) (hr_error 481 hResult) ;;
            this <- get_this ;;
            GetInstances_loop fuel' pEnum
              (ret_ ++ [mkObject pObject (m_pService this)])
      end
  end.

(** [GetInstances(LPCWSTR)]; the overload on [std::wstring] passes its
    argument on. *)
Definition GetInstances (fuel : nat) (lpClassName : wstring)
    : M Services (list Object) :=
  this <- get_this ;;
  throw_if (is_null (m_pService this)) (hr_error 466 E_POINTER) ;;
  svc <- deref 469 (m_pService this) ;;
  '(hResult, pEnum) <- call 469 (IWbemServices_CreateInstanceEnum svc lpClassName 0) ;;
  throw_if (negb (hResult =? S_OK)) (hr_error 470 hResult) ;;
  GetInstances_loop fuel pEnum [].

(** [GetObject(LPCWSTR)]; the overload on [std::wstring] passes its
    argument on. *)
Definition GetObject (lpObjectName : wstring) : M Services Object :=
  this <- get_this ;;
  throw_if (is_null (m_pService this)) (hr_error 505 E_POINTER) ;;
  svc <- deref 509 (m_pService this) ;;
  '(hResult, pObj) <- call 509 (IWbemServices_GetObject svc lpObjectName) ;;
  throw_if (negb (hResult =? S_OK)) (hr_error 510 hResult) ;;
  this <- get_this ;;
  ret (mkObject pObj (m_pService this)).

(** The query text [GetClassNames] builds. *)
Definition GetClassNames_query (filter : wstring) : wstring :=
  let query := "SELECT * FROM meta_class"%string in
  if negb (String.eqb filter EmptyString) then
    query +:+ " where __CLASS LIKE " +:+ "'" +:+ filter +:+ "'"
  else query.

(** [while (enumerator)] of [GetClassNames]. *)
Fixpoint GetClassNames_loop {S} (fuel : nat) (enumerator : ptr)
    (ret_ : gset string) : M S (gset string) :=
  match enumerator with
  | None => ret ret_
  | Some enum =>
      match fuel with
      | O => out_of_fuel
      | Datatypes.S fuel' =>
          '(hres, pClass, uReturn) <-
             call 551 (IEnumWbemClassObject_Next enum WBEM_INFINITE 1) ;;
          if uReturn =? 0 then ret ret_
          else
            cls <- deref 560 pClass ;;
            '(hres, vtClassName) <- call 560 (IWbemClassObject_Get cls "__CLASS") ;;
            if SUCCEEDED hres then
              s <- wstring_of 563 (bstrVal vtClassName) ;;
              GetClassNames_loop fuel' enumerator ({[ s ]} ∪ ret_)
            else
              GetClassNames_loop fuel' enumerator ret_
      end
  end.

Definition GetClassNames (fuel : nat) (filter : wstring) : M Services (gset string) :=
  let query := GetClassNames_query filter in
  this <- get_this ;;
  svc <- deref 539 (m_pService this) ;;
  '(hres, enumerator) <-
     call 539 (IWbemServices_ExecQuery svc "WQL" query
                 (Z.lor WBEM_FLAG_FORWARD_ONLY WBEM_FLAG_RETURN_IMMEDIATELY)) ;;
  throw_if (negb (hres =? S_OK)) (hr_error 544 hres) ;;
  GetClassNames_loop fuel enumerator ∅.

(** ** [main] *)

(** [try { body } catch (...) { handler }]: the three handlers of [main]
    together catch everything. *)
Definition try_catch {S A} (body : M S A) (handler : M S A) : M S A := λ s w,
  match body s w with
  | Res (Raised _) s1 w1 l1 => prepend l1 (handler s1 w1)
  | r => r
  end.

(** [for (auto& x : xs) body]. *)
Fixpoint for_each {S A} (xs : list A) (body : A → M S unit) : M S unit :=
  match xs with
  | [] => ret tt
  | x :: rest => bind (body x) (λ _, for_each rest body)
  end.

(** A [std::set<std::wstring>] is walked in the order of its keys. *)
Definition in_key_order (s : gset string) : list string :=
  merge_sort (λ x y, Is_true (String.leb x y)) (elements s).

(** What [nv2::ap::parse] leaves in the variables of [main]; the parser is
    not part of the sources. *)
Record Options := mkOptions {
  help : bool;
  test_enumeration : bool;
  test_properties : bool;
  test_methods : bool;
  list_properties : bool;
  list_methods : bool;
  targetName : string
}.

(** The [try] block of [main]; [elevated] is what
    [uw32::IsProcessElevated] answers.  Printing is left out. *)
Definition main_try (fuel : nat) (elevated : bool) (opts : Options) : M unit Z :=
  bind (throw_if (negb elevated) (mkExn 64 None)) (λ _,
  if help opts then ret 0
  else
    let test_enumeration :=
      test_enumeration opts || negb (String.eqb (targetName opts) EmptyString) in
    bind (on (mkComInit false) ComInit_ctor) (λ ci,
    scoped (bind (on ci.2 ComInit_dtor) (λ _, ret tt)) (
      bind (on (mkServices None) (Services_ctor "ROOT\CIMV2")) (λ srv,
      bind (if test_enumeration then
              bind (on srv.2 (GetClassNames fuel (targetName opts))) (λ classNames,
              for_each (in_key_order classNames.1) (λ className,
                bind (on srv.2 (GetObject className)) (λ obj,
                bind (if list_properties opts
                      then bind (on obj.1 GetProperties) (λ _, ret tt)
                      else ret tt) (λ _,
                if list_methods opts
                then bind (on obj.1 (GetMethods fuel)) (λ _, ret tt)
                else ret tt))))
            else ret tt) (λ _,
      bind (if test_properties opts then
              bind (on srv.2 (GetInstances fuel "Win32_LogicalDisk")) (λ disks,
              for_each disks.1 (λ disk,
                bind (on disk GetProperties) (λ props,
                for_each props.1 (λ prop,
                  bind (on disk (GetValue prop)) (λ _, ret tt)))))
            else ret tt) (λ _,
      bind (if test_methods opts then
              bind (on srv.2 (GetInstances fuel "Win32_LogicalDisk")) (λ disks,
              for_each disks.1 (λ disk,
                bind (on disk (GetValue "DeviceID")) (λ diskId,
                if String.eqb diskId.1 "G:" then
                  bind (on disk (ExecMethod fuel "chkdsk"
                                   [("FixErrors"%string, VariantOfBool false);
                                    ("OKToRunAtBootUp"%string, VariantOfBool false)]
                                   ∅)) (λ _, ret tt)
                else ret tt)))
            else ret tt) (λ _,
      ret 0))))))).

(** [main]: [ret] is -1 unless the [try] block runs to its end. *)
Definition main (fuel : nat) (elevated : bool) (opts : Options) : M unit Z :=
  try_catch (main_try fuel elevated opts) (ret (-1)).

End Wrapper.

(** ** A scripted platform *)

(** A platform that answers the n-th call with the n-th entry of a script,
    and with a failure that hands back nothing once the script has run out
    or when the entry does not fit the call.  It serves to run the wrapper
    on concrete conversations with COM. *)
Module Scripted.

Inductive Answer : Type :=
| A_void
| A_hr (hr : HRESULT)
| A_ptr (hr : HRESULT) (p : ptr)
| A_long (hr : HRESULT) (l : Z)
| A_bstr (hr : HRESULT) (b : BSTR)
| A_variant (hr : HRESULT) (v : VARIANT)
| A_next (hr : HRESULT) (name : BSTR) (v : VARIANT)
| A_method (hr : HRESULT) (name : BSTR) (pIn pOut : ptr)
| A_enum (hr : HRESULT) (p : ptr) (returned : Z).

(** The answer of a call that fails and leaves its out parameters alone. *)
Definition failure (c : Call) : Reply c :=
  match c with
  | CoUninitialize => tt
  | CoInitializeEx _ | CoInitializeSecurity | CoSetProxyBlanket _
  | SafeArrayDestroy _ | IWbemClassObject_Put _ _ _ _
  | IWbemClassObject_BeginEnumeration _ _ | IWbemClassObject_EndEnumeration _
  | IWbemClassObject_BeginMethodEnumeration _ _
  | IWbemClassObject_EndMethodEnumeration _ => E_FAIL
  | CoCreateInstance_WbemLocator | IWbemLocator_ConnectServer _ _
  | IWbemClassObject_GetNames _ _ | IWbemClassObject_GetMethod _ _
  | IWbemClassObject_SpawnInstance _ | IWbemServices_GetObject _ _
  | IWbemServices_ExecMethod _ _ _ _ _ | IWbemServices_CreateInstanceEnum _ _ _
  | IWbemServices_ExecQuery _ _ _ _ => (E_FAIL, None)
  | SafeArrayGetLBound _ _ | SafeArrayGetUBound _ _ => (E_FAIL, 0)
  | SafeArrayGetElement _ _ => (E_FAIL, None)
  | VariantChangeType src _ => (E_FAIL, src)
  | IWbemClassObject_Get _ _ => (E_FAIL, VariantEmpty)
  | IWbemClassObject_Next _ => (E_FAIL, None, VariantEmpty)
  | IWbemClassObject_NextMethod _ => (E_FAIL, None, None, None)
  | IEnumWbemClassObject_Next _ _ _ => (E_FAIL, None, 0)
  end.

Definition fit (c : Call) (a : Answer) : Reply c :=
  match c, a with
  | CoUninitialize, A_void => tt
  | CoInitializeEx _, A_hr hr | CoInitializeSecurity, A_hr hr
  | CoSetProxyBlanket _, A_hr hr | SafeArrayDestroy _, A_hr hr
  | IWbemClassObject_Put _ _ _ _, A_hr hr
  | IWbemClassObject_BeginEnumeration _ _, A_hr hr
  | IWbemClassObject_EndEnumeration _, A_hr hr
  | IWbemClassObject_BeginMethodEnumeration _ _, A_hr hr
  | IWbemClassObject_EndMethodEnumeration _, A_hr hr => hr
  | CoCreateInstance_WbemLocator, A_ptr hr p
  | IWbemLocator_ConnectServer _ _, A_ptr hr p
  | IWbemClassObject_GetNames _ _, A_ptr hr p
  | IWbemClassObject_GetMethod _ _, A_ptr hr p
  | IWbemClassObject_SpawnInstance _, A_ptr hr p
  | IWbemServices_GetObject _ _, A_ptr hr p
  | IWbemServices_ExecMethod _ _ _ _ _, A_ptr hr p
  | IWbemServices_CreateInstanceEnum _ _ _, A_ptr hr p
  | IWbemServices_ExecQuery _ _ _ _, A_ptr hr p => (hr, p)
  | SafeArrayGetLBound _ _, A_long hr l
  | SafeArrayGetUBound _ _, A_long hr l => (hr, l)
  | SafeArrayGetElement _ _, A_bstr hr b => (hr, b)
  | VariantChangeType _ _, A_variant hr v
  | IWbemClassObject_Get _ _, A_variant hr v => (hr, v)
  | IWbemClassObject_Next _, A_next hr b v => (hr, b, v)
  | IWbemClassObject_NextMethod _, A_method hr b p q => (hr, b, p, q)
  | IEnumWbemClassObject_Next _ _ _, A_enum hr p n => (hr, p, n)
  | c, _ => failure c
  end.

Definition answer (c : Call) (script : list Answer) : Reply c * list Answer :=
  match script with
  | a :: rest => (fit c a, rest)
  | [] => (failure c, [])
  end.

(** [Win32FromHResult] is taken to keep the low word, the Win32 code of an
    HRESULT of [FACILITY_WIN32]. *)
Definition platform : Platform := {|
  World := list Answer;
  respond := answer;
  Win32FromHResult := λ hr, Z.land hr 0xFFFF
|}.

End Scripted.

(** ** Conversations with the platform *)

(** An object, and scripts of answers for the runs that the theorems
    below are tried on. *)
Module Demo.
Import Scripted.

Definition disk : Object := mkObject (Some 10%nat) (Some 1%nat).
Definition names_script : list Answer :=
  [A_ptr S_OK (Some 20%nat); A_long S_OK 0; A_long S_OK 1;
   A_bstr S_OK (Some "DeviceID"%string); A_bstr S_OK (Some "VolumeName"%string);
   A_hr S_OK].
Definition properties_script : list Answer :=
  [A_ptr S_OK (Some 21%nat)] ++ names_script ++ [A_hr S_OK].

Definition WBEM_E_TYPE_MISMATCH : Z := as_long 0x80041005.

Definition bstr (s : string) : VARIANT := mkVARIANT VT_BSTR 0x1000 (Some s).

Definition chkdsk_params : list (string * VARIANT) :=
  [("FixErrors"%string, VariantOfBool false);
   ("OKToRunAtBootUp"%string, VariantOfBool false)].

(** A call of [chkdsk] that goes through. *)
Definition chkdsk_script : list Answer :=
  [A_variant S_OK (bstr "Win32_LogicalDisk");
   A_ptr S_OK (Some 11%nat);
   A_ptr S_OK (Some 12%nat);
   A_ptr S_OK (Some 13%nat);
   A_hr S_OK; A_hr S_OK;
   A_variant S_OK (bstr "Win32_LogicalDisk.DeviceID=G:");
   A_ptr S_OK (Some 14%nat);
   A_variant S_OK (mkVARIANT VT_I4 0 None);
   A_hr S_OK;
   A_next S_OK (Some "ReturnValue"%string) (mkVARIANT VT_I4 0 None);
   A_next S_OK (Some "Status"%string) (mkVARIANT VT_I4 7 None);
   A_next WBEM_S_NO_MORE_DATA None VariantEmpty;
   A_hr S_OK].

(** The same call, with the first [Put] refused. *)
Definition put_refused_script : list Answer :=
  [A_variant S_OK (bstr "Win32_LogicalDisk");
   A_ptr S_OK (Some 11%nat);
   A_ptr S_OK (Some 12%nat);
   A_ptr S_OK (Some 13%nat);
   A_hr WBEM_E_TYPE_MISMATCH; A_hr S_OK;
   A_variant S_OK (bstr "Win32_LogicalDisk.DeviceID=G:");
   A_ptr S_OK (Some 14%nat);
   A_variant S_OK (mkVARIANT VT_I4 0 None);
   A_hr S_OK;
   A_next WBEM_S_NO_MORE_DATA None VariantEmpty;
   A_hr S_OK].

(** A method without in parameters: [GetMethod] succeeds and sets no
    in-signature. *)
Definition no_in_signature_script : list Answer :=
  [A_variant S_OK (bstr "Win32_OperatingSystem");
   A_ptr S_OK (Some 11%nat);
   A_ptr S_OK None].

(** The bounds are read, then reading the upper bound fails. *)
Definition bound_fails_script : list Answer :=
  [A_ptr S_OK (Some 20%nat); A_long S_OK 0; A_long E_FAIL 0; A_hr S_OK].

(** Security has been initialised before: [CoInitializeSecurity] refuses. *)
Definition security_too_late_script : list Answer :=
  [A_hr S_OK; A_hr RPC_E_TOO_LATE].

Definition no_tests : Options :=
  mkOptions false false false false false false EmptyString.

(** Two classes, one of them handed over twice. *)
Definition classes_script : list Answer :=
  [A_ptr S_OK (Some 30%nat);
   A_enum S_OK (Some 31%nat) 1; A_variant S_OK (bstr "Win32_Process");
   A_enum S_OK (Some 32%nat) 1; A_variant S_OK (bstr "Win32_Processor");
   A_enum S_OK (Some 33%nat) 1; A_variant S_OK (bstr "Win32_Process");
   A_enum S_FALSE None 0].

(** The same query, the first class refusing to tell its name. *)
Definition get_refused_script : list Answer :=
  [A_ptr S_OK (Some 30%nat);
   A_enum S_OK (Some 31%nat) 1; A_variant E_FAIL VariantEmpty;
   A_enum S_OK (Some 32%nat) 1; A_variant S_OK (bstr "Win32_Processor");
   A_enum S_FALSE None 0].

(** A boolean whose [VARIANT_BOOL] is not zero and whose low byte is. *)
Definition odd_bool_script : list Answer :=
  [A_variant S_OK (mkVARIANT VT_BOOL 0x0100 None)].
End Demo.

(** ** More conversations *)

Module Sessions.
Import Scripted.

(** A block size held as [VT_I4], which [GetIValue] has converted. *)
Definition block_size_script : list Answer :=
  [A_variant S_OK (mkVARIANT VT_I4 4096 None);
   A_variant S_OK (mkVARIANT VT_INT 4096 None)].

(** Two disks; the enumerator then reports a failure and hands over
    nothing. *)
Definition disks_script : list Answer :=
  [A_ptr S_OK (Some 40%nat);
   A_enum S_OK (Some 41%nat) 1; A_enum S_OK (Some 42%nat) 1;
   A_enum E_FAIL None 0].

(** A class with two methods: [Chkdsk] with both signatures, the in
    signature naming one parameter, and [Reset] with none. *)
Definition methods_script : list Answer :=
  [A_variant S_OK (Demo.bstr "Win32_LogicalDisk");
   A_ptr S_OK (Some 11%nat);
   A_hr S_OK;
   A_method S_OK (Some "Chkdsk"%string) (Some 50%nat) (Some 51%nat);
   A_ptr S_OK (Some 60%nat); A_long S_OK 0; A_long S_OK 0;
   A_bstr S_OK (Some "FixErrors"%string); A_hr S_OK;
   A_ptr S_OK (Some 61%nat); A_long S_OK 0; A_long S_OK (-1); A_hr S_OK;
   A_method S_OK (Some "Reset"%string) None None;
   A_method WBEM_S_NO_MORE_DATA None None None;
   A_hr S_OK].

(** An array whose only index is [LONG_MAX]. *)
Definition last_index_script : list Answer :=
  [A_ptr S_OK (Some 20%nat); A_long S_OK LONG_MAX; A_long S_OK LONG_MAX;
   A_bstr S_OK (Some "DeviceID"%string); A_hr S_OK].

(** A call of [chkdsk] that the provider refuses: no out-parameter object
    comes back. *)
Definition chkdsk_refused_script : list Answer :=
  [A_variant S_OK (Demo.bstr "Win32_LogicalDisk");
   A_ptr S_OK (Some 11%nat);
   A_ptr S_OK (Some 12%nat);
   A_ptr S_OK (Some 13%nat);
   A_hr S_OK; A_hr S_OK;
   A_variant S_OK (Demo.bstr "Win32_LogicalDisk.DeviceID=G:");
   A_ptr E_FAIL None].

(** The bootstrap goes through. *)
Definition bootstrap_script : list Answer :=
  [A_hr S_OK; A_hr S_OK; A_ptr S_OK (Some 2%nat); A_ptr S_OK (Some 1%nat);
   A_hr S_OK].

(** [main -tm] on a machine with one disk, [G:]. *)
Definition test_methods_only : Options :=
  mkOptions false false false true false false EmptyString.

Definition chkdsk_run_script : list Answer :=
  bootstrap_script ++
  [A_ptr S_OK (Some 40%nat); A_enum S_OK (Some 10%nat) 1; A_enum S_FALSE None 0;
   A_variant S_OK (Demo.bstr "G:")] ++
  Demo.chkdsk_script ++ [A_void].

End Sessions.

(** ** Observations on logs *)

Arguments Reply : simpl never.

(** A [SAFEARRAY] that [GetNames] handed over: the call answered [S_OK]
    and set the pointer. *)
Definition obtained_array (e : Event) : option handle :=
  match e with
  | Ev _ c r =>
      match c return Reply c → option handle with
      | IWbemClassObject_GetNames _ _ => λ r, if r.1 =? S_OK then r.2 else None
      | _ => λ _, None
      end r
  end.

(** A [SAFEARRAY] passed to [SafeArrayDestroy]. *)
Definition destroyed_array (e : Event) : option handle :=
  match ev_call e with
  | SafeArrayDestroy psa => Some psa
  | _ => None
  end.

Definition is_cleanup (e : Event) : bool :=
  match ev_call e with
  | SafeArrayDestroy _ => true
  | _ => false
  end.

(** The calls whose HRESULT the wrapper passes to [nv2::throw_if], by the
    line of the call: [CoInitializeEx] (64); [GetNames] and the three
    [SafeArrayGet...] of [EnumNames] (120, 132, 136, 142); [GetNames] of
    [GetProperties] (214); [Get] of [GetValue] and of [GetIValue] (234,
    265); [GetObject] of [GetMethods], of [ExecMethod] and of
    [Services::GetObject] (285, 344, 509); [CreateInstanceEnum] (469);
    [ExecQuery] (539); and [IEnumWbemClassObject::Next] of [GetInstances]
    (478), but only when it hands back an object. *)
Definition checked_lines : list nat :=
  [64; 120; 132; 136; 142; 214; 234; 265; 285; 344; 469; 509; 539]%nat.

Definition checked (e : Event) : bool :=
  match e with
  | Ev line c r =>
      bool_decide (line ∈ checked_lines) ||
      (Nat.eqb line 478 &&
       match c return Reply c → bool with
       | IEnumWbemClassObject_Next _ _ _ => λ r, negb (r.2 =? 0)
       | _ => λ _, false
       end r)
  end.

(** Every call, and no call: the two ends between which a reading of
    "the wrapper stops at a failed call" can be placed. *)
Definition every_call (e : Event) : bool := true.
Definition no_call (e : Event) : bool := false.

Section Observations.
Context `{P : Platform}.

(** The error an exception carries for the failed call [e]: the
    translation of its HRESULT, except that [ComInit] reports the place
    only. *)
Definition expected_code (e : Event) : option DWORD :=
  match ev_call e with
  | CoInitializeEx _ => None
  | _ => Some (Win32FromHResult (ev_hr e))
  end.

Definition carries {A} (o : outcome A) (e : Event) : Prop :=
  ∃ line, o = Raised (mkExn line (expected_code e)).

(** Stopping at the first failed call.  Of the calls in [l] that [watched]
    selects, one that answers other than [S_OK] is followed only by calls
    that [allowed] selects, and the code ends in an exception that carries
    the call's error, or, when one of the calls that followed has failed
    too, in [std::terminate]. *)
Fixpoint fail_fast {A} (watched allowed : Event → bool) (o : outcome A)
    (l : list Event) : Prop :=
  match l with
  | [] => True
  | e :: rest =>
      (watched e = true → ev_hr e ≠ S_OK →
         forallb allowed rest = true ∧
         (carries o e ∨ (o = Terminated ∧ ∃ e', e' ∈ rest ∧ ev_hr e' ≠ S_OK))) ∧
      fail_fast watched allowed o rest
  end.

(** The operations of the wrapper, with their arguments and the object
    they run on. *)
Inductive operation : Type :=
| Op_ComInit_ctor
| Op_ComInit_dtor (this : ComInit)
| Op_EnumNames (pClass : ptr)
| Op_GetProperties (this : Object)
| Op_GetValue (this : Object) (property : wstring)
| Op_GetIValue (this : Object) (property : wstring)
| Op_GetMethods (fuel : nat) (this : Object)
| Op_ExecMethod (fuel : nat) (this : Object) (lpMethodName : wstring)
                (iparams : param_list) (oparams : param_map)
| Op_Services_ctor (lpResourcePath : wstring)
| Op_GetInstances (fuel : nat) (this : Services) (lpClassName : wstring)
| Op_GetObject (this : Services) (lpObjectName : wstring)
| Op_GetClassNames (fuel : nat) (this : Services) (filter : wstring).

Definition is_Services_ctor (op : operation) : bool :=
  match op with Op_Services_ctor _ => true | _ => false end.

(** How a run ended and what it asked of the platform, the result value
    dropped. *)
Definition summary {W S A} (r : result W S A) : outcome unit * list Event :=
  (match out r with Done _ => Done tt | o => abnormal o end, log r).

Definition perform (op : operation) (w : World) : outcome unit * list Event :=
  match op with
  | Op_ComInit_ctor => summary (ComInit_ctor (mkComInit false) w)
  | Op_ComInit_dtor this => summary (ComInit_dtor this w)
  | Op_EnumNames pClass => summary (EnumNames pClass tt w)
  | Op_GetProperties this => summary (GetProperties this w)
  | Op_GetValue this property => summary (GetValue property this w)
  | Op_GetIValue this property => summary (GetIValue property this w)
  | Op_GetMethods fuel this => summary (GetMethods fuel this w)
  | Op_ExecMethod fuel this lpMethodName iparams oparams =>
      summary (ExecMethod fuel lpMethodName iparams oparams this w)
  | Op_Services_ctor lpResourcePath =>
      summary (Services_ctor lpResourcePath (mkServices None) w)
  | Op_GetInstances fuel this lpClassName =>
      summary (GetInstances fuel lpClassName this w)
  | Op_GetObject this lpObjectName => summary (GetObject lpObjectName this w)
  | Op_GetClassNames fuel this filter => summary (GetClassNames fuel filter this w)
  end.

(** The calls [EnumNames] makes on the array [psa] for the names it
    returns, and the call that destroys the array. *)
Definition element_events (psa : ptr) (lLower : Z) (names : list wstring)
    : list Event :=
  imap (λ k x, Ev 142 (SafeArrayGetElement psa (lLower + Z.of_nat k))
                 (S_OK, Some x)) names.

Definition destroy_events (psa : ptr) (hr : HRESULT) : list Event :=
  match psa with
  | Some h => [Ev 92 (SafeArrayDestroy h) hr]
  | None => []
  end.

(** The log of a run of [EnumNames] on [obj] that returns [names]: the
    names of the non-system properties are asked for, the bounds of the
    array are read, each index from the lower to the upper bound is read
    once and in order, the array is destroyed. *)
Definition enumerated_in_index_order (obj : handle) (names : list wstring)
    (l : list Event) : Prop :=
  ∃ (psa : ptr) (lLower lUpper : Z),
    l = [Ev 120 (IWbemClassObject_GetNames obj 0x40) (S_OK, psa);
         Ev 132 (SafeArrayGetLBound psa 1) (S_OK, lLower);
         Ev 136 (SafeArrayGetUBound psa 1) (S_OK, lUpper)]
        ++ element_events psa lLower names ++ destroy_events psa S_OK ∧
    length names = Z.to_nat (lUpper - lLower + 1) ∧
    (lLower ≤ lUpper + 1 → Z.of_nat (length names) = lUpper - lLower + 1).

(** What the draining loop of [ExecMethod] was handed by [Next], one entry
    per property, and what it does with it. *)
Abbreviation drained := (list (HRESULT * string * VARIANT)) (only parsing).

Definition drain_events (o : handle) (items : drained) : list Event :=
  map (λ it, Ev 397 (IWbemClassObject_Next o) (it.1.1, Some it.1.2, it.2)) items.

Definition store (items : drained) (oparams : param_map) : param_map :=
  foldl (λ m it, if String.eqb it.1.2 "ReturnValue" then m
                 else <[it.1.2 := it.2]> m) oparams items.

(** The value [Next] handed over for [name] the last time it named it. *)
Definition last_value (items : drained) (name : string) : option VARIANT :=
  foldl (λ acc it, if String.eqb it.1.2 name then Some it.2 else acc) None items.

(** What the loop of [GetClassNames] was handed for one object: the answer
    of [Next] and the answer of [Get] for [__CLASS]. *)
Record class_item := mkClassItem {
  ci_hres_next : HRESULT; ci_pClass : handle; ci_uReturn : Z;
  ci_hres_get : HRESULT; ci_vtClassName : VARIANT
}.

Definition class_events (enum : handle) (it : class_item) : list Event :=
  [Ev 551 (IEnumWbemClassObject_Next enum WBEM_INFINITE 1)
     (ci_hres_next it, Some (ci_pClass it), ci_uReturn it);
   Ev 560 (IWbemClassObject_Get (ci_pClass it) "__CLASS")
     (ci_hres_get it, ci_vtClassName it)].

(** The [__CLASS] value of an object, when [Get] succeeded. *)
Definition class_value (it : class_item) : option string :=
  if SUCCEEDED (ci_hres_get it) then bstrVal (ci_vtClassName it) else None.

(** A call that neither hands over nor destroys an array. *)
Definition array_neutral (e : Event) : Prop :=
  obtained_array e = None ∧ destroyed_array e = None.

(** The interface pointer an answer hands over, if any. *)
Definition ev_ptr (e : Event) : option handle :=
  match e with
  | Ev _ c r =>
      match c return Reply c → option handle with
      | CoCreateInstance_WbemLocator | IWbemLocator_ConnectServer _ _
      | IWbemClassObject_GetNames _ _ | IWbemClassObject_GetMethod _ _
      | IWbemClassObject_SpawnInstance _ | IWbemServices_GetObject _ _
      | IWbemServices_ExecMethod _ _ _ _ _
      | IWbemServices_CreateInstanceEnum _ _ _
      | IWbemServices_ExecQuery _ _ _ _ => λ r, r.2
      | IEnumWbemClassObject_Next _ _ _ => λ r, r.1.2
      | _ => λ _, None
      end r
  end.

(** What a run of [ExecMethod] shows about the in-signature pointer: the
    call at line 348 is [GetMethod] for the method asked for; when it sets
    no pointer the run ends there, in the null dereference of line 352;
    when it sets one the run goes on to [SpawnInstance] on it and does not
    end in that dereference; and the dereference happens in no other way. *)
Definition in_signature_unchecked {A} (lpMethodName : string) (o : outcome A)
    (l : list Event) : Prop :=
  (∀ e, e ∈ l → ev_line e = 348%nat →
     (∃ cd, ev_call e = IWbemClassObject_GetMethod cd lpMethodName) ∧
     (ev_ptr e = None → o = Crashed (NullDeref 352) ∧ last l = Some e) ∧
     (∀ inc, ev_ptr e = Some inc →
        o ≠ Crashed (NullDeref 352) ∧
        ∃ e', e' ∈ l ∧ ev_line e' = 352%nat ∧
              ev_call e' = IWbemClassObject_SpawnInstance inc)) ∧
  (o = Crashed (NullDeref 352) →
     ∃ e, last l = Some e ∧ ev_line e = 348%nat ∧ ev_ptr e = None).

(** A [Put] of the pair [p] into the in-parameter instance, with the
    variant's own type as the CIM type. *)
Definition put_event (pInParamsInstance : option handle) (e : Event)
    (p : string * VARIANT) : Prop :=
  ev_line e = 358%nat ∧
  ∃ inst, pInParamsInstance = Some inst ∧
          ev_call e = IWbemClassObject_Put inst p.1 p.2 (vt p.2).

(** The log of [ExecMethod] up to and including the invocation, which
    hands back [pOutParamsInstance]. *)
Definition invocation (this : Object) (w : World) (lpMethodName : string)
    (iparams : list (string * VARIANT)) (pOutParamsInstance : option handle)
    (l : list Event) : Prop :=
  ∃ obj svc className relPath cd inc pInParamsInstance hr_m hr_s hr_e
    w1 w2 w3 l_class l_puts l_rel,
    m_pObj this = Some obj ∧ m_pServices this = Some svc ∧
    GetValue "__CLASS" this w = Res (Done className) this w1 l_class ∧
    GetValue "__RELPATH" this w2 = Res (Done relPath) this w3 l_rel ∧
    Forall2 (put_event pInParamsInstance) l_puts iparams ∧
    l = l_class ++
        [Ev 344 (IWbemServices_GetObject svc className) (S_OK, Some cd);
         Ev 348 (IWbemClassObject_GetMethod cd lpMethodName) (hr_m, Some inc);
         Ev 352 (IWbemClassObject_SpawnInstance inc) (hr_s, pInParamsInstance)]
        ++ l_puts ++ l_rel ++
        [Ev 373 (IWbemServices_ExecMethod svc relPath lpMethodName 0
                   pInParamsInstance) (hr_e, pOutParamsInstance)].

(** The log of [ExecMethod] after the invocation, on the out-parameter
    object [o]: [ReturnValue] is read into [ret_], the non-system
    properties are enumerated until [Next] names none. *)
Definition drained_into (o : handle) (ret_ : VARIANT)
    (items : list (Z * string * VARIANT)) (l : list Event) : Prop :=
  ∃ hr_g hr_b hr_last val_last hr_end,
    l = Ev 387 (IWbemClassObject_Get o "ReturnValue") (hr_g, ret_)
        :: Ev 390 (IWbemClassObject_BeginEnumeration o 0x40) hr_b
        :: drain_events o items ++
           [Ev 397 (IWbemClassObject_Next o) (hr_last, None, val_last);
            Ev 405 (IWbemClassObject_EndEnumeration o) hr_end].

(** The log of the loop of [GetClassNames] on [enumerator] that returns
    [names]: for each object handed over, [Next] and then [Get] of
    [__CLASS]; at the end a [Next] that hands over nothing. *)
Definition classes_enumerated (enumerator : option handle) (names : gset string)
    (l : list Event) : Prop :=
  match enumerator with
  | None => l = [] ∧ names = ∅
  | Some enum =>
      ∃ (items : list class_item) hr_last p_last,
        l = concat (map (class_events enum) items) ++
            [Ev 551 (IEnumWbemClassObject_Next enum WBEM_INFINITE 1)
               (hr_last, p_last, 0)] ∧
        names = list_to_set (omap class_value items)
  end.

(** What a run of [ExecMethod] that returns [ret_] with log [l] did: it
    made the invocation, and then either got no out-parameter object and
    returned an empty variant, or read [ReturnValue] of that object into
    what it returned and drained the object. *)
Definition method_invoked (this : Object) (w : World) (lpMethodName : string)
    (iparams : list (string * VARIANT)) (ret_ : VARIANT) (l : list Event) : Prop :=
  ∃ pOut l_call l_out,
    l = l_call ++ l_out ∧
    invocation this w lpMethodName iparams pOut l_call ∧
    match pOut with
    | None => l_out = [] ∧ ret_ = VariantEmpty
    | Some o => ∃ items, drained_into o ret_ items l_out
    end.

(** What a run of [ExecMethod] that got an out-parameter object left in
    [oparams'], given [oparams] before. *)
Definition out_parameters_stored (this : Object) (w : World) (lpMethodName : string)
    (iparams : list (string * VARIANT)) (oparams : gmap string VARIANT)
    (ret_ : VARIANT) (oparams' : gmap string VARIANT) (l : list Event) : Prop :=
  ∃ pOut l_call l_out,
    l = l_call ++ l_out ∧
    invocation this w lpMethodName iparams pOut l_call ∧
    ∀ o, pOut = Some o →
      ∃ items, drained_into o ret_ items l_out ∧
        (∀ hr key val, (hr, key, val) ∈ items → key ≠ "ReturnValue"%string →
           oparams' !! key = last_value items key ∧
           is_Some (oparams' !! key) ∧
           (NoDup (map (λ it, it.1.2) items) → oparams' !! key = Some val)) ∧
        oparams' !! "ReturnValue"%string = oparams !! "ReturnValue"%string ∧
        (∀ key, key ∉ map (λ it, it.1.2) items → oparams' !! key = oparams !! key).

(** What a run of [GetClassNames] that returns [names] with log [l] did. *)
Definition class_names_queried (this : Services) (filter : string)
    (names : gset string) (l : list Event) : Prop :=
  ∃ svc query enumerator l_loop,
    m_pService this = Some svc ∧
    l = Ev 539 (IWbemServices_ExecQuery svc "WQL" query 0x30) (S_OK, enumerator)
        :: l_loop ∧
    (filter = EmptyString → query = "SELECT * FROM meta_class"%string) ∧
    (filter ≠ EmptyString →
       query = "SELECT * FROM meta_class where __CLASS LIKE '" +:+ filter +:+ "'") ∧
    classes_enumerated enumerator names l_loop.

(** The first thing a run did was to put [c] to the platform as it stood,
    at [line]. *)
Definition asks_first {S A} (r : result World S A) (w : World) (line : nat)
    (c : Call) : Prop :=
  ∃ rest, log r = Ev line c (respond c w).1 :: rest.

(** A failed bootstrap step is the last step made, and ends the program. *)
Fixpoint stops_dead {A} (o : outcome A) (l : list Event) : Prop :=
  match l with
  | [] => True
  | e :: rest => (ev_hr e ≠ S_OK → rest = [] ∧ o = Terminated) ∧ stops_dead o rest
  end.

(** Code that leaves the members of the object it runs on as they were,
    however it ends. *)
Definition keeps_this {S A} (m : M S A) : Prop := ∀ s w, self (m s w) = s.

(** A judgement on how a run ends and on what it asked of the platform. *)
Definition judgement : Type := ∀ A : Type, outcome A → list Event → Prop.

(** Code every run of which is judged well. *)
Definition ensures {S A} (Q : judgement) (m : M S A) : Prop :=
  ∀ s w, Q A (out (m s w)) (log (m s w)).

(** A judgement that goes through sequences: it holds of a return and of a
    throw that asked nothing; what holds of a first part that returns and
    of the second part holds of both; what holds of a part that does not
    return holds of the sequence it cuts short. *)
Class Sequential (Q : judgement) : Prop := {
  seq_done : ∀ A (a : A), Q A (Done a) [];
  seq_raised : ∀ A e, Q A (Raised e) [];
  seq_app : ∀ A B (a : A) (o : outcome B) l1 l2,
    Q A (Done a) l1 → Q B o l2 → Q B o (l1 ++ l2);
  seq_cut : ∀ A B (o : outcome A) l,
    is_Done o = false → Q A o l → Q B (abnormal o) l
}.

(** All calls are made at lines in [lines], and undefined behaviour, if
    any, is one in [faults]. *)
Definition within (lines : nat → Prop) (faults : fault → Prop) : judgement :=
  λ A o l, Forall (λ e, lines (ev_line e)) l ∧ ∀ f, o = Crashed f → faults f.

(** Away from the call of [GetMethod] and from the use of its result. *)
Definition past_GetMethod : judgement :=
  within (λ line, line ≠ 348%nat) (λ f, f ≠ NullDeref 352).

(** The number of calls made at [line]. *)
Definition calls_at (line : nat) (l : list Event) : nat :=
  length (filter (λ e, ev_line e = line) l).

(** A run that ends for lack of loop budget has made [n] calls at [line]. *)
Definition starved (line : nat) (n : nat) : judgement :=
  λ A o l, o = OutOfFuel → (n ≤ calls_at line l)%nat.

(** The judgement of the wrapper as it is: the calls whose HRESULT reaches
    [throw_if] are watched, the destruction of arrays may follow. *)
Definition stops_at_checked : judgement :=
  λ A o l, fail_fast checked is_cleanup o l.

End Observations.

(** ** Further observations *)

(** What the loop of [GetInstances] was handed by one [Next]: the object
    and the count. *)
Abbreviation handed := (list (option handle * Z)) (only parsing).

Definition instance_events (enum : handle) (items : handed) : list Event :=
  map (λ it, Ev 478 (IEnumWbemClassObject_Next enum 0 1) (S_OK, it.1, it.2)) items.

(** The log of the loop of [GetInstances] on [pEnum] that returns [objs]:
    one [Next] per object, answered [S_OK] with a count other than zero;
    at the end a [Next] with count zero, whatever its HRESULT.  Each object
    returned holds the pointer handed over and the pointer [pService] of
    the connection. *)
Definition instances_enumerated (pService : option handle) (pEnum : option handle)
    (objs : list Object) (l : list Event) : Prop :=
  match pEnum with
  | None => l = [] ∧ objs = []
  | Some enum =>
      ∃ (items : handed) hr_last p_last,
        l = instance_events enum items ++
            [Ev 478 (IEnumWbemClassObject_Next enum 0 1) (hr_last, p_last, 0)] ∧
        Forall (λ it, it.2 ≠ 0) items ∧
        objs = map (λ it, mkObject it.1 pService) items
  end.

(** What a run of [GetInstances] that returns [objs] with log [l] did. *)
Definition instances_collected (this : Services) (lpClassName : string)
    (objs : list Object) (l : list Event) : Prop :=
  ∃ svc pEnum l_loop,
    m_pService this = Some svc ∧
    l = Ev 469 (IWbemServices_CreateInstanceEnum svc lpClassName 0) (S_OK, pEnum)
        :: l_loop ∧
    instances_enumerated (Some svc) pEnum objs l_loop.

(** What the loop of [GetMethods] was handed by one [NextMethod], the
    description it made of it, and the calls it made on the two
    signatures. *)
Record method_item := mkMethodItem {
  mi_hr : Z;
  mi_def : MethodDef;
  mi_in : option handle;
  mi_out : option handle;
  mi_in_log : list Event;
  mi_out_log : list Event
}.

(** The names of a signature: none, and no call, when the method has no
    such signature. *)
Definition signature_enumerated (p : option handle) (names : list string)
    (l : list Event) : Prop :=
  match p with
  | None => names = [] ∧ l = []
  | Some obj => enumerated_in_index_order obj names l
  end.

Definition method_events (cd : handle) (it : method_item) : list Event :=
  Ev 297 (IWbemClassObject_NextMethod cd)
     (mi_hr it, Some (name (mi_def it)), mi_in it, mi_out it)
  :: mi_in_log it ++ mi_out_log it.

Definition method_described (it : method_item) : Prop :=
  FAILED (mi_hr it) = false ∧
  signature_enumerated (mi_in it) (ipParams (mi_def it)) (mi_in_log it) ∧
  signature_enumerated (mi_out it) (opParams (mi_def it)) (mi_out_log it).

(** The log of the loop of [GetMethods] on the class [cd] that returns
    [defs]: for each method, [NextMethod] and the enumeration of its
    signatures; at the end a [NextMethod] that fails or names nothing. *)
Definition methods_enumerated (cd : handle) (defs : list MethodDef)
    (l : list Event) : Prop :=
  ∃ (items : list method_item) hr_last name_last in_last out_last,
    l = concat (map (method_events cd) items) ++
        [Ev 297 (IWbemClassObject_NextMethod cd)
            (hr_last, name_last, in_last, out_last)] ∧
    (FAILED hr_last = true ∨ name_last = None) ∧
    Forall method_described items ∧
    defs = map mi_def items.

Section Methods.
Context `{P : Platform}.

(** What a run of [GetMethods] that returns [defs] with log [l] did: it
    read [__CLASS], fetched the class definition and began the enumeration
    of its methods; when that succeeded it walked the methods and ended
    the enumeration, otherwise it made no further call and returns
    nothing. *)
Definition methods_described (this : Object) (w : World) (defs : list MethodDef)
    (l : list Event) : Prop :=
  ∃ svc className cd hr_begin w1 l_class l_loop,
    m_pServices this = Some svc ∧
    GetValue "__CLASS" this w = Res (Done className) this w1 l_class ∧
    l = l_class ++
        Ev 285 (IWbemServices_GetObject svc className) (S_OK, Some cd)
        :: Ev 288 (IWbemClassObject_BeginMethodEnumeration cd 0) hr_begin
        :: l_loop ∧
    if SUCCEEDED hr_begin then
      ∃ l_methods hr_end,
        l_loop = l_methods ++ [Ev 314 (IWbemClassObject_EndMethodEnumeration cd) hr_end] ∧
        methods_enumerated cd defs l_methods
    else l_loop = [] ∧ defs = [].

End Methods.

(** The destruction of an array that failed. *)
Definition failed_cleanup (e : Event) : Prop :=
  is_cleanup e = true ∧ ev_hr e ≠ S_OK.

(** The last call made was a failed destruction of an array. *)
Definition ends_in_failed_cleanup (l : list Event) : Prop :=
  ∃ l' e, l = l' ++ [e] ∧ failed_cleanup e.

(** [std::terminate] is reached exactly through a destructor of [SAHandle]
    that throws. *)
Definition terminated_by_cleanup : judgement :=
  λ A o l, o = Terminated ↔ ends_in_failed_cleanup l.

(** A call that writes to the repository or runs a method. *)
Definition is_update (e : Event) : bool :=
  match ev_call e with
  | IWbemClassObject_Put _ _ _ _ | IWbemClassObject_SpawnInstance _
  | IWbemServices_ExecMethod _ _ _ _ _ => true
  | _ => false
  end.

Definition is_ExecMethod (op : operation) : bool :=
  match op with Op_ExecMethod _ _ _ _ _ => true | _ => false end.

(** Every call made satisfies [φ], however the run ends. *)
Definition logged (φ : Event → Prop) : judgement := λ A o l, Forall φ l.

(** The two calls of [ComInit]. *)
Definition is_apartment (e : Event) : bool :=
  match ev_call e with
  | CoInitializeEx _ | CoUninitialize => true
  | _ => false
  end.

(** A call that only asks. *)
Definition query_call (e : Event) : Prop :=
  is_update e = false ∧ is_apartment e = false.

(** What the calls of [ExecMethod] for [lpMethodName] with [iparams] write
    and run: each [Put] writes a pair of [iparams] with the variant's own
    type, and the method run is [lpMethodName], synchronously. *)
Definition invokes (lpMethodName : string) (iparams : list (string * VARIANT))
    (e : Event) : Prop :=
  is_apartment e = false ∧
  match ev_call e with
  | IWbemClassObject_Put _ wszName val type =>
      (wszName, val) ∈ iparams ∧ type = vt val
  | IWbemServices_ExecMethod _ _ strMethodName lFlags _ =>
      strMethodName = lpMethodName ∧ lFlags = 0
  | _ => True
  end.

(** No undefined behaviour. *)
Definition defined : judgement := within (λ _, True) (λ _, False).

(** The lines of the tests for a null member: [GetValue], [GetIValue],
    [ExecMethod] (two), [GetInstances], [Services::GetObject]. *)
Definition guard_lines : list nat := [231; 262; 339; 340; 466; 505]%nat.

Section Causes.
Context `{P : Platform}.

(** Why an exception was thrown: a member was null, and the exception
    carries the translation of [E_POINTER]; or a call whose HRESULT is
    checked answered other than [S_OK], the exception carries what is
    expected for that call, and only arrays were destroyed after it. *)
Definition cause (e : exn) (l : list Event) : Prop :=
  (exn_line e ∈ guard_lines ∧ exn_code e = Some (Win32FromHResult E_POINTER)) ∨
  ∃ l1 ev l2,
    l = l1 ++ ev :: l2 ∧ checked ev = true ∧ ev_hr ev ≠ S_OK ∧
    exn_code e = expected_code ev ∧ forallb is_cleanup l2 = true.

Definition caused : judgement := λ A o l, ∀ e, o = Raised e → cause e l.

End Causes.

(** The parameters [main] passes to [chkdsk]: nothing is to be fixed. *)
Definition chkdsk_iparams : list (string * VARIANT) :=
  [("FixErrors"%string, VariantOfBool false);
   ("OKToRunAtBootUp"%string, VariantOfBool false)].

(** What the options of [main] let it ask.  It connects to [ROOT\CIMV2];
    it queries the classes only when enumeration is to be tested or a
    target name is given, and then with the query built from that name;
    it enumerates instances only of [Win32_LogicalDisk] and only when
    properties or methods are to be tested; and it prepares, writes and
    runs a method only when methods are to be tested, and then [chkdsk]
    with [chkdsk_iparams]. *)
Definition option_call (opts : Options) (e : Event) : Prop :=
  match ev_call e with
  | IWbemLocator_ConnectServer _ strNetworkResource =>
      strNetworkResource = "ROOT\CIMV2"%string
  | IWbemServices_ExecQuery _ strQueryLanguage strQuery _ =>
      test_enumeration opts || negb (String.eqb (targetName opts) EmptyString) = true ∧
      strQueryLanguage = "WQL"%string ∧
      strQuery = GetClassNames_query (targetName opts)
  | IWbemServices_CreateInstanceEnum _ strFilter _ =>
      test_properties opts || test_methods opts = true ∧
      strFilter = "Win32_LogicalDisk"%string
  | IWbemClassObject_GetMethod _ wszName =>
      test_methods opts = true ∧ wszName = "chkdsk"%string
  | IWbemClassObject_SpawnInstance _ => test_methods opts = true
  | IWbemClassObject_Put _ wszName val type =>
      test_methods opts = true ∧ (wszName, val) ∈ chkdsk_iparams ∧ type = vt val
  | IWbemServices_ExecMethod _ _ strMethodName lFlags _ =>
      test_methods opts = true ∧ strMethodName = "chkdsk"%string ∧ lFlags = 0
  | _ => True
  end.

(** What [main] may ask between the two calls of [ComInit]. *)
Definition main_call (opts : Options) (e : Event) : Prop :=
  is_apartment e = false ∧ option_call opts e.

Section Yields.
Context `{P : Platform}.

(** Code that returns nothing but [v]. *)
Definition yields {S A} (v : A) (m : M S A) : Prop :=
  ∀ s w a, out (m s w) = Done a → a = v.

End Yields.

(** Undefined behaviour, if any, is one of [faults]. *)
Definition faulty (faults : list fault) : judgement :=
  within (λ _, True) (λ f, f ∈ faults).

(** The places where each operation can run into undefined behaviour. *)
Definition EnumNames_sites : list fault :=
  [NullString 147; SignedOverflow 139].
Definition GetValue_sites : list fault := [NullString 249; NullString 253].
Definition GetMethods_sites : list fault :=
  GetValue_sites ++ [NullDeref 285; NullDeref 288] ++ EnumNames_sites.
Definition ExecMethod_sites : list fault :=
  GetValue_sites ++ [NullDeref 348; NullDeref 352; NullDeref 358].
Definition GetClassNames_sites : list fault :=
  [NullDeref 539; NullDeref 560; NullString 563].

Definition faults_of (op : operation) : list fault :=
  match op with
  | Op_ComInit_ctor | Op_ComInit_dtor _ => []
  | Op_EnumNames _ => NullDeref 120 :: EnumNames_sites
  | Op_GetProperties _ => NullDeref 214 :: EnumNames_sites
  | Op_GetValue _ _ => GetValue_sites
  | Op_GetIValue _ _ => []
  | Op_GetMethods _ _ => GetMethods_sites
  | Op_ExecMethod _ _ _ _ _ => ExecMethod_sites
  | Op_Services_ctor _ => [NullDeref 443]
  | Op_GetInstances _ _ _ => []
  | Op_GetObject _ _ => []
  | Op_GetClassNames _ _ _ => GetClassNames_sites
  end.

(** The four steps of the constructor of [Services]. *)
Definition is_bootstrap (e : Event) : bool :=
  match ev_call e with
  | CoInitializeSecurity | CoCreateInstance_WbemLocator
  | IWbemLocator_ConnectServer _ _ | CoSetProxyBlanket _ => true
  | _ => false
  end.

(** The calls whose HRESULT reaches a [throw_if]: in the operations, in
    the constructor of [Services], in the destructor of [SAHandle]. *)
Definition must_succeed (e : Event) : bool :=
  checked e || is_bootstrap e || is_cleanup e.

(** A run that returns has seen every such call answer [S_OK]. *)
Definition sound : judgement :=
  λ A o l, is_Done o = true →
           Forall (λ e, must_succeed e = true → ev_hr e = S_OK) l.

(** The call that runs a method. *)
Definition is_invocation (e : Event) : bool :=
  match ev_call e with
  | IWbemServices_ExecMethod _ _ _ _ _ => true
  | _ => false
  end.

(** A run that returns, or would with more loop budget. *)
Definition finishes {A} (o : outcome A) : Prop :=
  is_Done o = true ∨ o = OutOfFuel.

(** A run that does not finish has run no method. *)
Definition fails_before_invoking : judgement :=
  λ A o l, finishes o ∨ Forall (λ e, is_invocation e = false) l.

(** ** Running the code: equations *)

Section Equations.
Context `{P : Platform}.
Context {S : Type}.
Implicit Types (s : S) (w : World) (l : list Event).

Lemma out_prepend {A} l (r : result World S A) : out (prepend l r) = out r.
Proof. by destruct r. Qed.

Lemma self_prepend {A} l (r : result World S A) : self (prepend l r) = self r.
Proof. by destruct r. Qed.

Lemma world_prepend {A} l (r : result World S A) : world (prepend l r) = world r.
Proof. by destruct r. Qed.

Lemma log_prepend {A} l (r : result World S A) : log (prepend l r) = l ++ log r.
Proof. by destruct r. Qed.

Lemma prepend_nil {A} (r : result World S A) : prepend [] r = r.
Proof. by destruct r. Qed.

Lemma prepend_prepend {A} l1 l2 (r : result World S A) :
  prepend l1 (prepend l2 r) = prepend (l1 ++ l2) r.
Proof. destruct r; cbn. by rewrite app_assoc. Qed.

Lemma bind_ret {A B} (a : A) (k : A → M S B) s w : bind (ret a) k s w = k a s w.
Proof. unfold bind, ret. apply prepend_nil. Qed.

Lemma bind_throw {A B} e (k : A → M S B) s w :
  bind (throw e) k s w = Res (Raised e) s w [].
Proof. reflexivity. Qed.

Lemma bind_crash {A B} f (k : A → M S B) s w :
  bind (crash f) k s w = Res (Crashed f) s w [].
Proof. reflexivity. Qed.

Lemma bind_out_of_fuel {A B} (k : A → M S B) s w :
  bind out_of_fuel k s w = Res OutOfFuel s w [].
Proof. reflexivity. Qed.

Lemma bind_get_this {B} (k : S → M S B) s w : bind get_this k s w = k s s w.
Proof. unfold bind, get_this. apply prepend_nil. Qed.

Lemma bind_put_this {B} s' (k : unit → M S B) s w :
  bind (put_this s') k s w = k tt s' w.
Proof. unfold bind, put_this. apply prepend_nil. Qed.

Lemma bind_call {B} line c (k : Reply c → M S B) s w :
  bind (call line c) k s w =
  prepend [Ev line c (respond c w).1] (k (respond c w).1 s (respond c w).2).
Proof. unfold bind, call. by destruct (respond c w). Qed.

Lemma run_call line c s w :
  call line c s w =
  Res (Done (respond c w).1) s (respond c w).2 [Ev line c (respond c w).1].
Proof. unfold call. by destruct (respond c w). Qed.

Lemma bind_throw_if {B} cond e (k : unit → M S B) s w :
  bind (throw_if cond e) k s w =
  if cond then Res (Raised e) s w [] else k tt s w.
Proof. unfold throw_if. destruct cond; [done | apply bind_ret]. Qed.

Lemma bind_deref {B} line p (k : handle → M S B) s w :
  bind (deref line p) k s w =
  match p with
  | Some h => k h s w
  | None => Res (Crashed (NullDeref line)) s w []
  end.
Proof. unfold deref. destruct p; [apply bind_ret | done]. Qed.

Lemma bind_wstring_of {B} line b (k : string → M S B) s w :
  bind (wstring_of line b) k s w =
  match b with
  | Some x => k x s w
  | None => Res (Crashed (NullString line)) s w []
  end.
Proof. unfold wstring_of. destruct b; [apply bind_ret | done]. Qed.

Lemma bind_incr_long {B} line i (k : Z → M S B) s w :
  bind (incr_long line i) k s w =
  if i =? LONG_MAX then Res (Crashed (SignedOverflow line)) s w []
  else k (i + 1) s w.
Proof. unfold incr_long. destruct (i =? LONG_MAX); [done | apply bind_ret]. Qed.

Lemma run_ret {A} (a : A) s w : ret a s w = Res (Done a) s w [].
Proof. reflexivity. Qed.

Lemma run_wstring_of line b s w :
  wstring_of line b s w =
  match b with
  | Some x => Res (Done x) s w []
  | None => Res (Crashed (NullString line)) s w []
  end.
Proof. by destruct b. Qed.

Lemma run_throw_if cond e s w :
  throw_if cond e s w = if cond then Res (Raised e) s w [] else Res (Done tt) s w [].
Proof. by destruct cond. Qed.

(** Sequencing after code whose run is known. *)
Lemma bind_Done {A B} (m : M S A) (k : A → M S B) s w a s1 w1 l1 :
  m s w = Res (Done a) s1 w1 l1 → bind m k s w = prepend l1 (k a s1 w1).
Proof. unfold bind. by intros ->. Qed.

Lemma bind_abnormal {A B} (m : M S A) (k : A → M S B) s w o s1 w1 l1 :
  m s w = Res o s1 w1 l1 → is_Done o = false →
  bind m k s w = Res (abnormal o) s1 w1 l1.
Proof. unfold bind. intros -> ?. by destruct o. Qed.

(** A normal return of a sequence is a normal return of both parts. *)
Lemma bind_Done_inv {A B} (m : M S A) (k : A → M S B) s w b s2 w2 l :
  bind m k s w = Res (Done b) s2 w2 l →
  ∃ a s1 w1 l1 l2,
    m s w = Res (Done a) s1 w1 l1 ∧
    k a s1 w1 = Res (Done b) s2 w2 l2 ∧ l = l1 ++ l2.
Proof.
  unfold bind. destruct (m s w) as [[a| | | |] s1 w1 l1]; try discriminate.
  destruct (k a s1 w1) as [o s2' w2' l2] eqn:Ek. cbn.
  intros [= -> -> -> <-]. by exists a, s1, w1, l1, l2.
Qed.

End Equations.

Create Rewrite HintDb run.
#[global] Hint Rewrite
  @bind_ret @bind_throw @bind_crash @bind_out_of_fuel @bind_get_this
  @bind_put_this @bind_call @bind_throw_if @bind_deref @bind_wstring_of
  @bind_incr_long @out_prepend @self_prepend @world_prepend @log_prepend
  @prepend_nil @run_ret @run_wstring_of @run_throw_if @run_call : run.

(** ** The array handle *)

Section SAHandle_facts.
Context `{P : Platform} {S : Type}.

(** The destructor in closed form. *)
Lemma run_SAHandle_dtor (psa : option handle) (s : S) w :
  SAHandle_dtor psa s w =
  match psa with
  | Some h =>
      let a := respond (SafeArrayDestroy h) w in
      Res (if a.1 =? S_OK then Done tt else Terminated) s a.2
          [Ev 92 (SafeArrayDestroy h) a.1]
  | None => Res (Done tt) s w []
  end.
Proof.
  unfold SAHandle_dtor, noexcept. destruct psa as [h|]; [|done].
  autorewrite with run. destruct (respond (SafeArrayDestroy h) w) as [hr w1].
  cbn [fst snd]. autorewrite with run. by destruct (hr =? S_OK).
Qed.

(** A scope guarded by the handle, in closed form. *)
Lemma run_with_SAHandle {A} (psa : option handle) (body : M S A) s w :
  with_SAHandle psa body s w =
  match body s w with
  | Res ((Done _ | Raised _) as o) s1 w1 l1 =>
      match psa with
      | Some h =>
          let a := respond (SafeArrayDestroy h) w1 in
          Res (if a.1 =? S_OK then o else Terminated) s1 a.2
              (l1 ++ [Ev 92 (SafeArrayDestroy h) a.1])
      | None => Res o s1 w1 l1
      end
  | r => r
  end.
Proof.
  unfold with_SAHandle, scoped.
  destruct (body s w) as [[a| e| | |] s1 w1 l1]; try done.
  all: unfold noexcept; rewrite run_SAHandle_dtor; destruct psa as [h|]; cbn;
    rewrite ?app_nil_r; try done.
  all: by destruct (_ =? S_OK).
Qed.

Lemma with_SAHandle_Done_inv {A} (psa : option handle) (body : M S A) s w a s' w' l :
  with_SAHandle psa body s w = Res (Done a) s' w' l →
  ∃ w1 l1, body s w = Res (Done a) s' w1 l1 ∧ l = l1 ++ destroy_events psa S_OK.
Proof.
  rewrite run_with_SAHandle.
  destruct (body s w) as [[a'| e| | |] s1 w1 l1]; try discriminate.
  - destruct psa as [h|]; cbn.
    + destruct (Z.eqb_spec (respond (SafeArrayDestroy h) w1).1 S_OK) as [->|];
        [|discriminate].
      intros [= -> -> <- <-]. eauto.
    + intros [= -> -> -> <-]. exists w', l1. by rewrite app_nil_r.
  - destruct psa as [h|]; cbn; [|discriminate]. by destruct (_ =? S_OK).
Qed.

End SAHandle_facts.

Section EnumNames_facts.
Context `{P : Platform}.

Lemma element_events_cons psa i x xs :
  element_events psa i (x :: xs) =
  Ev 142 (SafeArrayGetElement psa i) (S_OK, Some x) :: element_events psa (i + 1) xs.
Proof.
  unfold element_events. cbn [imap]. rewrite Z.add_0_r. f_equal.
  apply imap_ext. intros k y _. cbn.
  by replace (i + Z.of_nat (Datatypes.S k)) with (i + 1 + Z.of_nat k) by lia.
Qed.

Lemma EnumNames_loop_Done {S} budget psaNames i lUpper acc (s : S) w names s' w' l :
  EnumNames_loop budget psaNames i lUpper acc s w = Res (Done names) s' w' l →
  ∃ elems,
    names = acc ++ elems ∧ s' = s ∧
    l = element_events psaNames i elems ∧
    length elems = Z.to_nat (lUpper - i + 1).
Proof.
  revert i acc s w l. induction budget as [|budget IH]; intros i acc s w l;
    cbn [EnumNames_loop]; destruct (Z.leb_spec i lUpper) as [Hle|Hgt].
  - discriminate.
  - intros [= <- <- <- <-]. exists []. rewrite app_nil_r.
    repeat split; cbn; lia.
  - autorewrite with run.
    destruct (respond (SafeArrayGetElement psaNames i) w) as [[hr name] w1] eqn:E.
    cbn [fst snd]. autorewrite with run.
    destruct (Z.eqb_spec hr S_OK) as [->|]; cbn [negb prepend]; [|discriminate].
    autorewrite with run. destruct name as [x|]; cbn [prepend]; [|discriminate].
    autorewrite with run. destruct (Z.eqb_spec i LONG_MAX); cbn [prepend]; [discriminate|].
    destruct (EnumNames_loop budget psaNames (i + 1) lUpper (acc ++ [x]) s w1)
      as [o s2 w2 l2] eqn:Eloop.
    cbn. intros [= -> -> -> <-].
    apply IH in Eloop as (elems & -> & -> & -> & Hlen).
    exists (x :: elems). rewrite <- app_assoc. cbn [app].
    rewrite element_events_cons. repeat split.
    cbn [length]. lia.
  - intros [= <- <- <- <-]. exists []. rewrite app_nil_r.
    repeat split; cbn; lia.
Qed.

(** The budget [EnumNames] gives its loop is never used up. *)
Lemma EnumNames_loop_budget {S} budget psaNames i lUpper acc (s : S) w :
  (Z.to_nat (lUpper - i + 1) ≤ budget)%nat →
  out (EnumNames_loop budget psaNames i lUpper acc s w) ≠ OutOfFuel.
Proof.
  revert i acc s w. induction budget as [|budget IH]; intros i acc s w Hb;
    cbn [EnumNames_loop]; destruct (Z.leb_spec i lUpper) as [Hle|Hgt];
    try done; [lia|].
  autorewrite with run.
  destruct (respond (SafeArrayGetElement psaNames i) w) as [[hr name] w1] eqn:E.
  cbn [fst snd]. autorewrite with run.
  destruct (negb (hr =? S_OK)); [done|].
  autorewrite with run. destruct name as [x|]; [|done].
  autorewrite with run. destruct (Z.eqb_spec i LONG_MAX); [done|].
  autorewrite with run. apply IH. lia.
Qed.

Lemma EnumNames_Done {S} pClass (s : S) w names s' w' l :
  EnumNames pClass s w = Res (Done names) s' w' l →
  s' = s ∧ ∃ obj, pClass = Some obj ∧ enumerated_in_index_order obj names l.
Proof.
  unfold EnumNames. destruct pClass as [obj|]; autorewrite with run; [|discriminate].
  destruct (respond (IWbemClassObject_GetNames obj _) w) as [[hr psa] w1].
  cbn [fst snd]. autorewrite with run.
  destruct (Z.eqb_spec hr S_OK) as [->|]; cbn [negb prepend]; [|discriminate].
  destruct (with_SAHandle _ _ s w1) as [o s2 w2 l2] eqn:Hscope. cbn [prepend].
  intros [= -> -> -> <-].
  apply with_SAHandle_Done_inv in Hscope as (w3 & l3 & Hbody & ->).
  revert Hbody. autorewrite with run.
  destruct (respond (SafeArrayGetLBound psa 1) w1) as [[hr lLower] w4].
  cbn [fst snd]. autorewrite with run.
  destruct (Z.eqb_spec hr S_OK) as [->|]; cbn [negb prepend]; [|discriminate].
  autorewrite with run.
  destruct (respond (SafeArrayGetUBound psa 1) w4) as [[hr lUpper] w5].
  cbn [fst snd]. autorewrite with run.
  destruct (Z.eqb_spec hr S_OK) as [->|]; cbn [negb prepend]; [|discriminate].
  destruct (EnumNames_loop _ _ _ _ _ s w5) as [o s6 w6 l6] eqn:Hloop. cbn [prepend].
  intros [= -> -> -> <-].
  apply EnumNames_loop_Done in Hloop as (elems & -> & -> & -> & Hlen).
  split; [done|]. exists obj. split; [done|].
  exists psa, lLower, lUpper. cbn [app]. repeat split; [done|lia].
Qed.

Lemma EnumNames_budget {S} pClass (s : S) w :
  out (EnumNames pClass s w) ≠ OutOfFuel.
Proof.
  unfold EnumNames. destruct pClass as [obj|]; autorewrite with run; [|done].
  destruct (respond (IWbemClassObject_GetNames obj _) w) as [[hr psa] w1].
  cbn [fst snd]. autorewrite with run.
  destruct (negb (hr =? S_OK)); [done|].
  autorewrite with run. rewrite run_with_SAHandle.
  match goal with |- context [bind ?m ?k s w1] => 
    assert (out (bind m k s w1) ≠ OutOfFuel) as Hb end.
  { autorewrite with run.
    destruct (respond (SafeArrayGetLBound psa 1) w1) as [[hr1 lLower] w4].
    cbn [fst snd]. autorewrite with run. destruct (negb (hr1 =? S_OK)); [done|].
    autorewrite with run.
    destruct (respond (SafeArrayGetUBound psa 1) w4) as [[hr2 lUpper] w5].
    cbn [fst snd]. autorewrite with run. destruct (negb (hr2 =? S_OK)); [done|].
    autorewrite with run. by apply EnumNames_loop_budget. }
  revert Hb. destruct (bind _ _ s w1) as [[| | | |] s2 w2 l2]; cbn; try done.
  all: destruct psa; cbn; try done; by destruct (_ =? S_OK).
Qed.

End EnumNames_facts.

Section Arrays.
Context `{P : Platform}.

Lemma omap_array_neutral l :
  Forall array_neutral l →
  omap obtained_array l = [] ∧ omap destroyed_array l = [].
Proof.
  induction 1 as [|e l [Ho Hd] _ [IHo IHd]]; [done|].
  cbn. by rewrite Ho, Hd, IHo, IHd.
Qed.

Lemma EnumNames_loop_neutral {S} budget psaNames i lUpper acc (s : S) w :
  Forall array_neutral (log (EnumNames_loop budget psaNames i lUpper acc s w)).
Proof.
  revert i acc s w. induction budget as [|budget IH]; intros i acc s w;
    cbn [EnumNames_loop]; destruct (i <=? lUpper); try by constructor.
  autorewrite with run.
  destruct (respond (SafeArrayGetElement psaNames i) w) as [[hr name] w1].
  cbn [fst snd]. constructor; [done|].
  autorewrite with run. destruct (negb (hr =? S_OK)); [by constructor|].
  autorewrite with run. destruct name as [x|]; [|by constructor].
  autorewrite with run. destruct (i =? LONG_MAX); [by constructor|].
  apply IH.
Qed.

Lemma EnumNames_arrays {S} pClass (s : S) w :
  let r := EnumNames pClass s w in
  is_Done (out r) || is_Raised (out r) = true →
  omap destroyed_array (log r) = rev (omap obtained_array (log r)).
Proof.
  unfold EnumNames. destruct pClass as [obj|]; autorewrite with run; [|done].
  destruct (respond (IWbemClassObject_GetNames obj _) w) as [[hr psa] w1].
  cbn [fst snd]. autorewrite with run.
  destruct (Z.eqb_spec hr S_OK) as [->|Hhr]; cbn [negb].
  2: { cbn. by rewrite (proj2 (Z.eqb_neq _ _) Hhr). }
  autorewrite with run. rewrite run_with_SAHandle.
  match goal with |- context [bind ?m ?k s w1] =>
    assert (Forall array_neutral (log (bind m k s w1))) as Hb end.
  { autorewrite with run.
    destruct (respond (SafeArrayGetLBound psa 1) w1) as [[hr1 lLower] w4].
    cbn [fst snd]. constructor; [done|].
    autorewrite with run. destruct (negb (hr1 =? S_OK)); [by constructor|].
    autorewrite with run.
    destruct (respond (SafeArrayGetUBound psa 1) w4) as [[hr2 lUpper] w5].
    cbn [fst snd]. constructor; [done|].
    autorewrite with run. destruct (negb (hr2 =? S_OK)); [by constructor|].
    apply EnumNames_loop_neutral. }
  revert Hb. destruct (bind _ _ s w1) as [o s2 w2 l2]. cbn [log].
  intros [Ho Hd]%omap_array_neutral.
  destruct o, psa as [h|]; cbn [out log is_Done is_Raised orb]; try done.
  all: try (destruct (Z.eqb_spec (respond (SafeArrayDestroy h) w2).1 S_OK); [|done]).
  all: intros _; cbn [omap]; rewrite ?omap_app, ?Ho, ?Hd; by cbn.
Qed.

Lemma GetProperties_arrays this w :
  let r := GetProperties this w in
  is_Done (out r) || is_Raised (out r) = true →
  omap destroyed_array (log r) = rev (omap obtained_array (log r)).
Proof.
  unfold GetProperties. autorewrite with run.
  destruct (m_pObj this) as [obj|] eqn:Hobj; [|done]. autorewrite with run.
  destruct (respond (IWbemClassObject_GetNames obj _) w) as [[hr psa] w1].
  cbn [fst snd]. autorewrite with run.
  destruct (Z.eqb_spec hr S_OK) as [->|Hhr]; cbn [negb].
  2: { cbn. by rewrite (proj2 (Z.eqb_neq _ _) Hhr). }
  autorewrite with run. rewrite run_with_SAHandle. autorewrite with run.
  rewrite Hobj. pose proof (EnumNames_arrays (Some obj) this w1) as Hin.
  revert Hin. destruct (EnumNames (Some obj) this w1) as [o s2 w2 l2].
  cbn [out log].
  destruct o, psa as [h|]; cbn [out log is_Done is_Raised orb]; try done.
  all: try (destruct (Z.eqb_spec (respond (SafeArrayDestroy h) w2).1 S_OK); [|done]).
  all: intros Hin _; specialize (Hin eq_refl); cbn [omap];
    rewrite ?omap_app, Hin; cbn; by rewrite ?app_nil_r.
Qed.

End Arrays.

(** ** The members of [this] *)

Section Frame.
Context `{P : Platform}.

Context {S : Type}.

Lemma keeps_ret {A} (a : A) : keeps_this (S := S) (ret a).
Proof. done. Qed.
Lemma keeps_throw {A} e : keeps_this (S := S) (A := A) (throw e).
Proof. done. Qed.
Lemma keeps_crash {A} f : keeps_this (S := S) (A := A) (crash f).
Proof. done. Qed.
Lemma keeps_out_of_fuel {A} : keeps_this (S := S) (A := A) out_of_fuel.
Proof. done. Qed.
Lemma keeps_get_this : keeps_this (S := S) get_this.
Proof. done. Qed.
Lemma keeps_call line c : keeps_this (S := S) (call line c).
Proof. intros s w. by rewrite run_call. Qed.
Lemma keeps_deref line p : keeps_this (S := S) (deref line p).
Proof. by destruct p. Qed.
Lemma keeps_wstring_of line b : keeps_this (S := S) (wstring_of line b).
Proof. by destruct b. Qed.
Lemma keeps_throw_if cond e : keeps_this (S := S) (throw_if cond e).
Proof. by destruct cond. Qed.
Lemma keeps_incr_long line i : keeps_this (S := S) (incr_long line i).
Proof. unfold incr_long. by destruct (i =? LONG_MAX). Qed.

Lemma keeps_bind {A B} (m : M S A) (k : A → M S B) :
  keeps_this m → (∀ a, keeps_this (k a)) → keeps_this (bind m k).
Proof.
  intros Hm Hk s w. unfold bind. specialize (Hm s w).
  destruct (m s w) as [[a| | | |] s1 w1 l1]; cbn in *; subst; try done.
  rewrite self_prepend. apply Hk.
Qed.

Lemma keeps_noexcept {A} (m : M S A) : keeps_this m → keeps_this (noexcept m).
Proof.
  intros Hm s w. unfold noexcept. specialize (Hm s w).
  by destruct (m s w) as [[a| | | |] s1 w1 l1].
Qed.

Lemma keeps_scoped {A} dtor (body : M S A) :
  keeps_this dtor → keeps_this body → keeps_this (scoped dtor body).
Proof.
  intros Hd Hb s w. unfold scoped. specialize (Hb s w).
  destruct (body s w) as [[a| e| | |] s1 w1 l1]; cbn in *; subst; try done.
  all: pose proof (keeps_noexcept _ Hd s w1) as Hn;
    by destruct (noexcept dtor s w1) as [[| | | |] s2 w2 l2].
Qed.

Lemma keeps_on {S' A} (this' : S') (m : M S' A) : keeps_this (S := S) (on this' m).
Proof. intros s w. unfold on. by destruct (m this' w) as [[| | | |] ? ? ?]. Qed.

End Frame.

Create HintDb frame discriminated.
#[global] Hint Resolve keeps_ret keeps_throw keeps_crash keeps_out_of_fuel
  keeps_get_this keeps_call keeps_deref keeps_wstring_of keeps_throw_if
  keeps_incr_long keeps_on : frame.

(** Walks through code written with [bind]. *)
Ltac frame :=
  repeat first
    [ progress auto with frame
    | apply keeps_bind; [| intros ?]
    | apply keeps_noexcept
    | apply keeps_scoped
    | match goal with
      | |- keeps_this (match ?x with _ => _ end) => destruct x
      end ].

Section Frame_facts.
Context `{P : Platform}.

Lemma keeps_SAHandle_dtor {S} psa : keeps_this (S := S) (SAHandle_dtor psa).
Proof. unfold SAHandle_dtor. frame. Qed.

Lemma keeps_EnumNames_loop {S} budget psaNames i lUpper acc :
  keeps_this (S := S) (EnumNames_loop budget psaNames i lUpper acc).
Proof.
  revert i acc. induction budget as [|budget IH]; intros i acc;
    cbn [EnumNames_loop]; frame.
Qed.

Lemma keeps_EnumNames {S} pClass : keeps_this (S := S) (EnumNames pClass).
Proof.
  unfold EnumNames, with_SAHandle. pose proof (@keeps_EnumNames_loop S).
  pose proof (@keeps_SAHandle_dtor S). frame.
Qed.

Lemma keeps_GetProperties : keeps_this GetProperties.
Proof.
  unfold GetProperties, with_SAHandle. pose proof (@keeps_EnumNames Object).
  pose proof (@keeps_SAHandle_dtor Object). frame.
Qed.

Lemma keeps_GetValue property : keeps_this (GetValue property).
Proof. unfold GetValue. frame. Qed.

Lemma keeps_GetIValue property : keeps_this (GetIValue property).
Proof. unfold GetIValue. frame. Qed.

Lemma keeps_GetMethods_loop {S} fuel cd acc :
  keeps_this (S := S) (GetMethods_loop fuel cd acc).
Proof.
  revert acc. pose proof (@keeps_EnumNames S).
  induction fuel as [|fuel IH]; intros acc; cbn [GetMethods_loop]; frame.
Qed.

Lemma keeps_GetMethods fuel : keeps_this (GetMethods fuel).
Proof.
  unfold GetMethods. pose proof keeps_GetValue.
  pose proof (@keeps_GetMethods_loop Object). frame.
Qed.

Lemma keeps_ExecMethod_put {S} pInst iparams :
  keeps_this (S := S) (ExecMethod_put pInst iparams).
Proof. induction iparams as [|p rest IH]; cbn [ExecMethod_put]; frame. Qed.

Lemma keeps_ExecMethod_drain {S} fuel o oparams :
  keeps_this (S := S) (ExecMethod_drain fuel o oparams).
Proof.
  revert oparams. induction fuel as [|fuel IH]; intros oparams;
    cbn [ExecMethod_drain]; frame.
Qed.

Lemma keeps_ExecMethod fuel lpMethodName iparams oparams :
  keeps_this (ExecMethod fuel lpMethodName iparams oparams).
Proof.
  unfold ExecMethod. pose proof keeps_GetValue.
  pose proof (@keeps_ExecMethod_put Object).
  pose proof (@keeps_ExecMethod_drain Object). frame.
Qed.

Lemma keeps_GetInstances_loop fuel pEnum acc :
  keeps_this (GetInstances_loop fuel pEnum acc).
Proof.
  revert acc. induction fuel as [|fuel IH]; intros acc;
    destruct pEnum; cbn [GetInstances_loop]; frame.
Qed.

Lemma keeps_GetInstances fuel lpClassName :
  keeps_this (GetInstances fuel lpClassName).
Proof. unfold GetInstances. pose proof keeps_GetInstances_loop. frame. Qed.

Lemma keeps_GetObject lpObjectName : keeps_this (GetObject lpObjectName).
Proof. unfold GetObject. frame. Qed.

Lemma keeps_GetClassNames_loop {S} fuel enumerator acc :
  keeps_this (S := S) (GetClassNames_loop fuel enumerator acc).
Proof.
  revert acc. induction fuel as [|fuel IH]; intros acc;
    destruct enumerator; cbn [GetClassNames_loop]; frame.
Qed.

Lemma keeps_GetClassNames fuel filter : keeps_this (GetClassNames fuel filter).
Proof. unfold GetClassNames. pose proof (@keeps_GetClassNames_loop Services). frame. Qed.

End Frame_facts.

(** ** Properties of every run *)

Section Ensures.
Context `{P : Platform}.

Context {S : Type} (Q : judgement) `{!Sequential Q}.

Lemma ensures_ret {A} (a : A) : ensures (S := S) Q (ret a).
Proof. intros s w. apply seq_done. Qed.
Lemma ensures_throw {A} e : ensures (S := S) (A := A) Q (throw e).
Proof. intros s w. apply seq_raised. Qed.
Lemma ensures_crash {A} f : Q A (Crashed f) [] → ensures (S := S) (A := A) Q (crash f).
Proof. by intros H s w. Qed.
Lemma ensures_get_this : ensures (S := S) Q get_this.
Proof. intros s w. apply seq_done. Qed.
Lemma ensures_throw_if cond e : ensures (S := S) Q (throw_if cond e).
Proof. intros s w. destruct cond; [apply seq_raised | apply seq_done]. Qed.
Lemma ensures_call line c :
  (∀ r, Q (Reply c) (Done r) [Ev line c r]) → ensures (S := S) Q (call line c).
Proof. intros H s w. rewrite run_call. apply H. Qed.
Lemma ensures_deref line p :
  Q handle (Crashed (NullDeref line)) [] → ensures (S := S) Q (deref line p).
Proof. intros H s w. destruct p; [apply seq_done | done]. Qed.
Lemma ensures_wstring_of line b :
  Q string (Crashed (NullString line)) [] → ensures (S := S) Q (wstring_of line b).
Proof. intros H s w. destruct b; [apply seq_done | done]. Qed.
Lemma ensures_incr_long line i :
  Q Z (Crashed (SignedOverflow line)) [] → ensures (S := S) Q (incr_long line i).
Proof. intros H s w. unfold incr_long. destruct (i =? LONG_MAX); [done | apply seq_done]. Qed.

Lemma ensures_bind {A B} (m : M S A) (k : A → M S B) :
  ensures Q m → (∀ a, ensures Q (k a)) → ensures Q (bind m k).
Proof.
  intros Hm Hk s w. unfold bind. specialize (Hm s w).
  destruct (m s w) as [o s1 w1 l1]. cbn in Hm.
  destruct o as [a| | | |].
  1: { rewrite out_prepend, log_prepend. eapply seq_app; [done|apply Hk]. }
  all: cbn [out log]; by apply (seq_cut _ B) in Hm.
Qed.

End Ensures.

(** Walks through code written with [bind]; [side] settles what is asked
    about a single call or a single fault. *)
Ltac walk side :=
  repeat first
    [ solve [auto 2]
    | apply ensures_ret; tc_solve
    | apply ensures_throw; tc_solve
    | apply ensures_get_this; tc_solve
    | apply ensures_throw_if; tc_solve
    | apply ensures_bind; [tc_solve | | intros ?]
    | apply ensures_call; intros ?; side
    | apply ensures_deref; [tc_solve | side]
    | apply ensures_wstring_of; [tc_solve | side]
    | apply ensures_incr_long; [tc_solve | side]
    | apply ensures_crash; side
    | match goal with
      | |- ensures _ (match ?x with _ => _ end) => destruct x
      end ].

(** *** Where code calls and where it can go wrong *)

Section Within.
Context `{P : Platform}.

#[global] Instance within_sequential lines faults : Sequential (within lines faults).
Proof.
  split.
  - by split.
  - by split.
  - intros A B a o l1 l2 [H1 _] [H2 Hf]. split; [by apply Forall_app|done].
  - intros A B o l Ho [H1 Hf]. split; [done|].
    intros f Hc. apply Hf. destruct o; cbn in *; by simplify_eq.
Qed.

End Within.

Ltac within_side :=
  unfold within; split;
  [ repeat constructor; by cbn
  | first [ done | by intros ? [= <-] ] ].

Section ExecMethod_safety.
Context `{P : Platform}.

Lemma GetValue_past property : ensures past_GetMethod (GetValue property).
Proof. unfold GetValue, past_GetMethod. walk within_side. Qed.

Lemma ExecMethod_put_past {S} pInst iparams :
  ensures (S := S) past_GetMethod (ExecMethod_put pInst iparams).
Proof.
  unfold past_GetMethod.
  induction iparams as [|p rest IH]; cbn [ExecMethod_put]; walk within_side.
Qed.

Lemma out_of_fuel_past {S A} : ensures (S := S) (A := A) past_GetMethod out_of_fuel.
Proof. intros s w. by split. Qed.

Lemma ExecMethod_drain_past {S} fuel o oparams :
  ensures (S := S) past_GetMethod (ExecMethod_drain fuel o oparams).
Proof.
  unfold past_GetMethod.
  revert oparams. induction fuel as [|fuel IH]; intros oparams;
    cbn [ExecMethod_drain]; [apply out_of_fuel_past|]. walk within_side.
Qed.

End ExecMethod_safety.

Section In_signature.
Context `{P : Platform}.

Lemma GetValue_run property this w :
  ∃ o w1 l, GetValue property this w = Res o this w1 l ∧
    Forall (λ e, ev_line e ≠ 348%nat) l ∧ o ≠ Crashed (NullDeref 352).
Proof.
  pose proof (GetValue_past property this w) as [Hl Hf].
  pose proof (keeps_GetValue property this w) as Hs.
  destruct (GetValue property this w) as [o s1 w1 l]. cbn in *. subst s1.
  exists o, w1, l. split; [done|]. split; [done|]. intros ->. by apply (Hf _ eq_refl).
Qed.

(** Before the call: nothing to show. *)
Lemma unchecked_before {A} lpMethodName (o : outcome A) l :
  Forall (λ e, ev_line e ≠ 348%nat) l → o ≠ Crashed (NullDeref 352) →
  in_signature_unchecked lpMethodName o l.
Proof.
  intros Hl Ho. split; [|done].
  intros e He Hline. by apply (proj1 (Forall_forall _ _) Hl) in He.
Qed.

(** The call sets no pointer. *)
Lemma unchecked_null {A} lpMethodName cd hr l1 :
  Forall (λ e, ev_line e ≠ 348%nat) l1 →
  in_signature_unchecked (A := A) lpMethodName (Crashed (NullDeref 352))
    (l1 ++ [Ev 348 (IWbemClassObject_GetMethod cd lpMethodName) (hr, None)]).
Proof.
  intros Hl. split.
  - intros e [He|He%list_elem_of_singleton]%elem_of_app Hline.
    { by apply (proj1 (Forall_forall _ _) Hl) in He. }
    subst e. split; [by exists cd|]. split; [|done].
    intros _. split; [done|]. by rewrite last_snoc.
  - intros _. eexists. rewrite last_snoc. by repeat split.
Qed.

(** The call sets a pointer. *)
Lemma unchecked_set {A} lpMethodName cd hr inc a (o : outcome A) l1 l2 :
  Forall (λ e, ev_line e ≠ 348%nat) l1 →
  Forall (λ e, ev_line e ≠ 348%nat) l2 →
  o ≠ Crashed (NullDeref 352) →
  in_signature_unchecked lpMethodName o
    (l1 ++ [Ev 348 (IWbemClassObject_GetMethod cd lpMethodName) (hr, Some inc);
            Ev 352 (IWbemClassObject_SpawnInstance inc) a] ++ l2).
Proof.
  intros Hl1 Hl2 Ho. split; [|done].
  intros e He Hline.
  apply elem_of_app in He as [He|He].
  { by apply (proj1 (Forall_forall _ _) Hl1) in He. }
  apply elem_of_cons in He as [->|He].
  2: { apply elem_of_cons in He as [He|He]. { subst e. cbn in Hline. discriminate Hline. } 
       by apply (proj1 (Forall_forall _ _) Hl2) in He. }
  split; [by exists cd|]. split; [done|].
  intros inc' [= <-]. split; [done|].
  exists (Ev 352 (IWbemClassObject_SpawnInstance inc) a). split; [|by split].
  apply elem_of_app. right. apply elem_of_cons. right. apply elem_of_cons. by left.
Qed.

End In_signature.

(** C10.  [ExecMethod] takes the in-signature pointer from [GetMethod]
    and calls [SpawnInstance] through it, whatever HRESULT [GetMethod]
    answered: with no pointer set, the run ends right after [GetMethod] in
    the null dereference of line 352; with a pointer set, it goes on to
    [SpawnInstance] on that pointer and does not end in that dereference;
    and the dereference happens only after a [GetMethod] that set no
    pointer. *)
Theorem ExecMethod_in_signature_unchecked `{P : Platform}
    fuel this lpMethodName iparams oparams w :
  let r := ExecMethod fuel lpMethodName iparams oparams this w in
  in_signature_unchecked lpMethodName (out r) (log r).
Proof.
  cbn zeta. unfold ExecMethod. autorewrite with run.
  destruct (m_pServices this) as [svc|] eqn:Hsvc; cbn [is_null];
    [|by apply unchecked_before].
  destruct (m_pObj this) as [obj|] eqn:Hobj; cbn [is_null];
    [|by apply unchecked_before].
  destruct (GetValue_run "__CLASS" this w) as (o1 & w1 & l1 & E1 & Hl1 & Ho1).
  destruct o1 as [className| | | |].
  2-5: rewrite (bind_abnormal _ _ _ _ _ _ _ _ E1 eq_refl); cbn [out log abnormal];
    (apply unchecked_before; [done|]); try done; by intros [= ->].
  rewrite (bind_Done _ _ _ _ _ _ _ _ E1). autorewrite with run. rewrite Hsvc.
  autorewrite with run.
  destruct (respond (IWbemServices_GetObject svc className) w1) as [[hr pcd] w2].
  cbn [fst snd]. autorewrite with run.
  destruct (negb (hr =? S_OK)); cbn [out log].
  { apply unchecked_before; [|done]. apply Forall_app. split; [done|]. by repeat constructor. }
  autorewrite with run. destruct pcd as [cd|]; cbn [out log].
  2: { apply unchecked_before; [|done]. apply Forall_app. split; [done|]. by repeat constructor. }
  autorewrite with run.
  destruct (respond (IWbemClassObject_GetMethod cd lpMethodName) w2) as [[hr2 pIn] w3].
  cbn [fst snd]. autorewrite with run. destruct pIn as [inc|]; cbn [out log].
  2: { rewrite app_nil_r.
       change [?a; ?b] with ([a] ++ [b]). rewrite app_assoc.
       apply unchecked_null. apply Forall_app. split; [done|]. by repeat constructor. }
  autorewrite with run.
  destruct (respond (IWbemClassObject_SpawnInstance inc) w3) as [[hr3 pInst] w4].
  cbn [fst snd].
  match goal with |- context [bind ?m ?k this w4] => set (rest := bind m k) end.
  assert (ensures past_GetMethod rest) as Hrest.
  { subst rest.
    pose proof (@ExecMethod_put_past _ Object) as H1.
    pose proof GetValue_past as H2.
    pose proof (@ExecMethod_drain_past _ Object) as H3.
    unfold past_GetMethod in *. walk within_side. }
  destruct (Hrest this w4) as [Hl Hf].
  rewrite !app_assoc, <- (app_assoc l1).
  change [?a; ?b] with ([a] ++ [b]). rewrite (app_assoc l1), <- !app_assoc.
  replace (l1 ++ [Ev 344 _ _] ++ [Ev 348 _ _] ++ [Ev 352 _ _] ++ log (rest this w4))
    with ((l1 ++ [Ev 344 (IWbemServices_GetObject svc className) (hr, Some cd)]) ++
          [Ev 348 (IWbemClassObject_GetMethod cd lpMethodName) (hr2, Some inc);
           Ev 352 (IWbemClassObject_SpawnInstance inc) (hr3, pInst)] ++
          log (rest this w4)) by (by rewrite <- !app_assoc).
  apply unchecked_set; [|done|].
  - apply Forall_app. split; [done|]. by repeat constructor.
  - intros Hc. by apply Hf in Hc.
Qed.

Lemma ExecMethod_in_signature_unchecked_witness :
  out (ExecMethod (P := Scripted.platform) 5 "Reboot" [] ∅ Demo.disk
         Demo.no_in_signature_script)
  = Crashed (NullDeref 352).
Proof.
  refine (proj1 (proj1 (proj2 (proj1
    (ExecMethod_in_signature_unchecked (P := Scripted.platform)
       5 Demo.disk "Reboot" [] ∅ Demo.no_in_signature_script)
    (Ev 348 (IWbemClassObject_GetMethod 11%nat "Reboot") (S_OK, None)) _ _)) _)).
  - apply list_elem_of_lookup. by exists 2%nat.
  - reflexivity.
  - reflexivity.
Defined.

Ltac list_norm := repeat (progress (rewrite <- ?app_assoc; cbn [app])).

Section ExecMethod_facts.
Context `{P : Platform}.

Lemma ExecMethod_put_Done {S} pInst iparams (s : S) w u s' w' l :
  ExecMethod_put pInst iparams s w = Res (Done u) s' w' l →
  s' = s ∧ Forall2 (put_event pInst) l iparams.
Proof.
  revert w l. induction iparams as [|p rest IH]; intros w l; cbn [ExecMethod_put].
  - autorewrite with run. intros [= <- <- <- <-]. split; [done|constructor].
  - autorewrite with run. destruct pInst as [inst|]; [|discriminate].
    autorewrite with run.
    destruct (respond (IWbemClassObject_Put inst _ _ _) w) as [hr w1]. cbn [fst snd].
    destruct (ExecMethod_put (Some inst) rest s w1) as [o s2 w2 l2] eqn:E. cbn [prepend].
    intros [= -> -> -> <-]. apply IH in E as [-> HF]. split; [done|].
    constructor; [|done]. split; [done|]. by exists inst.
Qed.

Lemma ExecMethod_drain_Done {S} fuel o oparams (s : S) w oparams' s' w' l :
  ExecMethod_drain fuel o oparams s w = Res (Done oparams') s' w' l →
  s' = s ∧ ∃ items hr_last val_last,
    l = drain_events o items ++ [Ev 397 (IWbemClassObject_Next o) (hr_last, None, val_last)] ∧
    oparams' = store items oparams.
Proof.
  revert oparams w l. induction fuel as [|fuel IH]; intros oparams w l;
    cbn [ExecMethod_drain]; [discriminate|].
  autorewrite with run.
  destruct (respond (IWbemClassObject_Next o) w) as [[[hr name] val] w1]. cbn [fst snd].
  destruct name as [name|].
  - destruct (String.eqb name "ReturnValue") eqn:Ename.
    + destruct (ExecMethod_drain fuel o oparams s w1) as [o2 s2 w2 l2] eqn:E.
      cbn [prepend]. intros [= -> -> -> <-].
      apply IH in E as (-> & items & hr_last & val_last & -> & ->).
      split; [done|]. exists ((hr, name, val) :: items), hr_last, val_last.
      split; [done|]. unfold store. cbn [foldl fst snd]. by rewrite Ename.
    + destruct (ExecMethod_drain fuel o _ s w1) as [o2 s2 w2 l2] eqn:E.
      cbn [prepend]. intros [= -> -> -> <-].
      apply IH in E as (-> & items & hr_last & val_last & -> & ->).
      split; [done|]. exists ((hr, name, val) :: items), hr_last, val_last.
      split; [done|]. unfold store. cbn [foldl fst snd]. by rewrite Ename.
  - autorewrite with run. cbn [prepend]. intros [= <- <- <- <-].
    split; [done|]. by exists [], hr, val.
Qed.

Lemma GetValue_Done property this w x s' w' l :
  GetValue property this w = Res (Done x) s' w' l → s' = this.
Proof. intros H. pose proof (keeps_GetValue property this w) as Hk. by rewrite H in Hk. Qed.

Lemma ExecMethod_Done fuel this lpMethodName iparams oparams w ret_ oparams' s' w' l :
  ExecMethod fuel lpMethodName iparams oparams this w
    = Res (Done (ret_, oparams')) s' w' l →
  ∃ pOut l_call l_out,
    l = l_call ++ l_out ∧
    invocation this w lpMethodName iparams pOut l_call ∧
    match pOut with
    | None => l_out = [] ∧ ret_ = VariantEmpty ∧ oparams' = oparams
    | Some o => ∃ items, drained_into o ret_ items l_out ∧
                         oparams' = store items oparams
    end.
Proof.
  unfold ExecMethod. autorewrite with run.
  destruct (m_pServices this) as [svc|] eqn:Hsvc; cbn [is_null]; [|discriminate].
  destruct (m_pObj this) as [obj|] eqn:Hobj; cbn [is_null]; [|discriminate].
  intros (className & s1 & w1 & l_class & l2 & Hclass & H & ->)%bind_Done_inv.
  pose proof (GetValue_Done _ _ _ _ _ _ _ Hclass) as ->.
  revert H. autorewrite with run. rewrite Hsvc. autorewrite with run.
  destruct (respond (IWbemServices_GetObject svc className) w1) as [[hr pcd] w2].
  cbn [fst snd]. autorewrite with run.
  destruct (Z.eqb_spec hr S_OK) as [->|]; cbn [negb prepend]; [|discriminate].
  autorewrite with run. destruct pcd as [cd|]; cbn [prepend]; [|discriminate].
  autorewrite with run.
  destruct (respond (IWbemClassObject_GetMethod cd lpMethodName) w2) as [[hr_m pIn] w3].
  cbn [fst snd]. autorewrite with run. destruct pIn as [inc|]; cbn [prepend]; [|discriminate].
  autorewrite with run.
  destruct (respond (IWbemClassObject_SpawnInstance inc) w3) as [[hr_s pInst] w4].
  cbn [fst snd].
  match goal with |- context [bind ?m ?k this w4] =>
    destruct (bind m k this w4) as [o5 s5 w5 l5] eqn:Hrest end.
  cbn [prepend]. intros [= -> -> -> <-].
  apply bind_Done_inv in Hrest as (u & s6 & w6 & l_puts & l7 & Hput & H & ->).
  apply ExecMethod_put_Done in Hput as [-> Hputs].
  apply bind_Done_inv in H as (relPath & s8 & w8 & l_rel & l9 & Hrel & H & ->).
  pose proof (GetValue_Done _ _ _ _ _ _ _ Hrel) as ->.
  revert H. autorewrite with run. rewrite Hsvc. autorewrite with run.
  destruct (respond (IWbemServices_ExecMethod svc relPath lpMethodName 0 pInst) w8)
    as [[hr_e pOut] w9].
  cbn [fst snd]. intros H.
  exists pOut.
  exists (l_class ++
        [Ev 344 (IWbemServices_GetObject svc className) (S_OK, Some cd);
         Ev 348 (IWbemClassObject_GetMethod cd lpMethodName) (hr_m, Some inc);
         Ev 352 (IWbemClassObject_SpawnInstance inc) (hr_s, pInst)]
        ++ l_puts ++ l_rel ++
        [Ev 373 (IWbemServices_ExecMethod svc relPath lpMethodName 0 pInst) (hr_e, pOut)]).
  destruct pOut as [o|].
  - revert H. autorewrite with run.
    destruct (respond (IWbemClassObject_Get o "ReturnValue") w9) as [[hr_g rv] w10].
    cbn [fst snd]. autorewrite with run.
    destruct (respond (IWbemClassObject_BeginEnumeration o _) w10) as [hr_b w11].
    cbn [fst snd].
    destruct (bind (ExecMethod_drain fuel o oparams) _ this w11) as [o12 s12 w12 l12] eqn:Hd.
    cbn [prepend]. intros [= -> -> -> <-].
    apply bind_Done_inv in Hd as (op & s13 & w13 & l_drain & l14 & Hdrain & H & ->).
    apply ExecMethod_drain_Done in Hdrain as (-> & items & hr_last & val_last & -> & ->).
    revert H. autorewrite with run.
    destruct (respond (IWbemClassObject_EndEnumeration o) w13) as [hr_end w15].
    cbn [fst snd prepend]. intros [=]. subst.
    exists (Ev 387 (IWbemClassObject_Get o "ReturnValue") (hr_g, ret_)
            :: Ev 390 (IWbemClassObject_BeginEnumeration o 0x40) hr_b
            :: drain_events o items ++
               [Ev 397 (IWbemClassObject_Next o) (hr_last, None, val_last);
                Ev 405 (IWbemClassObject_EndEnumeration o) hr_end]).
    split; [|split].
    2: { exists obj, svc, className, relPath, cd, inc, pInst, hr_m, hr_s, hr_e,
           w1, w6, w8, l_class, l_puts, l_rel. by repeat split. }
    + by list_norm.
    + exists items. split; [|done].
      exists hr_g, hr_b, hr_last, val_last, hr_end.
      by list_norm.
  - revert H. autorewrite with run. cbn [prepend]. intros [= <- <- <- <- <-].
    exists []. split; [|split].
    2: { exists obj, svc, className, relPath, cd, inc, pInst, hr_m, hr_s, hr_e,
           w1, w6, w8, l_class, l_puts, l_rel. by repeat split. }
    + rewrite app_nil_r. by list_norm.
    + done.
Qed.

End ExecMethod_facts.

(** ** Loop budgets *)

Section Starved.
Context `{P : Platform}.

Lemma calls_at_app line l1 l2 :
  calls_at line (l1 ++ l2) = (calls_at line l1 + calls_at line l2)%nat.
Proof. unfold calls_at. by rewrite filter_app, length_app. Qed.

Lemma calls_at_cons line c r l :
  calls_at line (Ev line c r :: l) = Datatypes.S (calls_at line l).
Proof. unfold calls_at. rewrite filter_cons. by case_decide. Qed.

#[global] Instance starved_sequential line n : Sequential (starved line n).
Proof.
  split.
  - by intros A a.
  - by intros A e.
  - intros A B a o l1 l2 _ H2 Ho. rewrite calls_at_app. specialize (H2 Ho). lia.
  - intros A B o l Ho H Hc. apply H. by destruct o.
Qed.

Lemma ExecMethod_drain_starved {S} fuel o oparams :
  ensures (S := S) (starved 397 fuel) (ExecMethod_drain fuel o oparams).
Proof.
  revert oparams. induction fuel as [|fuel IH]; intros oparams s w;
    cbn [ExecMethod_drain].
  { intros _. lia. }
  autorewrite with run.
  destruct (respond (IWbemClassObject_Next o) w) as [[[hr name] val] w1]. cbn [fst snd].
  destruct name as [name|]; [|by autorewrite with run].
  destruct (String.eqb name "ReturnValue"); intros Ho%IH;
    cbn [app]; rewrite calls_at_cons; lia.
Qed.

Lemma ExecMethod_starved fuel lpMethodName iparams oparams :
  ensures (starved 397 fuel) (ExecMethod fuel lpMethodName iparams oparams).
Proof.
  unfold ExecMethod.
  assert (∀ property, ensures (starved 397 fuel) (GetValue property)) as HG.
  { intros property. unfold GetValue. walk ltac:(done). }
  assert (∀ pInst, ensures (S := Object) (starved 397 fuel) (ExecMethod_put pInst iparams)) as HP.
  { intros pInst. induction iparams as [|p rest IH]; cbn [ExecMethod_put]; walk ltac:(done). }
  pose proof (@ExecMethod_drain_starved Object fuel) as HD.
  walk ltac:(done).
Qed.

End Starved.

Section Store.

Lemma store_snoc items it (m : gmap string VARIANT) :
  store (items ++ [it]) m =
  if String.eqb it.1.2 "ReturnValue" then store items m
  else <[it.1.2 := it.2]> (store items m).
Proof. unfold store. by rewrite foldl_app. Qed.

Lemma last_value_snoc items it key :
  last_value (items ++ [it]) key =
  if String.eqb it.1.2 key then Some it.2 else last_value items key.
Proof. unfold last_value. by rewrite foldl_app. Qed.

(** What the map holds after the loop: nothing new under ["ReturnValue"],
    and under any other key the value named last, if any. *)
Lemma lookup_store items (m : gmap string VARIANT) key :
  store items m !! key =
  if String.eqb key "ReturnValue" then m !! key
  else match last_value items key with
       | Some v => Some v
       | None => m !! key
       end.
Proof.
  induction items as [|it items IH] using rev_ind.
  { cbn. by destruct (String.eqb key "ReturnValue"). }
  rewrite store_snoc, last_value_snoc.
  destruct (String.eqb_spec it.1.2 "ReturnValue") as [Hrv|Hrv].
  - rewrite IH. destruct (String.eqb_spec key "ReturnValue") as [Hk|Hn]; [done|].
    destruct (String.eqb_spec it.1.2 key); [congruence|done].
  - destruct (String.eqb_spec it.1.2 key) as [<-|Hne].
    + rewrite lookup_insert_eq. by rewrite (proj2 (String.eqb_neq _ _) Hrv).
    + by rewrite lookup_insert_ne.
Qed.

Lemma last_value_None items key :
  key ∉ map (λ it, it.1.2) items → last_value items key = None.
Proof.
  induction items as [|it items IH] using rev_ind; [done|].
  rewrite map_app, last_value_snoc. cbn. intros Hn.
  destruct (String.eqb_spec it.1.2 key) as [<-|Hne].
  - exfalso. apply Hn. apply elem_of_app. right. by apply list_elem_of_singleton.
  - apply IH. intros Hin. apply Hn. apply elem_of_app. by left.
Qed.

Lemma last_value_Some items hr key val :
  (hr, key, val) ∈ items → is_Some (last_value items key).
Proof.
  induction items as [|it items IH] using rev_ind; [by intros ?%elem_of_nil|].
  rewrite last_value_snoc. intros [Hin|Hin%list_elem_of_singleton]%elem_of_app.
  - destruct (String.eqb it.1.2 key); [done|by apply IH].
  - subst it. cbn. by rewrite String.eqb_refl.
Qed.

Lemma last_value_NoDup items hr key val :
  NoDup (map (λ it, it.1.2) items) → (hr, key, val) ∈ items →
  last_value items key = Some val.
Proof.
  induction items as [|it items IH] using rev_ind; [by intros _ ?%elem_of_nil|].
  rewrite map_app, last_value_snoc. cbn.
  intros (Hnd & Hdisj & _)%NoDup_app [Hin|Hin%list_elem_of_singleton]%elem_of_app.
  - destruct (String.eqb_spec it.1.2 key) as [Heq|Hne]; [|by apply IH].
    exfalso. apply (Hdisj key).
    + apply list_elem_of_fmap. by exists (hr, key, val).
    + rewrite <- Heq. by apply list_elem_of_singleton.
  - subst it. cbn. by rewrite String.eqb_refl.
Qed.

End Store.

Lemma omap_cons_eq {A B} (f : A → option B) x l :
  omap f (x :: l) =
  match f x with Some y => y :: omap f l | None => omap f l end.
Proof. reflexivity. Qed.

Section GetClassNames_facts.
Context `{P : Platform}.

Lemma GetClassNames_loop_Done {S} fuel enumerator acc (s : S) w names s' w' l :
  GetClassNames_loop fuel enumerator acc s w = Res (Done names) s' w' l →
  s' = s ∧ ∃ found, classes_enumerated enumerator found l ∧ names = found ∪ acc.
Proof.
  assert (∀ fuel' acc' w0 l0,
    GetClassNames_loop fuel' None acc' s w0 = Res (Done names) s' w' l0 →
    s' = s ∧ ∃ found, classes_enumerated None found l0 ∧ names = found ∪ acc') as Hnull.
  { intros fuel' acc' w0 l0. destruct fuel'; cbn [GetClassNames_loop];
      autorewrite with run; intros [= <- <- <- <-]; (split; [done|]);
      exists ∅; (split; [done | by rewrite (left_id_L ∅ (∪))]). }
  destruct enumerator as [enum|]; [|apply Hnull]. clear Hnull.
  revert acc w l. induction fuel as [|fuel IH]; intros acc w l;
    cbn [GetClassNames_loop]; [discriminate|].
  autorewrite with run.
  destruct (respond (IEnumWbemClassObject_Next enum WBEM_INFINITE 1) w)
    as [[[hres pClass] uReturn] w1]. cbn [fst snd].
  destruct (Z.eqb_spec uReturn 0) as [->|Hret].
  { autorewrite with run. cbn [prepend]. intros [= <- <- <- <-]. split; [done|].
    exists ∅. split; [|by rewrite (left_id_L ∅ (∪))]. by exists [], hres, pClass. }
  autorewrite with run. destruct pClass as [cls|]; cbn [prepend]; [|discriminate].
  autorewrite with run.
  destruct (respond (IWbemClassObject_Get cls "__CLASS") w1) as [[hres2 vtClassName] w2].
  cbn [fst snd].
  destruct (SUCCEEDED hres2) eqn:Hs.
  - autorewrite with run. destruct (bstrVal vtClassName) as [x|] eqn:Hx;
      cbn [prepend]; [|discriminate].
    destruct (GetClassNames_loop fuel (Some enum) _ s w2) as [o s3 w3 l3] eqn:E.
    cbn [prepend]. intros [= -> -> -> <-].
    apply IH in E as (-> & found & (items & hr_last & p_last & -> & ->) & ->).
    split; [done|]. exists ({[x]} ∪ list_to_set (omap class_value items)).
    split; [|rewrite (assoc_L (∪)); f_equal; apply (comm_L (∪))].
    exists (mkClassItem hres cls uReturn hres2 vtClassName :: items), hr_last, p_last.
    split; [done|].
    assert (class_value (mkClassItem hres cls uReturn hres2 vtClassName) = Some x) as Hv
      by (unfold class_value; cbn [ci_hres_get ci_vtClassName]; by rewrite Hs, Hx).
    by rewrite omap_cons_eq, Hv.
  - destruct (GetClassNames_loop fuel (Some enum) _ s w2) as [o s3 w3 l3] eqn:E.
    cbn [prepend]. intros [= -> -> -> <-].
    apply IH in E as (-> & found & (items & hr_last & p_last & -> & ->) & ->).
    split; [done|]. exists (list_to_set (omap class_value items)).
    split; [|done].
    exists (mkClassItem hres cls uReturn hres2 vtClassName :: items), hr_last, p_last.
    split; [done|].
    assert (class_value (mkClassItem hres cls uReturn hres2 vtClassName) = None) as Hv
      by (unfold class_value; cbn [ci_hres_get ci_vtClassName]; by rewrite Hs).
    by rewrite omap_cons_eq, Hv.
Qed.

Lemma GetClassNames_loop_starved {S} fuel enumerator acc :
  ensures (S := S) (starved 551 fuel) (GetClassNames_loop fuel enumerator acc).
Proof.
  revert acc. induction fuel as [|fuel IH]; intros acc s w;
    destruct enumerator as [enum|]; cbn [GetClassNames_loop]; try done.
  { intros _. lia. }
  autorewrite with run.
  destruct (respond (IEnumWbemClassObject_Next enum WBEM_INFINITE 1) w)
    as [[[hres pClass] uReturn] w1]. cbn [fst snd].
  destruct (uReturn =? 0); [by autorewrite with run|].
  autorewrite with run. destruct pClass as [cls|]; [|done].
  autorewrite with run.
  destruct (respond (IWbemClassObject_Get cls "__CLASS") w1) as [[hres2 vtClassName] w2].
  cbn [fst snd].
  destruct (SUCCEEDED hres2).
  - autorewrite with run. destruct (bstrVal vtClassName) as [x|]; [|done].
    intros Ho%IH. cbn [app]. rewrite calls_at_cons.
    change (?x :: ?l) with ([x] ++ l). rewrite calls_at_app. lia.
  - intros Ho%IH. cbn [app]. rewrite calls_at_cons.
    change (?x :: ?l) with ([x] ++ l). rewrite calls_at_app. lia.
Qed.

End GetClassNames_facts.

(** ** Stopping at a failed call *)

Section Fail_fast.
Context `{P : Platform}.

Lemma fail_fast_quiet {A B} watched allowed (a : A) (o : outcome B) l1 l2 :
  fail_fast watched allowed (Done a) l1 → fail_fast watched allowed o l2 →
  fail_fast watched allowed o (l1 ++ l2).
Proof.
  induction l1 as [|e l1 IH]; [done|]. cbn [fail_fast app].
  intros [He H1] H2. split; [|by apply IH].
  intros Hw Hhr. destruct (He Hw Hhr) as [_ [[line Hc]|[Hc _]]]; discriminate.
Qed.

Lemma fail_fast_abnormal {A B} watched allowed (o : outcome A) l :
  is_Done o = false → fail_fast watched allowed o l →
  fail_fast (A := B) watched allowed (abnormal o) l.
Proof.
  intros Ho. induction l as [|e l IH]; [done|]. cbn [fail_fast].
  intros [He H]. split; [|by apply IH].
  intros Hw Hhr. destruct (He Hw Hhr) as [Hall [[line ->]|[-> Hex]]].
  - split; [done|]. left. by exists line.
  - split; [done|]. by right.
Qed.

#[global] Instance stops_at_checked_sequential : Sequential stops_at_checked.
Proof.
  split.
  - by intros A a.
  - by intros A e.
  - intros A B a o l1 l2. apply fail_fast_quiet.
  - intros A B o l. apply fail_fast_abnormal.
Qed.

(** A call and what the code does with its answer. *)
Lemma ensures_checked_call {S B} line c (k : Reply c → M S B) :
  (∀ r, (checked (Ev line c r) && negb (hr_of c r =? S_OK) = false →
           ensures stops_at_checked (k r)) ∧
        (checked (Ev line c r) && negb (hr_of c r =? S_OK) = true →
           ∃ ln, ∀ s w, k r s w =
              Res (Raised (mkExn ln (expected_code (Ev line c r)))) s w [])) →
  ensures stops_at_checked (bind (call line c) k).
Proof.
  intros H s w. rewrite bind_call, out_prepend, log_prepend.
  destruct (respond c w) as [r w1]. cbn [fst snd app].
  destruct (H r) as [Hq Hf].
  destruct (checked (Ev line c r) && negb (hr_of c r =? S_OK)) eqn:E.
  - destruct (Hf eq_refl) as [ln Hk]. rewrite Hk. cbn [out log].
    split; [|done]. intros _ _. split; [done|]. left. by exists ln.
  - split; [|by apply Hq].
    intros Hw Hhr. exfalso. rewrite Hw in E. cbn in E.
    apply negb_false_iff, Z.eqb_eq in E. by apply Hhr.
Qed.

Lemma ensures_out_of_fuel {S A} (Q : judgement) :
  Q A OutOfFuel [] → ensures (S := S) (A := A) Q out_of_fuel.
Proof. by intros H s w. Qed.

Lemma ensures_put_this {S} (Q : judgement) `{!Sequential Q} (s' : S) :
  ensures Q (put_this s').
Proof. intros s w. apply seq_done. Qed.

(** The array is destroyed on the way out. *)
Lemma fail_fast_destroy {A} (o : outcome A) l h hr :
  is_Done o || is_Raised o = true →
  fail_fast checked is_cleanup o l →
  fail_fast checked is_cleanup (if hr =? S_OK then o else Terminated)
    (l ++ [Ev 92 (SafeArrayDestroy h) hr]).
Proof.
  intros Ho. induction l as [|e l IH]; cbn [fail_fast app].
  - intros _. split; [|done]. intros Hc. done.
  - intros [He H]. split; [|by apply IH].
    intros Hw Hhr. destruct (He Hw Hhr) as [Hall Hcar].
    split; [by rewrite forallb_app, Hall|].
    destruct Hcar as [[line Hc]|[Hc Hex]]; [|by rewrite Hc in Ho].
    destruct (Z.eqb_spec hr S_OK) as [->|Hd].
    + left. by exists line.
    + right. split; [done|]. exists (Ev 92 (SafeArrayDestroy h) hr).
      split; [|exact Hd]. apply elem_of_app. right. by apply list_elem_of_singleton.
Qed.

Lemma ensures_with_SAHandle {S A} psa (body : M S A) :
  ensures stops_at_checked body → ensures stops_at_checked (with_SAHandle psa body).
Proof.
  intros Hb s w. rewrite run_with_SAHandle. specialize (Hb s w).
  destruct (body s w) as [o s1 w1 l1]. cbn [out log] in Hb.
  destruct o, psa as [h|]; cbn [out log]; try done.
  all: by apply fail_fast_destroy.
Qed.

End Fail_fast.

(** The answer of a watched call was a failure: the code throws at once. *)
Ltac split_reply r :=
  try (destruct r as [r ?]; try (destruct r as [r ?]; try (destruct r as [r ?]))).

Ltac ff_raise r Hq :=
  let Hc := fresh "Hc" in
  let Hhr := fresh "Hhr" in
  apply andb_true_iff in Hq as [Hc Hhr];
  first
    [ by vm_compute in Hc
    | eexists; intros ? ?; split_reply r;
      cbn [hr_of fst snd] in Hhr; cbn beta iota;
      autorewrite with run; rewrite Hhr; reflexivity ].

Ltac ff_side := first [ done | by (split; [by vm_compute|]) ].

Ltac ff_walk :=
  repeat first
    [ solve [auto 2]
    | apply ensures_ret; tc_solve
    | apply ensures_throw; tc_solve
    | apply ensures_get_this; tc_solve
    | apply ensures_put_this; tc_solve
    | apply ensures_throw_if; tc_solve
    | apply ensures_out_of_fuel; done
    | apply ensures_with_SAHandle
    | match goal with
      | |- ensures stops_at_checked (bind (call ?L ?c) ?k) =>
          apply ensures_checked_call;
          let r := fresh "r" in
          let Hq := fresh "Hq" in
          intros r; split; [intros _; cbn beta | intros Hq; ff_raise r Hq]
      end
    | apply ensures_bind; [tc_solve | | intros ?]
    | apply ensures_call; intros ?; ff_side
    | apply ensures_deref; [tc_solve | done]
    | apply ensures_wstring_of; [tc_solve | done]
    | apply ensures_incr_long; [tc_solve | done]
    | apply ensures_crash; done
    | match goal with
      | |- ensures _ (match ?x with _ => _ end) => destruct x
      end ].

Section Fail_fast_facts.
Context `{P : Platform}.

Lemma GetValue_stops property : ensures stops_at_checked (GetValue property).
Proof. unfold GetValue. ff_walk. Qed.

Lemma GetIValue_stops property : ensures stops_at_checked (GetIValue property).
Proof. unfold GetIValue. ff_walk. Qed.

Lemma EnumNames_loop_stops {S} budget psaNames i lUpper acc :
  ensures (S := S) stops_at_checked (EnumNames_loop budget psaNames i lUpper acc).
Proof.
  revert i acc. induction budget as [|budget IH]; intros i acc;
    cbn [EnumNames_loop]; ff_walk.
Qed.

Lemma EnumNames_stops {S} pClass : ensures (S := S) stops_at_checked (EnumNames pClass).
Proof. unfold EnumNames. pose proof (@EnumNames_loop_stops S). ff_walk. Qed.

Lemma GetProperties_stops : ensures stops_at_checked GetProperties.
Proof. unfold GetProperties. pose proof (@EnumNames_stops Object). ff_walk. Qed.

Lemma GetMethods_loop_stops {S} fuel cd acc :
  ensures (S := S) stops_at_checked (GetMethods_loop fuel cd acc).
Proof.
  pose proof (@EnumNames_stops S).
  revert acc. induction fuel as [|fuel IH]; intros acc;
    cbn [GetMethods_loop]; ff_walk.
Qed.

Lemma GetMethods_stops fuel : ensures stops_at_checked (GetMethods fuel).
Proof.
  unfold GetMethods. pose proof GetValue_stops.
  pose proof (@GetMethods_loop_stops Object). ff_walk.
Qed.

Lemma ExecMethod_put_stops {S} pInst iparams :
  ensures (S := S) stops_at_checked (ExecMethod_put pInst iparams).
Proof. induction iparams as [|p rest IH]; cbn [ExecMethod_put]; ff_walk. Qed.

Lemma ExecMethod_drain_stops {S} fuel o oparams :
  ensures (S := S) stops_at_checked (ExecMethod_drain fuel o oparams).
Proof.
  revert oparams. induction fuel as [|fuel IH]; intros oparams;
    cbn [ExecMethod_drain]; ff_walk.
Qed.

Lemma ExecMethod_stops fuel lpMethodName iparams oparams :
  ensures stops_at_checked (ExecMethod fuel lpMethodName iparams oparams).
Proof.
  unfold ExecMethod. pose proof GetValue_stops.
  pose proof (@ExecMethod_put_stops Object).
  pose proof (@ExecMethod_drain_stops Object). ff_walk.
Qed.

Lemma GetObject_stops lpObjectName : ensures stops_at_checked (GetObject lpObjectName).
Proof. unfold GetObject. ff_walk. Qed.

Lemma GetClassNames_loop_stops {S} fuel enumerator acc :
  ensures (S := S) stops_at_checked (GetClassNames_loop fuel enumerator acc).
Proof.
  revert acc. induction fuel as [|fuel IH]; intros acc;
    destruct enumerator; cbn [GetClassNames_loop]; ff_walk.
Qed.

Lemma GetClassNames_stops fuel filter :
  ensures stops_at_checked (GetClassNames fuel filter).
Proof.
  unfold GetClassNames. pose proof (@GetClassNames_loop_stops Services). ff_walk.
Qed.

Lemma ComInit_ctor_stops : ensures stops_at_checked ComInit_ctor.
Proof. unfold ComInit_ctor. ff_walk. Qed.

End Fail_fast_facts.

Section Fail_fast_more.
Context `{P : Platform}.

Lemma checked_478 enum t n hr p returned :
  checked (Ev 478 (IEnumWbemClassObject_Next enum t n) (hr, p, returned))
  = negb (returned =? 0).
Proof. reflexivity. Qed.

Lemma GetInstances_loop_stops fuel pEnum acc :
  ensures stops_at_checked (GetInstances_loop fuel pEnum acc).
Proof.
  revert acc. induction fuel as [|fuel IH]; intros acc;
    destruct pEnum as [enum|]; cbn [GetInstances_loop]; try by ff_walk.
  apply ensures_checked_call. intros [[hr p] returned]. rewrite checked_478.
  cbn [hr_of fst snd]. split.
  - intros _. ff_walk.
  - intros [Hret Hhr]%andb_true_iff. exists 481%nat. intros s w.
    rewrite (negb_true_iff _) in Hret. rewrite Hret.
    autorewrite with run. by rewrite Hhr.
Qed.

Lemma GetInstances_stops fuel lpClassName :
  ensures stops_at_checked (GetInstances fuel lpClassName).
Proof. unfold GetInstances. pose proof GetInstances_loop_stops. ff_walk. Qed.

Lemma ComInit_dtor_stops : ensures stops_at_checked ComInit_dtor.
Proof.
  intros s w. unfold ComInit_dtor, noexcept. autorewrite with run.
  destruct (ok s); [|done]. autorewrite with run.
  destruct (respond CoUninitialize w) as [r w1]. cbn. by split.
Qed.

Lemma fail_fast_summary {S A} (r : result World S A) :
  fail_fast checked is_cleanup (out r) (log r) →
  fail_fast checked is_cleanup (summary r).1 (summary r).2.
Proof.
  unfold summary. cbn [fst snd]. destruct (out r) as [a| | | |] eqn:Ho.
  2-5: intros H; by apply (fail_fast_abnormal (B := unit)) in H.
  intros H. induction (log r) as [|e l IH]; [done|].
  destruct H as [He H]. split; [|by apply IH].
  intros Hw Hhr. destruct (He Hw Hhr) as [_ [[line Hc]|[Hc _]]]; discriminate.
Qed.

End Fail_fast_more.

(** C1, as the code has it.  In every operation of the wrapper other than
    the constructor of [Services], when a call whose HRESULT the code
    passes to [throw_if] answers other than [S_OK], the operation makes no
    further call except to destroy the arrays it holds, and ends in an
    exception that carries the translation of that HRESULT ([ComInit]: the
    place of the throw only), or in [std::terminate] when destroying an
    array fails as well. *)
Theorem stops_at_checked_failures `{P : Platform} (op : operation) (w : World) :
  is_Services_ctor op = false →
  fail_fast checked is_cleanup (perform op w).1 (perform op w).2.
Proof.
  destruct op; cbn [is_Services_ctor perform]; intros Hop; try discriminate;
    apply fail_fast_summary.
  - apply ComInit_ctor_stops.
  - apply ComInit_dtor_stops.
  - apply (EnumNames_stops (S := unit)).
  - apply GetProperties_stops.
  - apply GetValue_stops.
  - apply GetIValue_stops.
  - apply GetMethods_stops.
  - apply ExecMethod_stops.
  - apply GetInstances_stops.
  - apply GetObject_stops.
  - apply GetClassNames_stops.
Qed.

(** ** The claims *)

Section Names.
Context `{P : Platform}.

Lemma GetProperties_Done this w names s' w' l :
  GetProperties this w = Res (Done names) s' w' l →
  s' = this ∧
  ∃ obj psa l_enum,
    m_pObj this = Some obj ∧
    l = Ev 214 (IWbemClassObject_GetNames obj 0x40) (S_OK, psa)
        :: l_enum ++ destroy_events psa S_OK ∧
    enumerated_in_index_order obj names l_enum.
Proof.
  unfold GetProperties. autorewrite with run.
  destruct (m_pObj this) as [obj|] eqn:Hobj; [|discriminate]. autorewrite with run.
  destruct (respond (IWbemClassObject_GetNames obj _) w) as [[hr psa] w1].
  cbn [fst snd]. autorewrite with run.
  destruct (Z.eqb_spec hr S_OK) as [->|]; cbn [negb prepend]; [|discriminate].
  destruct (with_SAHandle _ _ this w1) as [o s2 w2 l2] eqn:Hscope. cbn [prepend].
  intros [= -> -> -> <-].
  apply with_SAHandle_Done_inv in Hscope as (w3 & l3 & Hbody & ->).
  revert Hbody. autorewrite with run. rewrite Hobj.
  intros (-> & obj' & [= <-] & Henum)%EnumNames_Done.
  split; [done|]. by exists obj, psa, l3.
Qed.

Lemma GetProperties_budget this w : out (GetProperties this w) ≠ OutOfFuel.
Proof.
  unfold GetProperties. autorewrite with run.
  destruct (m_pObj this) as [obj|] eqn:Hobj; [|done]. autorewrite with run.
  destruct (respond (IWbemClassObject_GetNames obj _) w) as [[hr psa] w1].
  cbn [fst snd]. autorewrite with run.
  destruct (negb (hr =? S_OK)); [done|].
  autorewrite with run. rewrite run_with_SAHandle. autorewrite with run.
  pose proof (EnumNames_budget (m_pObj this) this w1) as Hb. revert Hb.
  destruct (EnumNames _ this w1) as [[| | | |] s2 w2 l2]; cbn; try done.
  all: destruct psa; cbn; try done; by destruct (_ =? S_OK).
Qed.

End Names.

(** C5.  [EnumNames] asks for the non-system names, reads the bounds of the
    SAFEARRAY it gets, reads the element at each index from the lower to the
    upper bound once and in that order, and returns the strings read, in
    that order: as many as upper bound minus lower bound plus one.
    [GetProperties] returns what [EnumNames] returns on the object's
    pointer.  Neither stops for lack of loop budget. *)
Theorem names_in_index_order `{P : Platform} :
  (∀ (S : Type) pClass (s : S) w names s' w' l,
     EnumNames pClass s w = Res (Done names) s' w' l →
     ∃ obj, pClass = Some obj ∧ enumerated_in_index_order obj names l) ∧
  (∀ this w names s' w' l,
     GetProperties this w = Res (Done names) s' w' l →
     ∃ obj psa l_enum,
       m_pObj this = Some obj ∧
       l = Ev 214 (IWbemClassObject_GetNames obj 0x40) (S_OK, psa)
           :: l_enum ++ destroy_events psa S_OK ∧
       enumerated_in_index_order obj names l_enum) ∧
  (∀ (S : Type) pClass (s : S) w, out (EnumNames pClass s w) ≠ OutOfFuel) ∧
  (∀ this w, out (GetProperties this w) ≠ OutOfFuel).
Proof.
  split; [|split; [|split]].
  - intros S pClass s w names s' w' l H. by apply EnumNames_Done in H as [_ H].
  - intros this w names s' w' l H. by apply GetProperties_Done in H as [_ H].
  - intros. apply EnumNames_budget.
  - intros. apply GetProperties_budget.
Qed.

Lemma names_in_index_order_witness :
  ∃ obj, Some 10%nat = Some obj ∧
    enumerated_in_index_order obj
      ["DeviceID"; "VolumeName"]%string
      (log (EnumNames (P := Scripted.platform) (Some 10%nat) tt Demo.names_script)).
Proof.
  refine (proj1 (names_in_index_order (P := Scripted.platform))
            unit (Some 10%nat) tt Demo.names_script _ _ _ _ _).
  vm_compute. reflexivity.
Defined.

(** C7.  On every way out of [EnumNames] and of [GetProperties] that is a
    return or an exception, the arrays passed to [SafeArrayDestroy] are the
    arrays [GetNames] handed over, each as often as it was handed over,
    last one first. *)
Theorem arrays_destroyed_once `{P : Platform} :
  (∀ (S : Type) pClass (s : S) w,
     let r := EnumNames pClass s w in
     is_Done (out r) || is_Raised (out r) = true →
     omap destroyed_array (log r) = rev (omap obtained_array (log r))) ∧
  (∀ this w,
     let r := GetProperties this w in
     is_Done (out r) || is_Raised (out r) = true →
     omap destroyed_array (log r) = rev (omap obtained_array (log r))).
Proof.
  split.
  - intros. by apply EnumNames_arrays.
  - intros. by apply GetProperties_arrays.
Qed.

Lemma arrays_destroyed_once_witness :
  let r := GetProperties (P := Scripted.platform) Demo.disk Demo.properties_script in
  omap destroyed_array (log r) = rev (omap obtained_array (log r)).
Proof.
  refine (proj2 (arrays_destroyed_once (P := Scripted.platform))
            Demo.disk Demo.properties_script _).
  vm_compute. reflexivity.
Defined.

Section GetValue_facts.
Context `{P : Platform}.

(** C9.  With the property fetched into [val], [GetValue] returns ["NULL"]
    for [VT_NULL]; for [VT_BOOL], ["true"] when the low byte of the
    variant's union is not zero and ["false"] when it is; for [VT_LPWSTR]
    and [VT_BSTR], without a further call, the string [bstrVal] points to;
    and for any other type the string [bstrVal] points to after
    [VariantChangeType] to [VT_BSTR] has been applied to [val]. *)
Theorem GetValue_by_variant_type (this : Object) (property : string) (w : World)
    (obj : handle) (val : VARIANT) (w1 : World) :
  m_pObj this = Some obj →
  respond (IWbemClassObject_Get obj property) w = ((S_OK, val), w1) →
  let r := GetValue property this w in
  let coerced := respond (VariantChangeType val VT_BSTR) w1 in
  (vt val = VT_NULL → out r = Done "NULL"%string) ∧
  (vt val = VT_BOOL →
     (Z.land (raw val) 0xFF ≠ 0 → out r = Done "true"%string) ∧
     (Z.land (raw val) 0xFF = 0 → out r = Done "false"%string)) ∧
  (vt val = VT_LPWSTR ∨ vt val = VT_BSTR →
     log r = [Ev 234 (IWbemClassObject_Get obj property) (S_OK, val)] ∧
     ∀ str, bstrVal val = Some str → out r = Done str) ∧
  (vt val ≠ VT_NULL → vt val ≠ VT_BOOL → vt val ≠ VT_LPWSTR → vt val ≠ VT_BSTR →
     log r = [Ev 234 (IWbemClassObject_Get obj property) (S_OK, val);
              Ev 248 (VariantChangeType val VT_BSTR) coerced.1] ∧
     ∀ str, bstrVal coerced.1.2 = Some str → out r = Done str).
Proof.
  intros Hobj Hget r coerced. subst r coerced. unfold GetValue.
  autorewrite with run. rewrite Hobj. cbn [is_null]. autorewrite with run.
  rewrite Hget. cbn [fst snd]. autorewrite with run.
  change (S_OK =? S_OK) with true. cbn [negb].
  split; [|split; [|split]].
  - intros ->. by autorewrite with run.
  - intros Hvt. rewrite Hvt. cbn. unfold bVal. autorewrite with run. cbn.
    destruct (Z.eqb_spec (Z.land (raw val) 255) 0) as [Hb|Hb]; cbn; split; intros Hb';
      congruence.
  - intros Hvt. split.
    + destruct Hvt as [-> | ->]; cbn; autorewrite with run; by destruct (bstrVal val).
    + intros str Hs. destruct Hvt as [-> | ->]; cbn; autorewrite with run; by rewrite Hs.
  - intros H1 H2 H3 H4.
    rewrite (proj2 (Z.eqb_neq _ _) H1), (proj2 (Z.eqb_neq _ _) H2),
      (proj2 (Z.eqb_neq _ _) H3), (proj2 (Z.eqb_neq _ _) H4). cbn.
    autorewrite with run.
    destruct (respond (VariantChangeType val VT_BSTR) w1) as [[hr val'] w2]; cbn.
    autorewrite with run. split; [by destruct (bstrVal val')|].
    intros str ->. by autorewrite with run.
Qed.
End GetValue_facts.

Lemma GetValue_by_variant_type_witness :
  boolVal (mkVARIANT VT_BOOL 0x0100 None) ≠ 0 ∧
  out (GetValue (P := Scripted.platform) "Compressed" Demo.disk Demo.odd_bool_script)
  = Done "false"%string.
Proof.
  split; [done|].
  refine (proj2 (proj1 (proj2 (GetValue_by_variant_type (P := Scripted.platform)
            Demo.disk "Compressed" Demo.odd_bool_script 10%nat
            (mkVARIANT VT_BOOL 0x0100 None) [] _ _)) _) _); reflexivity.
Defined.

(** C2.  A run of [ExecMethod] that returns has read [__CLASS], fetched the
    class definition, taken the in-parameter class from [GetMethod] and
    spawned an instance of it; has put each pair of [iparams] into that
    instance, in the order of the list and with the variant's own type; has
    read [__RELPATH] and invoked [IWbemServices::ExecMethod] on it with the
    method name, flags 0 and the instance; and returns what [Get] of
    ["ReturnValue"] on the out-parameter object handed back, or an empty
    variant when there is no out-parameter object.  The run stops for lack
    of loop budget only after as many calls of [Next] as the budget
    allows. *)
Theorem ExecMethod_marshals_and_invokes `{P : Platform}
    fuel this lpMethodName iparams oparams w :
  (∀ ret_ oparams' s' w' l,
     ExecMethod fuel lpMethodName iparams oparams this w
       = Res (Done (ret_, oparams')) s' w' l →
     method_invoked this w lpMethodName iparams ret_ l) ∧
  (out (ExecMethod fuel lpMethodName iparams oparams this w) = OutOfFuel →
     (fuel ≤ calls_at 397
               (log (ExecMethod fuel lpMethodName iparams oparams this w)))%nat).
Proof.
  split.
  - intros ret_ oparams' s' w' l (pOut & l_call & l_out & -> & Hinv & Hout)%ExecMethod_Done.
    exists pOut, l_call, l_out. split; [done|]. split; [done|].
    destruct pOut as [o|].
    + destruct Hout as (items & Hd & _). by exists items.
    + by destruct Hout as (-> & -> & _).
  - apply ExecMethod_starved.
Qed.

Lemma ExecMethod_marshals_and_invokes_witness :
  method_invoked (P := Scripted.platform) Demo.disk Demo.chkdsk_script "chkdsk"
    Demo.chkdsk_params (mkVARIANT VT_I4 0 None)
    (log (ExecMethod (P := Scripted.platform) 5 "chkdsk" Demo.chkdsk_params ∅
            Demo.disk Demo.chkdsk_script)).
Proof.
  refine (proj1 (ExecMethod_marshals_and_invokes (P := Scripted.platform)
                   5 Demo.disk "chkdsk" Demo.chkdsk_params ∅ Demo.chkdsk_script)
            _ (<["Status"%string := mkVARIANT VT_I4 7 None]> ∅) _ _ _ _).
  vm_compute. reflexivity.
Defined.

(** C3.  After a run of [ExecMethod] that returns and that got an
    out-parameter object, every property [Next] named, other than
    ["ReturnValue"], is a key of [oparams] and maps to the value handed
    over with it (the last one, should a name come twice); what [oparams]
    holds under ["ReturnValue"] is what it held before; and so is what it
    holds under every name that [Next] did not hand over. *)
Theorem ExecMethod_stores_out_parameters `{P : Platform}
    fuel this lpMethodName iparams oparams w ret_ oparams' s' w' l :
  ExecMethod fuel lpMethodName iparams oparams this w
    = Res (Done (ret_, oparams')) s' w' l →
  out_parameters_stored this w lpMethodName iparams oparams ret_ oparams' l.
Proof.
  intros (pOut & l_call & l_out & -> & Hinv & Hout)%ExecMethod_Done.
  exists pOut, l_call, l_out. split; [done|]. split; [done|].
  intros o ->. destruct Hout as (items & Hd & ->). exists items. split; [done|].
  split; [|split].
  - intros hr key val Hin Hkey.
    pose proof (lookup_store items oparams key) as Hl.
    rewrite (proj2 (String.eqb_neq _ _) Hkey) in Hl.
    destruct (last_value_Some _ _ _ _ Hin) as [v Hv]. rewrite Hv in Hl.
    rewrite Hl. split; [done|]. split; [done|].
    intros Hnd. by rewrite <- Hv, (last_value_NoDup _ _ _ _ Hnd Hin).
  - by rewrite lookup_store.
  - intros key Hkey. rewrite lookup_store, (last_value_None _ _ Hkey).
    by destruct (String.eqb key "ReturnValue").
Qed.

Lemma ExecMethod_stores_out_parameters_witness :
  out_parameters_stored (P := Scripted.platform) Demo.disk Demo.chkdsk_script
    "chkdsk" Demo.chkdsk_params ∅ (mkVARIANT VT_I4 0 None)
    (<["Status"%string := mkVARIANT VT_I4 7 None]> ∅)
    (log (ExecMethod (P := Scripted.platform) 5 "chkdsk" Demo.chkdsk_params ∅
            Demo.disk Demo.chkdsk_script)).
Proof.
  refine (ExecMethod_stores_out_parameters (P := Scripted.platform)
            5 Demo.disk "chkdsk" Demo.chkdsk_params ∅ Demo.chkdsk_script
            _ _ _ _ _ _).
  vm_compute. reflexivity.
Defined.

(** C6.  [GetClassNames] asks one query, in WQL: [SELECT * FROM meta_class]
    for an empty filter, and that text followed by
    [ where __CLASS LIKE '<filter>'] otherwise.  What it returns is the set
    of the [__CLASS] values of the objects the enumerator hands over.  It
    stops for lack of loop budget only after as many calls of [Next] as the
    budget allows. *)
Theorem GetClassNames_query_and_names `{P : Platform} fuel filter this w :
  (∀ names s' w' l,
     GetClassNames fuel filter this w = Res (Done names) s' w' l →
     class_names_queried this filter names l) ∧
  (out (GetClassNames fuel filter this w) = OutOfFuel →
     (fuel ≤ calls_at 551 (log (GetClassNames fuel filter this w)))%nat).
Proof.
  split.
  - intros names s' w' l. unfold GetClassNames. autorewrite with run.
    destruct (m_pService this) as [svc|] eqn:Hsvc; [|discriminate].
    autorewrite with run.
    destruct (respond (IWbemServices_ExecQuery svc _ _ _) w) as [[hres enumerator] w1].
    cbn [fst snd]. autorewrite with run.
    destruct (Z.eqb_spec hres S_OK) as [->|]; cbn [negb prepend]; [|discriminate].
    destruct (GetClassNames_loop fuel enumerator ∅ this w1) as [o s2 w2 l2] eqn:E.
    cbn [prepend]. intros [= -> -> -> <-].
    apply GetClassNames_loop_Done in E as (-> & found & Hfound & ->).
    exists svc, (GetClassNames_query filter), enumerator, l2.
    split; [done|]. split; [done|]. split; [|split].
    + by intros ->.
    + intros Hne. unfold GetClassNames_query.
      by rewrite (proj2 (String.eqb_neq _ _) Hne).
    + by rewrite (right_id_L ∅ (∪)).
  - assert (ensures (starved 551 fuel) (GetClassNames fuel filter)) as H.
    { unfold GetClassNames. pose proof (@GetClassNames_loop_starved _ Services fuel).
      walk ltac:(done). }
    apply H.
Qed.

Lemma GetClassNames_query_and_names_witness :
  class_names_queried (mkServices (Some 1%nat)) "Win32_Proc%"
    {[ "Win32_Process"%string; "Win32_Processor"%string ]}
    (log (GetClassNames (P := Scripted.platform) 5 "Win32_Proc%"
            (mkServices (Some 1%nat)) Demo.classes_script)).
Proof.
  refine (proj1 (GetClassNames_query_and_names (P := Scripted.platform)
                   5 "Win32_Proc%" (mkServices (Some 1%nat)) Demo.classes_script)
            _ _ _ _ _).
  vm_compute. reflexivity.
Defined.

Lemma fail_fast_lookup `{P : Platform} {A} watched allowed (o : outcome A) l i e :
  fail_fast watched allowed o l → l !! i = Some e →
  watched e = true → ev_hr e ≠ S_OK →
  forallb allowed (drop (Datatypes.S i) l) = true.
Proof.
  revert i. induction l as [|e' l IH]; intros i; [done|].
  intros [He H]. destruct i as [|i]; cbn.
  - intros [= ->] Hw Hhr. by destruct (He Hw Hhr).
  - by apply IH.
Qed.

(** [ExecMethod] is told by the first [Put] that the type does not fit, and
    goes on: it puts the second parameter, invokes the method and returns. *)
Example ExecMethod_after_refused_Put :
  let r := ExecMethod (P := Scripted.platform) 5 "chkdsk" Demo.chkdsk_params ∅
             Demo.disk Demo.put_refused_script in
  is_Done (out r) = true ∧
  log r !! 4%nat
  = Some (Ev 358 (IWbemClassObject_Put 13%nat "FixErrors" (VariantOfBool false) VT_BOOL)
             Demo.WBEM_E_TYPE_MISMATCH) ∧
  omap (λ e, match ev_call e with
             | IWbemServices_ExecMethod _ _ m _ _ => Some m
             | _ => None
             end) (drop 5 (log r)) = ["chkdsk"%string].
Proof. by vm_compute. Qed.

(** C1, as stated, fails.  [GetClassNames] guards the insertion of a name by
    [SUCCEEDED]: a class whose [Get] of [__CLASS] fails is skipped, no
    exception is raised and the enumerator is asked for the next class. *)
Lemma GetClassNames_skips_refused_Get :
  ¬ (∀ (op : operation) (w : list Scripted.Answer),
       fail_fast (P := Scripted.platform) every_call no_call
         (perform (P := Scripted.platform) op w).1
         (perform (P := Scripted.platform) op w).2).
Proof.
  intros H.
  specialize (H (Op_GetClassNames 5 (mkServices (Some 1%nat)) "")
                Demo.get_refused_script).
  apply (fail_fast_lookup (P := Scripted.platform) _ _ _ _ 2%nat
           (Ev 560 (IWbemClassObject_Get 31%nat "__CLASS") (E_FAIL, VariantEmpty))) in H.
  - vm_compute in H. discriminate H.
  - reflexivity.
  - reflexivity.
  - by vm_compute.
Qed.

Lemma stops_at_checked_failures_witness :
  fail_fast (P := Scripted.platform) checked is_cleanup
    (perform (P := Scripted.platform) (Op_EnumNames (Some 10%nat))
       Demo.bound_fails_script).1
    (perform (P := Scripted.platform) (Op_EnumNames (Some 10%nat))
       Demo.bound_fails_script).2.
Proof.
  apply (stops_at_checked_failures (P := Scripted.platform)
           (Op_EnumNames (Some 10%nat)) Demo.bound_fails_script).
  reflexivity.
Defined.

Section Services_ctor_facts.
Context `{P : Platform}.

Lemma noexcept_never_raises {S A} (m : M S A) s w e : out (noexcept m s w) ≠ Raised e.
Proof. unfold noexcept. by destruct (m s w) as [[| | | |] ? ? ?]. Qed.

Lemma Services_ctor_runs lpResourcePath w :
  let r := Services_ctor lpResourcePath (mkServices None) w in
  (∀ e, out r ≠ Raised e) ∧
  (out r = Done tt →
     ∃ loc pService,
       log r = [Ev 426 CoInitializeSecurity S_OK;
                Ev 440 CoCreateInstance_WbemLocator (S_OK, Some loc);
                Ev 443 (IWbemLocator_ConnectServer loc lpResourcePath) (S_OK, pService);
                Ev 446 (CoSetProxyBlanket pService) S_OK] ∧
       self r = mkServices pService) ∧
  stops_dead (out r) (log r).
Proof.
  cbn zeta. split; [intros e; apply noexcept_never_raises|].
  unfold Services_ctor, noexcept. autorewrite with run.
  destruct (respond CoInitializeSecurity w) as [hr1 w1]. cbn [fst snd].
  autorewrite with run.
  destruct (Z.eqb_spec hr1 S_OK) as [->|H1]; cbn [negb prepend app].
  2: { by repeat split. }
  autorewrite with run.
  destruct (respond CoCreateInstance_WbemLocator w1) as [[hr2 pLocator] w2].
  cbn [fst snd]. autorewrite with run.
  destruct (Z.eqb_spec hr2 S_OK) as [->|H2]; cbn [negb prepend app].
  2: { by repeat split. }
  autorewrite with run. destruct pLocator as [loc|]; cbn [prepend app].
  2: { by repeat split. }
  autorewrite with run.
  destruct (respond (IWbemLocator_ConnectServer loc lpResourcePath) w2)
    as [[hr3 pService] w3].
  cbn [fst snd]. autorewrite with run.
  destruct (Z.eqb_spec hr3 S_OK) as [->|H3]; cbn [negb prepend app].
  2: { by repeat split. }
  autorewrite with run. cbn [m_pService].
  destruct (respond (CoSetProxyBlanket pService) w3) as [hr4 w4].
  cbn [fst snd]. autorewrite with run.
  destruct (Z.eqb_spec hr4 S_OK) as [->|H4]; cbn [negb prepend app].
  2: { by repeat split. }
  split; [|by repeat split]. intros _. by exists loc, pService.
Qed.

End Services_ctor_facts.

(** C4, on the code.  The constructor of [Services] is declared [throw()]:
    an exception raised by one of its four steps does not reach the caller
    but ends the program.  With [CoInitializeSecurity] answering
    [RPC_E_TOO_LATE], the constructor ends in [std::terminate] after that
    one call, and [main], whose handlers would catch the exception, ends
    there too instead of returning -1.  What the claim says of the order
    holds: a failed step is the last one made, and a constructor that
    returns has made the four steps in order. *)
Theorem Services_ctor_failure_terminates :
  (∀ `{P : Platform} lpResourcePath w,
     let r := Services_ctor lpResourcePath (mkServices None) w in
     (∀ e, out r ≠ Raised e) ∧
     (out r = Done tt →
        ∃ loc pService,
          log r = [Ev 426 CoInitializeSecurity S_OK;
                   Ev 440 CoCreateInstance_WbemLocator (S_OK, Some loc);
                   Ev 443 (IWbemLocator_ConnectServer loc lpResourcePath)
                      (S_OK, pService);
                   Ev 446 (CoSetProxyBlanket pService) S_OK] ∧
          self r = mkServices pService) ∧
     stops_dead (out r) (log r)) ∧
  (let r := Services_ctor (P := Scripted.platform) "ROOT\CIMV2" (mkServices None)
              [Scripted.A_hr RPC_E_TOO_LATE] in
   out r = Terminated ∧ log r = [Ev 426 CoInitializeSecurity RPC_E_TOO_LATE]) ∧
  (let r := main (P := Scripted.platform) 5 true Demo.no_tests tt
              Demo.security_too_late_script in
   out r = Terminated ∧
   log r = [Ev 64 (CoInitializeEx COINIT_APARTMENTTHREADED) S_OK;
            Ev 426 CoInitializeSecurity RPC_E_TOO_LATE]).
Proof.
  split; [|split].
  - intros P lpResourcePath w. apply Services_ctor_runs.
  - by vm_compute.
  - by vm_compute.
Qed.

(** C8.  The methods of [Object] and of [Services] leave the pointers of
    the object they run on as they were, however they end; and on an
    object whose pointers are set, the first thing each of them does is to
    ask the platform, whatever was asked before. *)
Theorem wrapper_keeps_no_state `{P : Platform} :
  ((∀ this w, self (GetProperties this w) = this) ∧
   (∀ property this w, self (GetValue property this w) = this) ∧
   (∀ property this w, self (GetIValue property this w) = this) ∧
   (∀ fuel this w, self (GetMethods fuel this w) = this) ∧
   (∀ fuel lpMethodName iparams oparams this w,
      self (ExecMethod fuel lpMethodName iparams oparams this w) = this) ∧
   (∀ fuel lpClassName this w, self (GetInstances fuel lpClassName this w) = this) ∧
   (∀ lpObjectName this w, self (GetObject lpObjectName this w) = this) ∧
   (∀ fuel filter this w, self (GetClassNames fuel filter this w) = this)) ∧
  ((∀ this obj w, m_pObj this = Some obj →
      asks_first (GetProperties this w) w 214 (IWbemClassObject_GetNames obj 0x40)) ∧
   (∀ property this obj w, m_pObj this = Some obj →
      asks_first (GetValue property this w) w 234 (IWbemClassObject_Get obj property)) ∧
   (∀ property this obj w, m_pObj this = Some obj →
      asks_first (GetIValue property this w) w 265 (IWbemClassObject_Get obj property)) ∧
   (∀ fuel this obj w, m_pObj this = Some obj →
      asks_first (GetMethods fuel this w) w 234 (IWbemClassObject_Get obj "__CLASS")) ∧
   (∀ fuel lpMethodName iparams oparams this obj svc w,
      m_pObj this = Some obj → m_pServices this = Some svc →
      asks_first (ExecMethod fuel lpMethodName iparams oparams this w) w 234
        (IWbemClassObject_Get obj "__CLASS")) ∧
   (∀ fuel lpClassName this svc w, m_pService this = Some svc →
      asks_first (GetInstances fuel lpClassName this w) w 469
        (IWbemServices_CreateInstanceEnum svc lpClassName 0)) ∧
   (∀ lpObjectName this svc w, m_pService this = Some svc →
      asks_first (GetObject lpObjectName this w) w 509
        (IWbemServices_GetObject svc lpObjectName)) ∧
   (∀ fuel filter this svc w, m_pService this = Some svc →
      asks_first (GetClassNames fuel filter this w) w 539
        (IWbemServices_ExecQuery svc "WQL" (GetClassNames_query filter) 0x30))).
Proof.
  split.
  - repeat split; intros.
    + apply keeps_GetProperties.
    + apply keeps_GetValue.
    + apply keeps_GetIValue.
    + apply keeps_GetMethods.
    + apply keeps_ExecMethod.
    + apply keeps_GetInstances.
    + apply keeps_GetObject.
    + apply keeps_GetClassNames.
  - assert (∀ property this obj w, m_pObj this = Some obj →
      asks_first (GetValue property this w) w 234 (IWbemClassObject_Get obj property))
      as HGetValue.
    { intros property this obj w Hobj. unfold asks_first, GetValue.
      autorewrite with run. rewrite Hobj. cbn [is_null]. autorewrite with run.
      eauto. }
    repeat split.
    + intros this obj w Hobj. unfold asks_first, GetProperties.
      autorewrite with run. rewrite Hobj. autorewrite with run. eauto.
    + done.
    + intros property this obj w Hobj. unfold asks_first, GetIValue.
      autorewrite with run. rewrite Hobj. cbn [is_null]. autorewrite with run.
      eauto.
    + intros fuel this obj w Hobj. destruct (HGetValue "__CLASS"%string this obj w Hobj)
        as [rest Hrest].
      unfold asks_first, GetMethods, bind.
      destruct (GetValue "__CLASS" this w) as [[a| | | |] s1 w1 l1]; cbn in Hrest;
        subst l1; cbn [log]; rewrite ?log_prepend; cbn [app]; eauto.
    + intros fuel lpMethodName iparams oparams this obj svc w Hobj Hsvc.
      destruct (HGetValue "__CLASS"%string this obj w Hobj) as [rest Hrest].
      unfold asks_first, ExecMethod. autorewrite with run. rewrite Hobj, Hsvc.
      cbn [is_null]. unfold bind.
      destruct (GetValue "__CLASS" this w) as [[a| | | |] s1 w1 l1]; cbn in Hrest;
        subst l1; cbn [log]; rewrite ?log_prepend; cbn [app]; eauto.
    + intros fuel lpClassName this svc w Hsvc. unfold asks_first, GetInstances.
      autorewrite with run. rewrite Hsvc. cbn [is_null]. autorewrite with run.
      eauto.
    + intros lpObjectName this svc w Hsvc. unfold asks_first, GetObject.
      autorewrite with run. rewrite Hsvc. cbn [is_null]. autorewrite with run.
      eauto.
    + intros fuel filter this svc w Hsvc. unfold asks_first, GetClassNames.
      autorewrite with run. rewrite Hsvc. autorewrite with run. eauto.
Qed.

Lemma wrapper_keeps_no_state_witness :
  asks_first (P := Scripted.platform)
    (GetValue (P := Scripted.platform) "DeviceID" Demo.disk Demo.odd_bool_script)
    Demo.odd_bool_script 234 (IWbemClassObject_Get 10%nat "DeviceID").
Proof.
  apply (proj1 (proj2 (proj2 (wrapper_keeps_no_state (P := Scripted.platform))))
           "DeviceID"%string Demo.disk 10%nat Demo.odd_bool_script).
  reflexivity.
Defined.

(** ** Further properties of the code *)

(** *** Integer values, and objects that are not valid *)

Section Bind_facts.
Context `{P : Platform} {S : Type}.

Lemma bind_assoc {A B C} (m : M S A) (f : A → M S B) (g : B → M S C) s w :
  bind (bind m f) g s w = bind m (λ a, bind (f a) g) s w.
Proof.
  unfold bind. destruct (m s w) as [[a| | | |] s1 w1 l1]; try done.
  destruct (f a s1 w1) as [[b| | | |] s2 w2 l2]; cbn [prepend]; try done.
  destruct (g b s2 w2) as [o s3 w3 l3]. cbn [prepend]. by rewrite app_assoc.
Qed.

End Bind_facts.

(** X1.  With the property fetched into [val], [GetIValue] returns [intVal]
    of [val] without a further call when [val] is a [VT_INT]; otherwise it
    applies [VariantChangeType] to [VT_INT] and returns [intVal] of what
    comes back, whatever HRESULT the conversion answers.  What it returns
    is a 32-bit signed integer. *)
Theorem GetIValue_by_variant_type `{P : Platform} (this : Object) (property : string)
    (w : World) (obj : handle) (val : VARIANT) (w1 : World) :
  m_pObj this = Some obj →
  respond (IWbemClassObject_Get obj property) w = ((S_OK, val), w1) →
  let r := GetIValue property this w in
  let coerced := respond (VariantChangeType val VT_INT) w1 in
  (vt val = VT_INT →
     out r = Done (intVal val) ∧
     log r = [Ev 265 (IWbemClassObject_Get obj property) (S_OK, val)]) ∧
  (vt val ≠ VT_INT →
     out r = Done (intVal coerced.1.2) ∧
     log r = [Ev 265 (IWbemClassObject_Get obj property) (S_OK, val);
              Ev 270 (VariantChangeType val VT_INT) coerced.1]) ∧
  (∀ n, out r = Done n → - 2 ^ 31 ≤ n < 2 ^ 31).
Proof.
  intros Hobj Hget r coerced. subst r coerced. unfold GetIValue.
  autorewrite with run. rewrite Hobj. cbn [is_null]. autorewrite with run.
  rewrite Hget. cbn [fst snd]. autorewrite with run.
  change (S_OK =? S_OK) with true. cbn [negb prepend].
  assert (∀ v, - 2 ^ 31 ≤ intVal v < 2 ^ 31) as Hrange.
  { intros v. unfold intVal, as_long. cbn zeta.
    pose proof (Z.mod_pos_bound (Z.land (raw v) 4294967295) (2 ^ 32) eq_refl).
    change (2 ^ 32) with 4294967296 in *. change (2 ^ 31) with 2147483648 in *. destruct (_ <? _) eqn:E; [apply Z.ltb_lt in E | apply Z.ltb_ge in E]; lia. }
  destruct (Z.eqb_spec (vt val) VT_INT) as [Hvt|Hvt]; cbn [negb].
  - autorewrite with run. cbn. split; [done|]. split; [by intros ?|].
    intros n [= <-]. apply Hrange.
  - rewrite bind_assoc. autorewrite with run.
    destruct (respond (VariantChangeType val VT_INT) w1) as [[hr val'] w2].
    cbn [fst snd]. autorewrite with run. cbn.
    split; [by intros ?|]. split; [done|].
    intros n [= <-]. apply Hrange.
Qed.

Lemma GetIValue_by_variant_type_witness :
  let r := GetIValue (P := Scripted.platform) "BlockSize" Demo.disk
             Sessions.block_size_script in
  out r = Done 4096 ∧
  log r = [Ev 265 (IWbemClassObject_Get 10%nat "BlockSize")
             (S_OK, mkVARIANT VT_I4 4096 None);
           Ev 270 (VariantChangeType (mkVARIANT VT_I4 4096 None) VT_INT)
             (S_OK, mkVARIANT VT_INT 4096 None)].
Proof.
  refine (proj1 (proj2 (GetIValue_by_variant_type (P := Scripted.platform)
            Demo.disk "BlockSize" Sessions.block_size_script 10%nat
            (mkVARIANT VT_I4 4096 None)
            [Scripted.A_variant S_OK (mkVARIANT VT_INT 4096 None)] _ _)) _);
    [reflexivity | reflexivity | by vm_compute].
Defined.

(** X2.  On an object that is not [Valid], [GetValue], [GetIValue],
    [GetMethods] and [ExecMethod] ask nothing of the platform and throw the
    translation of [E_POINTER] ([ExecMethod] at its test of the services
    pointer when that is null too, else at its test of the object
    pointer); [GetProperties] has no such test and dereferences the null
    pointer. *)
Theorem invalid_Object_is_refused `{P : Platform} (this : Object) (w : World) :
  Valid this = false →
  (∀ property,
     GetValue property this w = Res (Raised (hr_error 231 E_POINTER)) this w []) ∧
  (∀ property,
     GetIValue property this w = Res (Raised (hr_error 262 E_POINTER)) this w []) ∧
  (∀ fuel,
     GetMethods fuel this w = Res (Raised (hr_error 231 E_POINTER)) this w []) ∧
  (∀ fuel lpMethodName iparams oparams,
     ExecMethod fuel lpMethodName iparams oparams this w
     = Res (Raised (hr_error (if is_null (m_pServices this) then 339 else 340)
                      E_POINTER)) this w []) ∧
  GetProperties this w = Res (Crashed (NullDeref 214)) this w [].
Proof.
  unfold Valid. intros Hv%negb_false_iff.
  assert (∀ property,
    GetValue property this w = Res (Raised (hr_error 231 E_POINTER)) this w [])
    as HGetValue.
  { intros property. unfold GetValue. autorewrite with run. by rewrite Hv. }
  split; [done|]. split; [|split; [|split]].
  - intros property. unfold GetIValue. autorewrite with run. by rewrite Hv.
  - intros fuel. unfold GetMethods, bind. by rewrite HGetValue.
  - intros fuel lpMethodName iparams oparams. unfold ExecMethod.
    autorewrite with run. destruct (is_null (m_pServices this)); [done|].
    autorewrite with run. by rewrite Hv.
  - unfold GetProperties. autorewrite with run.
    by destruct (m_pObj this).
Qed.

Lemma invalid_Object_is_refused_witness :
  GetValue (P := Scripted.platform) "DeviceID" (mkObject None (Some 1%nat))
    Demo.names_script
  = Res (Raised (hr_error (P := Scripted.platform) 231 E_POINTER))
      (mkObject None (Some 1%nat)) Demo.names_script [].
Proof.
  refine (proj1 (invalid_Object_is_refused (P := Scripted.platform)
            (mkObject None (Some 1%nat)) Demo.names_script _) "DeviceID"%string).
  reflexivity.
Defined.

(** X3.  On a [Services] that is not [Valid], [GetInstances] and
    [GetObject] ask nothing of the platform and throw the translation of
    [E_POINTER]; [GetClassNames] has no such test and dereferences the null
    pointer. *)
Theorem invalid_Services_is_refused `{P : Platform} (this : Services) (w : World) :
  Services_Valid this = false →
  (∀ fuel lpClassName,
     GetInstances fuel lpClassName this w
     = Res (Raised (hr_error 466 E_POINTER)) this w []) ∧
  (∀ lpObjectName,
     GetObject lpObjectName this w
     = Res (Raised (hr_error 505 E_POINTER)) this w []) ∧
  (∀ fuel filter,
     GetClassNames fuel filter this w = Res (Crashed (NullDeref 539)) this w []).
Proof.
  unfold Services_Valid. intros Hv%negb_false_iff. split; [|split].
  - intros fuel lpClassName. unfold GetInstances. autorewrite with run. by rewrite Hv.
  - intros lpObjectName. unfold GetObject. autorewrite with run. by rewrite Hv.
  - intros fuel filter. unfold GetClassNames. cbn zeta. autorewrite with run.
    by destruct (m_pService this).
Qed.

Lemma invalid_Services_is_refused_witness :
  GetClassNames (P := Scripted.platform) 5 EmptyString (mkServices None)
    Demo.classes_script
  = Res (Crashed (NullDeref 539)) (mkServices None) Demo.classes_script [].
Proof.
  refine (proj2 (proj2 (invalid_Services_is_refused (P := Scripted.platform)
            (mkServices None) Demo.classes_script _)) 5%nat EmptyString).
  reflexivity.
Defined.

(** X4.  [GetMethods] does not test the services pointer: on an object
    without one it reads [__CLASS] and then dereferences the null pointer,
    where [ExecMethod] throws the translation of [E_POINTER] before any
    call. *)
Theorem GetMethods_needs_services `{P : Platform} (this : Object) (w : World)
    (className : string) (w1 : World) (l : list Event) :
  m_pServices this = None →
  GetValue "__CLASS" this w = Res (Done className) this w1 l →
  (∀ fuel, GetMethods fuel this w = Res (Crashed (NullDeref 285)) this w1 l) ∧
  (∀ fuel lpMethodName iparams oparams,
     ExecMethod fuel lpMethodName iparams oparams this w
     = Res (Raised (hr_error 339 E_POINTER)) this w []).
Proof.
  intros Hsvc Hclass. split.
  - intros fuel. unfold GetMethods. unfold bind at 1. rewrite Hclass.
    autorewrite with run. rewrite Hsvc. cbn. by rewrite app_nil_r.
  - intros fuel lpMethodName iparams oparams. unfold ExecMethod.
    autorewrite with run. by rewrite Hsvc.
Qed.

Lemma GetMethods_needs_services_witness :
  GetMethods (P := Scripted.platform) 5 (mkObject (Some 10%nat) None)
    Demo.chkdsk_script
  = Res (Crashed (NullDeref 285)) (mkObject (Some 10%nat) None)
      (tail Demo.chkdsk_script)
      [Ev 234 (IWbemClassObject_Get 10%nat "__CLASS")
         (S_OK, Demo.bstr "Win32_LogicalDisk")].
Proof.
  refine (proj1 (GetMethods_needs_services (P := Scripted.platform)
            (mkObject (Some 10%nat) None) Demo.chkdsk_script
            "Win32_LogicalDisk" (tail Demo.chkdsk_script)
            [Ev 234 (IWbemClassObject_Get 10%nat "__CLASS")
               (S_OK, Demo.bstr "Win32_LogicalDisk")] _ _) 5%nat);
    reflexivity.
Defined.

Section ComInit_facts.
Context `{P : Platform}.

Lemma run_ComInit_ctor this w :
  ComInit_ctor this w =
  let a := respond (CoInitializeEx COINIT_APARTMENTTHREADED) w in
  Res (if a.1 =? S_OK then Done tt else Raised (mkExn 66 None))
      (if a.1 =? S_OK then mkComInit true else this) a.2
      [Ev 64 (CoInitializeEx COINIT_APARTMENTTHREADED) a.1].
Proof.
  unfold ComInit_ctor. autorewrite with run.
  destruct (respond (CoInitializeEx COINIT_APARTMENTTHREADED) w) as [hr w1].
  cbn [fst snd]. autorewrite with run. by destruct (hr =? S_OK).
Qed.

Lemma run_ComInit_dtor this w :
  ComInit_dtor this w =
  if ok this
  then Res (Done tt) (mkComInit false) (respond CoUninitialize w).2
           [Ev 73 CoUninitialize tt]
  else Res (Done tt) this w [].
Proof.
  unfold ComInit_dtor, noexcept. autorewrite with run.
  destruct (ok this); [|done]. autorewrite with run.
  by destruct (respond CoUninitialize w) as [[] w1].
Qed.

End ComInit_facts.

(** X5.  The constructor of [ComInit] makes one call, [CoInitializeEx] for
    a single-threaded apartment.  It returns, with [ok] set, exactly when
    the answer is [S_OK]; on any other answer, a success code such as
    [S_FALSE] included, it throws and leaves [ok] unset.  The destructor
    calls [CoUninitialize] exactly when [ok] is set, and unsets it: run
    again, it does nothing. *)
Theorem ComInit_pairs_initialization `{P : Platform} (w : World) :
  let a := respond (CoInitializeEx COINIT_APARTMENTTHREADED) w in
  let r1 := ComInit_ctor (mkComInit false) w in
  let r2 := ComInit_dtor (self r1) (world r1) in
  let r3 := ComInit_dtor (self r2) (world r2) in
  log r1 = [Ev 64 (CoInitializeEx COINIT_APARTMENTTHREADED) a.1] ∧
  (a.1 = S_OK →
     out r1 = Done tt ∧ self r1 = mkComInit true ∧
     log r2 = [Ev 73 CoUninitialize tt]) ∧
  (a.1 ≠ S_OK →
     out r1 = Raised (mkExn 66 None) ∧ self r1 = mkComInit false ∧ log r2 = []) ∧
  out r2 = Done tt ∧ self r2 = mkComInit false ∧
  r3 = Res (Done tt) (mkComInit false) (world r2) [].
Proof.
  cbn zeta. rewrite run_ComInit_ctor. cbn zeta.
  destruct (respond (CoInitializeEx COINIT_APARTMENTTHREADED) w) as [hr w1].
  cbn [fst snd out self world log].
  destruct (Z.eqb_spec hr S_OK) as [->|Hhr]; rewrite !run_ComInit_dtor;
    cbn [ok out self world log]; rewrite ?run_ComInit_dtor; cbn [ok];
    by repeat split.
Qed.

Lemma ComInit_pairs_initialization_witness :
  log (ComInit_dtor (P := Scripted.platform) (mkComInit true) [Scripted.A_void])
  = [Ev 73 CoUninitialize tt].
Proof.
  refine (proj2 (proj2 (proj1 (proj2 (ComInit_pairs_initialization
            (P := Scripted.platform) [Scripted.A_hr S_OK; Scripted.A_void])) _))).
  reflexivity.
Defined.

(** *** The instances of a class *)

Section GetInstances_facts.
Context `{P : Platform}.

Lemma GetInstances_loop_Done fuel pEnum acc this w objs s' w' l :
  GetInstances_loop fuel pEnum acc this w = Res (Done objs) s' w' l →
  s' = this ∧
  ∃ found, instances_enumerated (m_pService this) pEnum found l ∧
           objs = acc ++ found.
Proof.
  destruct pEnum as [enum|].
  2: { destruct fuel; cbn [GetInstances_loop]; autorewrite with run;
         intros [= <- <- <- <-]; (split; [done|]); exists [];
         by rewrite app_nil_r. }
  revert acc w l. induction fuel as [|fuel IH]; intros acc w l;
    cbn [GetInstances_loop]; [discriminate|].
  autorewrite with run.
  destruct (respond (IEnumWbemClassObject_Next enum 0 1) w)
    as [[[hResult pObject] returned] w1]. cbn [fst snd].
  destruct (Z.eqb_spec returned 0) as [->|Hret].
  { autorewrite with run. cbn [prepend]. intros [= <- <- <- <-]. split; [done|].
    exists []. rewrite app_nil_r. split; [|done].
    by exists [], hResult, pObject. }
  autorewrite with run.
  destruct (Z.eqb_spec hResult S_OK) as [->|Hhr]; cbn [negb prepend]; [|discriminate].
  autorewrite with run.
  destruct (GetInstances_loop fuel (Some enum) _ this w1) as [o s3 w3 l3] eqn:E.
  cbn [prepend]. intros [= -> -> -> <-].
  apply IH in E as (-> & found & (items & hr_last & p_last & -> & Hall & ->) & ->).
  split; [done|].
  exists (mkObject pObject (m_pService this)
          :: map (λ it, mkObject it.1 (m_pService this)) items).
  split; [|by rewrite <- app_assoc].
  exists ((pObject, returned) :: items), hr_last, p_last.
  split; [done|]. split; [by constructor|done].
Qed.

Lemma GetInstances_loop_starved fuel pEnum acc :
  ensures (starved 478 fuel) (GetInstances_loop fuel pEnum acc).
Proof.
  revert acc. induction fuel as [|fuel IH]; intros acc s w;
    destruct pEnum as [enum|]; cbn [GetInstances_loop]; try done.
  { intros _. lia. }
  autorewrite with run.
  destruct (respond (IEnumWbemClassObject_Next enum 0 1) w)
    as [[[hResult pObject] returned] w1]. cbn [fst snd].
  destruct (returned =? 0); [by autorewrite with run|].
  autorewrite with run. destruct (negb (hResult =? S_OK)); [done|].
  autorewrite with run. intros Ho%IH. cbn [app]. rewrite calls_at_cons. lia.
Qed.

Lemma GetInstances_Done fuel lpClassName this w objs s' w' l :
  GetInstances fuel lpClassName this w = Res (Done objs) s' w' l →
  instances_collected this lpClassName objs l.
Proof.
  unfold GetInstances. autorewrite with run.
  destruct (m_pService this) as [svc|] eqn:Hsvc; cbn [is_null]; [|discriminate].
  autorewrite with run.
  destruct (respond (IWbemServices_CreateInstanceEnum svc lpClassName 0) w)
    as [[hResult pEnum] w1]. cbn [fst snd]. autorewrite with run.
  destruct (Z.eqb_spec hResult S_OK) as [->|]; cbn [negb prepend]; [|discriminate].
  destruct (GetInstances_loop fuel pEnum [] this w1) as [o s2 w2 l2] eqn:E.
  cbn [prepend]. intros [= -> -> -> <-].
  apply GetInstances_loop_Done in E as (_ & found & Hfound & ->).
  exists svc, pEnum, l2. rewrite Hsvc in Hfound. by repeat split.
Qed.

Lemma GetInstances_starved fuel lpClassName :
  ensures (starved 478 fuel) (GetInstances fuel lpClassName).
Proof.
  unfold GetInstances. pose proof (GetInstances_loop_starved fuel).
  walk ltac:(done).
Qed.

End GetInstances_facts.

(** X6.  A run of [GetInstances] that returns has asked
    [CreateInstanceEnum] for the class and then [Next] for one object at a
    time.  It returns, in the order handed over, one [Object] per [Next]
    that answered [S_OK] with a count other than zero; each holds the
    pointer handed over and the services pointer of the connection, which
    is set.  The enumeration ends at the first [Next] with count zero,
    whatever its HRESULT.  The run stops for lack of loop budget only after
    as many calls of [Next] as the budget allows. *)
Theorem GetInstances_collects_instances `{P : Platform} fuel lpClassName this w :
  (∀ objs s' w' l,
     GetInstances fuel lpClassName this w = Res (Done objs) s' w' l →
     instances_collected this lpClassName objs l ∧
     Forall (λ obj, m_pServices obj = m_pService this ∧ is_Some (m_pServices obj))
       objs) ∧
  (out (GetInstances fuel lpClassName this w) = OutOfFuel →
     (fuel ≤ calls_at 478 (log (GetInstances fuel lpClassName this w)))%nat).
Proof.
  split; [|apply GetInstances_starved].
  intros objs s' w' l H%GetInstances_Done. split; [done|].
  destruct H as (svc & pEnum & l_loop & Hsvc & -> & Hloop).
  destruct pEnum as [enum|]; cbn in Hloop.
  - destruct Hloop as (items & _ & _ & _ & _ & ->).
    apply Forall_map, Forall_forall. intros it _. cbn. by rewrite Hsvc.
  - by destruct Hloop as [_ ->].
Qed.

Lemma GetInstances_collects_instances_witness :
  instances_collected (mkServices (Some 1%nat)) "Win32_LogicalDisk"
    [mkObject (Some 41%nat) (Some 1%nat); mkObject (Some 42%nat) (Some 1%nat)]
    (log (GetInstances (P := Scripted.platform) 5 "Win32_LogicalDisk"
            (mkServices (Some 1%nat)) Sessions.disks_script)).
Proof.
  refine (proj1 (proj1 (GetInstances_collects_instances (P := Scripted.platform)
            5 "Win32_LogicalDisk" (mkServices (Some 1%nat)) Sessions.disks_script)
            _ _ _ _ _)).
  vm_compute. reflexivity.
Defined.

(** *** The methods of a class, and single objects *)

Section GetMethods_facts.
Context `{P : Platform}.

Lemma signature_Done {S} (p : option handle) (s : S) w names s' w' l :
  (if negb (is_null p) then EnumNames p else ret []) s w = Res (Done names) s' w' l →
  s' = s ∧ signature_enumerated p names l.
Proof.
  destruct p as [obj|]; cbn [is_null negb].
  - intros (-> & obj' & [= <-] & H)%EnumNames_Done. by split.
  - rewrite run_ret. by intros [= <- <- <- <-].
Qed.

Lemma GetMethods_loop_Done {S} fuel cd acc (s : S) w defs s' w' l :
  GetMethods_loop fuel cd acc s w = Res (Done defs) s' w' l →
  s' = s ∧ ∃ found, methods_enumerated cd found l ∧ defs = acc ++ found.
Proof.
  revert acc s w l. induction fuel as [|fuel IH]; intros acc s w l;
    cbn [GetMethods_loop]; [discriminate|].
  autorewrite with run.
  destruct (respond (IWbemClassObject_NextMethod cd) w)
    as [[[[hr nm] pIn] pOut] w1]. cbn [fst snd].
  destruct (FAILED hr) eqn:Hf.
  { autorewrite with run. cbn [prepend]. intros [= <- <- <- <-]. split; [done|].
    exists []. rewrite app_nil_r. split; [|done].
    exists [], hr, nm, pIn, pOut. split; [done|]. split; [by left|]. by split. }
  destruct nm as [nm|].
  2: { autorewrite with run. cbn [prepend]. intros [= <- <- <- <-]. split; [done|].
       exists []. rewrite app_nil_r. split; [|done].
       exists [], hr, None, pIn, pOut. split; [done|]. split; [by right|]. by split. }
  match goal with
  | |- prepend _ ?r = _ → _ => destruct r as [o s4 w4 l4] eqn:E
  end.
  cbn [prepend]. intros [= -> -> -> <-].
  apply bind_Done_inv in E as (ip & s1 & w2 & l_in & l5 & Hin & E & ->).
  apply signature_Done in Hin as [-> Hin].
  apply bind_Done_inv in E as (op & s2 & w3 & l_out & l6 & Hout & E & ->).
  apply signature_Done in Hout as [-> Hout].
  apply IH in E as (-> & found & (items & hr_last & nm_last & in_last & out_last
                                  & -> & Hlast & Hall & ->) & ->).
  split; [done|].
  exists (mkMethodDef nm ip op :: map mi_def items).
  split; [|by rewrite <- app_assoc].
  exists (mkMethodItem hr (mkMethodDef nm ip op) pIn pOut l_in l_out :: items),
    hr_last, nm_last, in_last, out_last.
  split.
  { cbn [map concat method_events mi_hr mi_def mi_in mi_out mi_in_log mi_out_log name app].
    by rewrite <- !app_assoc. }
  split; [done|]. split; [|done].
  constructor; [|done]. by split.
Qed.

Lemma signature_starved {S} n (p : option handle) :
  ensures (S := S) (starved 297 n)
    (if negb (is_null p) then EnumNames p else ret []).
Proof.
  destruct p as [obj|]; cbn [is_null negb].
  - intros s w Ho. by apply EnumNames_budget in Ho.
  - by intros s w.
Qed.

Lemma GetMethods_loop_starved {S} fuel cd acc :
  ensures (S := S) (starved 297 fuel) (GetMethods_loop fuel cd acc).
Proof.
  revert acc. induction fuel as [|fuel IH]; intros acc s w; cbn [GetMethods_loop].
  { intros _. lia. }
  autorewrite with run.
  destruct (respond (IWbemClassObject_NextMethod cd) w)
    as [[[[hr nm] pIn] pOut] w1]. cbn [fst snd].
  destruct (FAILED hr); [by autorewrite with run|].
  destruct nm as [nm|]; [|by autorewrite with run].
  match goal with
  | |- starved _ _ _ (out (?k _ _)) _ =>
      assert (ensures (starved 297 fuel) k) as Hk
  end.
  { pose proof (@signature_starved S fuel). walk ltac:(done). }
  intros Ho%Hk. cbn [app]. rewrite calls_at_cons. lia.
Qed.

Lemma GetMethods_Done fuel this w defs s' w' l :
  GetMethods fuel this w = Res (Done defs) s' w' l →
  methods_described this w defs l.
Proof.
  unfold GetMethods.
  intros (className & s1 & w1 & l_class & l2 & Hclass & H & ->)%bind_Done_inv.
  pose proof (GetValue_Done _ _ _ _ _ _ _ Hclass) as ->.
  revert H. autorewrite with run.
  destruct (m_pServices this) as [svc|] eqn:Hsvc; [|discriminate].
  autorewrite with run.
  destruct (respond (IWbemServices_GetObject svc className) w1)
    as [[hR pClassDefinition] w2]. cbn [fst snd]. autorewrite with run.
  destruct (Z.eqb_spec hR S_OK) as [->|]; cbn [negb prepend]; [|discriminate].
  autorewrite with run. destruct pClassDefinition as [cd|]; cbn [prepend];
    [|discriminate].
  autorewrite with run.
  destruct (respond (IWbemClassObject_BeginMethodEnumeration cd 0) w2) as [hr w3].
  cbn [fst snd]. destruct (SUCCEEDED hr) eqn:Hs.
  - match goal with
    | |- prepend _ (prepend _ ?r) = _ → _ => destruct r as [o s4 w4 l4] eqn:E
    end.
    cbn [prepend]. intros [= -> -> -> <-].
    apply bind_Done_inv in E as (defs' & s5 & w5 & l_m & l_e & Hloop & E & ->).
    apply GetMethods_loop_Done in Hloop as (-> & found & Hfound & ->).
    revert E. autorewrite with run.
    destruct (respond (IWbemClassObject_EndMethodEnumeration cd) w5) as [hr_end w6].
    cbn [fst snd]. autorewrite with run. cbn [prepend]. intros [= <- <- <- <-].
    exists svc, className, cd, hr, w1, l_class,
      (l_m ++ [Ev 314 (IWbemClassObject_EndMethodEnumeration cd) hr_end]).
    split; [done|]. split; [done|]. split; [done|]. rewrite Hs.
    by exists l_m, hr_end.
  - autorewrite with run. cbn [prepend]. intros [= <- <- <- <-].
    exists svc, className, cd, hr, w1, l_class, [].
    split; [done|]. split; [done|]. split; [done|]. by rewrite Hs.
Qed.

Lemma GetMethods_starved fuel : ensures (starved 297 fuel) (GetMethods fuel).
Proof.
  unfold GetMethods.
  assert (∀ property, ensures (starved 297 fuel) (GetValue property)) as HG.
  { intros property. unfold GetValue. walk ltac:(done). }
  pose proof (@GetMethods_loop_starved Object fuel).
  walk ltac:(done).
Qed.

End GetMethods_facts.

(** X7.  A run of [GetMethods] that returns has read [__CLASS], fetched
    the class definition and begun the enumeration of its methods.  When
    that failed it makes no further call and returns nothing.  Otherwise it
    returns one [MethodDef] per [NextMethod] that did not fail and named a
    method, in that order, with the names [EnumNames] found on the in and
    on the out signature (none for a signature that is missing); it stops
    at the first [NextMethod] that fails or names nothing, and ends the
    enumeration.  The run stops for lack of loop budget only after as many
    calls of [NextMethod] as the budget allows. *)
Theorem GetMethods_describes_methods `{P : Platform} fuel this w :
  (∀ defs s' w' l,
     GetMethods fuel this w = Res (Done defs) s' w' l →
     methods_described this w defs l) ∧
  (out (GetMethods fuel this w) = OutOfFuel →
     (fuel ≤ calls_at 297 (log (GetMethods fuel this w)))%nat).
Proof.
  split; [|apply GetMethods_starved].
  intros defs s' w' l. apply GetMethods_Done.
Qed.

Lemma GetMethods_describes_methods_witness :
  methods_described (P := Scripted.platform) Demo.disk Sessions.methods_script
    [mkMethodDef "Chkdsk" ["FixErrors"%string] [];
     mkMethodDef "Reset" [] []]
    (log (GetMethods (P := Scripted.platform) 5 Demo.disk Sessions.methods_script)).
Proof.
  refine (proj1 (GetMethods_describes_methods (P := Scripted.platform)
            5 Demo.disk Sessions.methods_script) _ _ _ _ _).
  vm_compute. reflexivity.
Defined.

(** X8.  A run of [Services::GetObject] that returns has made one call,
    [IWbemServices::GetObject] for the path given, answered [S_OK]; the
    [Object] returned holds the pointer handed over and the services
    pointer of the connection, and is [Valid] exactly when a pointer was
    handed over. *)
Theorem GetObject_binds_object `{P : Platform} lpObjectName this w obj s' w' l :
  GetObject lpObjectName this w = Res (Done obj) s' w' l →
  ∃ svc pObj,
    m_pService this = Some svc ∧
    l = [Ev 509 (IWbemServices_GetObject svc lpObjectName) (S_OK, pObj)] ∧
    obj = mkObject pObj (Some svc) ∧
    (Valid obj = true ↔ is_Some pObj).
Proof.
  unfold GetObject. autorewrite with run.
  destruct (m_pService this) as [svc|] eqn:Hsvc; cbn [is_null]; [|discriminate].
  autorewrite with run.
  destruct (respond (IWbemServices_GetObject svc lpObjectName) w)
    as [[hResult pObj] w1]. cbn [fst snd]. autorewrite with run.
  destruct (Z.eqb_spec hResult S_OK) as [->|]; cbn [negb prepend]; [|discriminate].
  autorewrite with run. rewrite Hsvc. cbn [prepend app]. intros [= <- <- <- <-].
  exists svc, pObj. split; [done|]. split; [done|]. split; [done|].
  unfold Valid. cbn. destruct pObj; cbn; split; try done.
Qed.

Lemma GetObject_binds_object_witness :
  ∃ svc pObj,
    Some 1%nat = Some svc ∧
    [Ev 509 (IWbemServices_GetObject 1%nat "Win32_LogicalDisk") (S_OK, Some 11%nat)]
    = [Ev 509 (IWbemServices_GetObject svc "Win32_LogicalDisk") (S_OK, pObj)] ∧
    mkObject (Some 11%nat) (Some 1%nat) = mkObject pObj (Some svc) ∧
    (Valid (mkObject (Some 11%nat) (Some 1%nat)) = true ↔ is_Some pObj).
Proof.
  refine (GetObject_binds_object (P := Scripted.platform) "Win32_LogicalDisk"
            (mkServices (Some 1%nat)) [Scripted.A_ptr S_OK (Some 11%nat)]
            (mkObject (Some 11%nat) (Some 1%nat)) (mkServices (Some 1%nat)) []
            [Ev 509 (IWbemServices_GetObject 1%nat "Win32_LogicalDisk")
               (S_OK, Some 11%nat)] _).
  reflexivity.
Defined.

(** *** Two edges: the last index, and a method that hands back nothing *)

Section Bounds.
Context `{P : Platform}.

Lemma EnumNames_loop_LONG_MAX {S} budget psaNames i acc (s : S) w :
  i ≤ LONG_MAX →
  is_Done (out (EnumNames_loop budget psaNames i LONG_MAX acc s w)) = false.
Proof.
  revert i acc w. induction budget as [|budget IH]; intros i acc w Hi;
    cbn [EnumNames_loop]; rewrite (proj2 (Z.leb_le _ _) Hi); [done|].
  autorewrite with run.
  destruct (respond (SafeArrayGetElement psaNames i) w) as [[hr nm] w1].
  cbn [fst snd]. autorewrite with run.
  destruct (negb (hr =? S_OK)); [done|]. autorewrite with run.
  destruct nm as [x|]; [|done]. autorewrite with run.
  destruct (Z.eqb_spec i LONG_MAX) as [->|Hne]; [done|].
  apply IH. lia.
Qed.

End Bounds.

(** X9.  When the upper bound of the array is [LONG_MAX], [EnumNames] does
    not return: the loop counter cannot pass the bound, so the run ends in
    an exception, in [std::terminate] or in undefined behaviour, the
    overflow of [i++] at the latest. *)
Theorem EnumNames_stuck_at_LONG_MAX `{P : Platform} {S : Type} (obj : handle)
    (s : S) (w w1 w2 w3 : World) (psa : option handle) (lLower : Z) :
  respond (IWbemClassObject_GetNames obj 0x40) w = ((S_OK, psa), w1) →
  respond (SafeArrayGetLBound psa 1) w1 = ((S_OK, lLower), w2) →
  respond (SafeArrayGetUBound psa 1) w2 = ((S_OK, LONG_MAX), w3) →
  lLower ≤ LONG_MAX →
  is_Done (out (EnumNames (Some obj) s w)) = false.
Proof.
  intros Hnames Hlow Hup Hle. unfold EnumNames. autorewrite with run.
  change (Z.lor WBEM_FLAG_ALWAYS WBEM_FLAG_NONSYSTEM_ONLY) with 64.
  rewrite Hnames. cbn [fst snd]. autorewrite with run.
  change (S_OK =? S_OK) with true. cbn [negb]. autorewrite with run.
  rewrite run_with_SAHandle. autorewrite with run. rewrite Hlow. cbn [fst snd].
  autorewrite with run. change (S_OK =? S_OK) with true. cbn [negb].
  autorewrite with run. rewrite Hup. cbn [fst snd]. autorewrite with run.
  change (S_OK =? S_OK) with true. cbn [negb]. autorewrite with run.
  pose proof (EnumNames_loop_LONG_MAX (Z.to_nat (LONG_MAX - lLower + 1)) psa
                lLower [] s w3 Hle) as Hloop.
  destruct (EnumNames_loop _ psa lLower LONG_MAX [] s w3) as [[a|e| | |] s4 w4 l4];
    cbn [out prepend] in *; try done.
  destruct psa as [h|]; cbn; [|done]. by destruct (_ =? S_OK).
Qed.

Lemma EnumNames_stuck_at_LONG_MAX_witness :
  is_Done (out (EnumNames (P := Scripted.platform) (Some 10%nat) tt
                  Sessions.last_index_script)) = false ∧
  out (EnumNames (P := Scripted.platform) (Some 10%nat) tt
         Sessions.last_index_script) = Crashed (SignedOverflow 139).
Proof.
  split; [|by vm_compute].
  refine (EnumNames_stuck_at_LONG_MAX (P := Scripted.platform) 10%nat tt
            Sessions.last_index_script
            (tail Sessions.last_index_script)
            (tail (tail Sessions.last_index_script))
            (tail (tail (tail Sessions.last_index_script)))
            (Some 20%nat) LONG_MAX _ _ _ _); [reflexivity..|done].
Defined.

(** X10.  When the invocation is the last call of a run of [ExecMethod]
    that returns, it handed back no out-parameter object, whatever its
    HRESULT; the run returns an empty variant, and [oparams] is as it
    was. *)
Theorem ExecMethod_without_out_object `{P : Platform}
    fuel this lpMethodName iparams oparams w ret_ oparams' e :
  let r := ExecMethod fuel lpMethodName iparams oparams this w in
  out r = Done (ret_, oparams') →
  last (log r) = Some e → ev_line e = 373%nat →
  (∃ svc relPath pInParamsInstance hr,
     e = Ev 373 (IWbemServices_ExecMethod svc relPath lpMethodName 0
                   pInParamsInstance) (hr, None)) ∧
  ret_ = VariantEmpty ∧ oparams' = oparams.
Proof.
  cbn zeta.
  destruct (ExecMethod fuel lpMethodName iparams oparams this w)
    as [o s' w' l] eqn:E. cbn [out log]. intros -> Hlast Hline.
  apply ExecMethod_Done in E as (pOut & l_call & l_out & -> & Hinv & Hout).
  destruct pOut as [o|].
  - destruct Hout as (items & (hr_g & hr_b & hr_last & val_last & hr_end & ->) & _).
    exfalso. revert Hlast.
    match goal with
    | |- last (l_call ++ ?a :: ?b :: ?d ++ [?x; ?y]) = _ → _ =>
        replace (l_call ++ a :: b :: d ++ [x; y])
          with ((l_call ++ a :: b :: d ++ [x]) ++ [y]) by (by list_norm)
    end.
    rewrite last_snoc. intros [= <-]. cbn in Hline. discriminate Hline.
  - destruct Hout as (-> & -> & ->). split; [|done].
    destruct Hinv as (obj & svc & className & relPath & cd & inc & pInst & hr_m
                      & hr_s & hr_e & w1 & w2 & w3 & l_class & l_puts & l_rel
                      & _ & _ & _ & _ & _ & ->).
    revert Hlast. rewrite app_nil_r.
    rewrite !app_assoc, last_snoc. intros [= <-].
    by exists svc, relPath, pInst, hr_e.
Qed.

Lemma ExecMethod_without_out_object_witness :
  VariantEmpty = VariantEmpty ∧
  ({[ "Status"%string := VariantOfBool true ]} : gmap string VARIANT)
  = {[ "Status"%string := VariantOfBool true ]}.
Proof.
  refine (proj2 (ExecMethod_without_out_object (P := Scripted.platform) 5 Demo.disk
            "chkdsk" Demo.chkdsk_params {[ "Status"%string := VariantOfBool true ]}
            Sessions.chkdsk_refused_script VariantEmpty
            {[ "Status"%string := VariantOfBool true ]}
            (Ev 373 (IWbemServices_ExecMethod 1%nat "Win32_LogicalDisk.DeviceID=G:"
                       "chkdsk" 0 (Some 13%nat)) (E_FAIL, None)) _ _ _));
    by vm_compute.
Defined.

(** *** Ending in [std::terminate] *)

Section Terminated_facts.
Context `{P : Platform}.

Lemma not_ends_nil : ¬ ends_in_failed_cleanup [].
Proof. intros (l' & e & Heq & _). by destruct l'. Qed.

Lemma ends_snoc l e : ends_in_failed_cleanup (l ++ [e]) ↔ failed_cleanup e.
Proof.
  split.
  - intros (l' & e' & Heq & He). by apply app_inj_tail in Heq as [_ ->].
  - intros He. by exists l, e.
Qed.

Lemma ends_app l1 l2 :
  l2 ≠ [] → ends_in_failed_cleanup (l1 ++ l2) ↔ ends_in_failed_cleanup l2.
Proof.
  intros Hne. destruct (exists_last Hne) as (l2' & e & ->).
  by rewrite app_assoc, !ends_snoc.
Qed.

#[global] Instance terminated_by_cleanup_sequential : Sequential terminated_by_cleanup.
Proof.
  split.
  - intros A a. split; [done|]. by intros ?%not_ends_nil.
  - intros A e. split; [done|]. by intros ?%not_ends_nil.
  - intros A B a o l1 l2 H1 H2. unfold terminated_by_cleanup in *.
    destruct l2 as [|e l2].
    + rewrite app_nil_r. rewrite H2. split; [by intros ?%not_ends_nil|].
      intros H. by apply H1 in H.
    + by rewrite ends_app.
  - intros A B o l Ho H. unfold terminated_by_cleanup in *. rewrite <- H.
    by destruct o.
Qed.

Lemma tbc_call {A} line c r (a : A) :
  is_cleanup (Ev line c r) = false →
  terminated_by_cleanup A (Done a) [Ev line c r].
Proof.
  intros Hc. split; [done|]. intros [Hf _]%(ends_snoc []). congruence.
Qed.

Lemma tbc_abnormal {A} (o : outcome A) : o ≠ Terminated → terminated_by_cleanup A o [].
Proof. intros Ho. split; [done|]. by intros ?%not_ends_nil. Qed.

Lemma tbc_with_SAHandle {S A} psa (body : M S A) :
  ensures terminated_by_cleanup body →
  ensures terminated_by_cleanup (with_SAHandle psa body).
Proof.
  intros Hb s w. rewrite run_with_SAHandle. specialize (Hb s w).
  destruct (body s w) as [o s1 w1 l1]. cbn [out log] in Hb.
  unfold terminated_by_cleanup in *.
  destruct o, psa as [h|]; cbn [out log]; try done.
  all: rewrite ends_snoc; unfold failed_cleanup, ev_hr; cbn;
    destruct (Z.eqb_spec (respond (SafeArrayDestroy h) w1).1 S_OK) as [E|E];
    split; try done; try by intros [_ ?].
Qed.

End Terminated_facts.

Ltac tbc_side :=
  first [ apply tbc_call; reflexivity | apply tbc_abnormal; discriminate ].

Ltac tbc_walk :=
  repeat first
    [ solve [auto 2]
    | apply tbc_with_SAHandle
    | apply ensures_put_this; tc_solve
    | apply ensures_out_of_fuel; tbc_side
    | apply ensures_ret; tc_solve
    | apply ensures_throw; tc_solve
    | apply ensures_get_this; tc_solve
    | apply ensures_throw_if; tc_solve
    | apply ensures_bind; [tc_solve | | intros ?]
    | apply ensures_call; intros ?; tbc_side
    | apply ensures_deref; [tc_solve | tbc_side]
    | apply ensures_wstring_of; [tc_solve | tbc_side]
    | apply ensures_incr_long; [tc_solve | tbc_side]
    | apply ensures_crash; tbc_side
    | match goal with
      | |- ensures _ (match ?x with _ => _ end) => destruct x
      end ].

Section Terminated_runs.
Context `{P : Platform}.

Lemma GetValue_tbc property : ensures terminated_by_cleanup (GetValue property).
Proof. unfold GetValue. tbc_walk. Qed.

Lemma GetIValue_tbc property : ensures terminated_by_cleanup (GetIValue property).
Proof. unfold GetIValue. tbc_walk. Qed.

Lemma EnumNames_loop_tbc {S} budget psaNames i lUpper acc :
  ensures (S := S) terminated_by_cleanup (EnumNames_loop budget psaNames i lUpper acc).
Proof.
  revert i acc. induction budget as [|budget IH]; intros i acc;
    cbn [EnumNames_loop]; tbc_walk.
Qed.

Lemma EnumNames_tbc {S} pClass : ensures (S := S) terminated_by_cleanup (EnumNames pClass).
Proof. unfold EnumNames. pose proof (@EnumNames_loop_tbc S). tbc_walk. Qed.

Lemma GetProperties_tbc : ensures terminated_by_cleanup GetProperties.
Proof. unfold GetProperties. pose proof (@EnumNames_tbc Object). tbc_walk. Qed.

Lemma GetMethods_loop_tbc {S} fuel cd acc :
  ensures (S := S) terminated_by_cleanup (GetMethods_loop fuel cd acc).
Proof.
  pose proof (@EnumNames_tbc S).
  revert acc. induction fuel as [|fuel IH]; intros acc;
    cbn [GetMethods_loop]; tbc_walk.
Qed.

Lemma GetMethods_tbc fuel : ensures terminated_by_cleanup (GetMethods fuel).
Proof.
  unfold GetMethods. pose proof GetValue_tbc.
  pose proof (@GetMethods_loop_tbc Object). tbc_walk.
Qed.

Lemma ExecMethod_put_tbc {S} pInst iparams :
  ensures (S := S) terminated_by_cleanup (ExecMethod_put pInst iparams).
Proof. induction iparams as [|p rest IH]; cbn [ExecMethod_put]; tbc_walk. Qed.

Lemma ExecMethod_drain_tbc {S} fuel o oparams :
  ensures (S := S) terminated_by_cleanup (ExecMethod_drain fuel o oparams).
Proof.
  revert oparams. induction fuel as [|fuel IH]; intros oparams;
    cbn [ExecMethod_drain]; tbc_walk.
Qed.

Lemma ExecMethod_tbc fuel lpMethodName iparams oparams :
  ensures terminated_by_cleanup (ExecMethod fuel lpMethodName iparams oparams).
Proof.
  unfold ExecMethod. pose proof GetValue_tbc.
  pose proof (@ExecMethod_put_tbc Object).
  pose proof (@ExecMethod_drain_tbc Object). tbc_walk.
Qed.

Lemma GetInstances_loop_tbc fuel pEnum acc :
  ensures terminated_by_cleanup (GetInstances_loop fuel pEnum acc).
Proof.
  revert acc. induction fuel as [|fuel IH]; intros acc;
    destruct pEnum as [enum|]; cbn [GetInstances_loop]; tbc_walk.
Qed.

Lemma GetInstances_tbc fuel lpClassName :
  ensures terminated_by_cleanup (GetInstances fuel lpClassName).
Proof. unfold GetInstances. pose proof GetInstances_loop_tbc. tbc_walk. Qed.

Lemma GetObject_tbc lpObjectName : ensures terminated_by_cleanup (GetObject lpObjectName).
Proof. unfold GetObject. tbc_walk. Qed.

Lemma GetClassNames_loop_tbc {S} fuel enumerator acc :
  ensures (S := S) terminated_by_cleanup (GetClassNames_loop fuel enumerator acc).
Proof.
  revert acc. induction fuel as [|fuel IH]; intros acc;
    destruct enumerator; cbn [GetClassNames_loop]; tbc_walk.
Qed.

Lemma GetClassNames_tbc fuel filter :
  ensures terminated_by_cleanup (GetClassNames fuel filter).
Proof.
  unfold GetClassNames. pose proof (@GetClassNames_loop_tbc Services). tbc_walk.
Qed.

Lemma ComInit_ctor_tbc : ensures terminated_by_cleanup ComInit_ctor.
Proof. unfold ComInit_ctor. tbc_walk. Qed.

Lemma ComInit_dtor_tbc : ensures terminated_by_cleanup ComInit_dtor.
Proof.
  intros s w. rewrite run_ComInit_dtor.
  destruct (ok s); cbn [out log]; [by apply tbc_call | by apply tbc_abnormal].
Qed.

Lemma tbc_summary {S A} (r : result World S A) :
  terminated_by_cleanup A (out r) (log r) →
  terminated_by_cleanup unit (summary r).1 (summary r).2.
Proof.
  unfold summary, terminated_by_cleanup. cbn [fst snd]. intros <-.
  by destruct (out r).
Qed.

End Terminated_runs.

(** X11.  An operation other than the constructor of [Services] ends in
    [std::terminate] exactly when the last call it made is a
    [SafeArrayDestroy] that answered other than [S_OK]. *)
Theorem terminate_only_by_failed_cleanup `{P : Platform} (op : operation) (w : World) :
  is_Services_ctor op = false →
  ((perform op w).1 = Terminated ↔ ends_in_failed_cleanup (perform op w).2).
Proof.
  destruct op; cbn [is_Services_ctor perform]; intros Hop; try discriminate;
    apply tbc_summary.
  - apply ComInit_ctor_tbc.
  - apply ComInit_dtor_tbc.
  - apply (EnumNames_tbc (S := unit)).
  - apply GetProperties_tbc.
  - apply GetValue_tbc.
  - apply GetIValue_tbc.
  - apply GetMethods_tbc.
  - apply ExecMethod_tbc.
  - apply GetInstances_tbc.
  - apply GetObject_tbc.
  - apply GetClassNames_tbc.
Qed.

Lemma terminate_only_by_failed_cleanup_witness :
  (perform (P := Scripted.platform) (Op_EnumNames (Some 10%nat))
     [Scripted.A_ptr S_OK (Some 20%nat); Scripted.A_long S_OK 0;
      Scripted.A_long S_OK (-1); Scripted.A_hr E_FAIL]).1 = Terminated.
Proof.
  refine (proj2 (terminate_only_by_failed_cleanup (P := Scripted.platform)
            (Op_EnumNames (Some 10%nat))
            [Scripted.A_ptr S_OK (Some 20%nat); Scripted.A_long S_OK 0;
             Scripted.A_long S_OK (-1); Scripted.A_hr E_FAIL] _) _);
    [reflexivity|].
  exists [Ev 120 (IWbemClassObject_GetNames 10%nat 0x40) (S_OK, Some 20%nat);
          Ev 132 (SafeArrayGetLBound (Some 20%nat) 1) (S_OK, 0);
          Ev 136 (SafeArrayGetUBound (Some 20%nat) 1) (S_OK, -1)],
         (Ev 92 (SafeArrayDestroy 20%nat) E_FAIL).
  split; [by vm_compute|]. split; [done | by vm_compute].
Defined.

(** *** What is asked of the platform *)

Section Logged.
Context `{P : Platform}.
Context (φ : Event → Prop).

#[global] Instance logged_sequential : Sequential (logged φ).
Proof.
  split.
  - intros A a. constructor.
  - intros A e. constructor.
  - intros A B a o l1 l2 H1 H2. by apply Forall_app.
  - by intros A B o l _ H.
Qed.

Lemma logged_noexcept {S A} (m : M S A) :
  ensures (logged φ) m → ensures (logged φ) (noexcept m).
Proof.
  intros H s w. specialize (H s w). unfold noexcept.
  by destruct (m s w) as [[| | | |] s1 w1 l1].
Qed.

Lemma logged_scoped {S A} (dtor : M S unit) (body : M S A) :
  ensures (logged φ) dtor → ensures (logged φ) body →
  ensures (logged φ) (scoped dtor body).
Proof.
  intros Hd Hb s w. specialize (Hb s w). unfold scoped.
  destruct (body s w) as [o s1 w1 l1]. cbn [log] in Hb.
  pose proof (logged_noexcept _ Hd s1 w1) as Hn.
  destruct o; try done.
  all: destruct (noexcept dtor s1 w1) as [[| | | |] s2 w2 l2];
    unfold logged in *; cbn [log] in *; by apply Forall_app.
Qed.

Lemma logged_with_SAHandle {S A} psa (body : M S A) :
  (∀ h hr, φ (Ev 92 (SafeArrayDestroy h) hr)) →
  ensures (logged φ) body → ensures (logged φ) (with_SAHandle psa body).
Proof.
  intros Hφ Hb. apply logged_scoped; [|done].
  intros s w. rewrite run_SAHandle_dtor. destruct psa as [h|]; cbn [log].
  - constructor; [apply Hφ | constructor].
  - constructor.
Qed.

Lemma logged_on {S S' A} (this' : S') (m : M S' A) :
  ensures (logged φ) m → ensures (S := S) (logged φ) (on this' m).
Proof.
  intros H s w. specialize (H this' w). unfold on.
  by destruct (m this' w) as [[| | | |] s1 w1 l1].
Qed.

Lemma logged_for_each {S A} (xs : list A) (body : A → M S unit) :
  (∀ x, ensures (logged φ) (body x)) → ensures (logged φ) (for_each xs body).
Proof.
  intros H. induction xs as [|x xs IH]; cbn [for_each].
  - apply ensures_ret, _.
  - apply ensures_bind; [apply _ | apply H | by intros _].
Qed.

Lemma logged_out_of_fuel {S A} : ensures (S := S) (A := A) (logged φ) out_of_fuel.
Proof. intros s w. constructor. Qed.

Lemma logged_impl {S A} (ψ : Event → Prop) (m : M S A) :
  (∀ e, ψ e → φ e) → ensures (logged ψ) m → ensures (logged φ) m.
Proof. intros Hi H s w. eapply Forall_impl; [apply H | done]. Qed.

End Logged.

(** Walks through code and its scopes for a judgement on the log alone;
    [side] settles what is asked of a single call. *)
Ltac logged_side := unfold logged; repeat constructor.

Ltac logged_walk :=
  repeat first
    [ solve [auto 2]
    | apply logged_out_of_fuel
    | apply logged_with_SAHandle; [intros ? ?; logged_side |]
    | apply logged_noexcept
    | apply logged_on
    | apply logged_for_each; intros ?
    | apply ensures_put_this; tc_solve
    | apply ensures_ret; tc_solve
    | apply ensures_throw; tc_solve
    | apply ensures_get_this; tc_solve
    | apply ensures_throw_if; tc_solve
    | apply ensures_bind; [tc_solve | | intros ?]
    | apply ensures_call; intros ?; logged_side
    | apply ensures_deref; [tc_solve | logged_side]
    | apply ensures_wstring_of; [tc_solve | logged_side]
    | apply ensures_incr_long; [tc_solve | logged_side]
    | apply ensures_crash; logged_side
    | match goal with
      | |- ensures _ (match ?x with _ => _ end) => destruct x
      | |- ensures _ (if ?x then _ else _) => destruct x
      end ].

Section Queries.
Context `{P : Platform}.

Lemma GetValue_asks property : ensures (logged query_call) (GetValue property).
Proof. unfold GetValue. logged_walk. Qed.

Lemma GetIValue_asks property : ensures (logged query_call) (GetIValue property).
Proof. unfold GetIValue. logged_walk. Qed.

Lemma EnumNames_loop_asks {S} budget psaNames i lUpper acc :
  ensures (S := S) (logged query_call) (EnumNames_loop budget psaNames i lUpper acc).
Proof.
  revert i acc. induction budget as [|budget IH]; intros i acc;
    cbn [EnumNames_loop]; logged_walk.
Qed.

Lemma EnumNames_asks {S} pClass : ensures (S := S) (logged query_call) (EnumNames pClass).
Proof. unfold EnumNames. pose proof (@EnumNames_loop_asks S). logged_walk. Qed.

Lemma GetProperties_asks : ensures (logged query_call) GetProperties.
Proof. unfold GetProperties. pose proof (@EnumNames_asks Object). logged_walk. Qed.

Lemma GetMethods_loop_asks {S} fuel cd acc :
  ensures (S := S) (logged query_call) (GetMethods_loop fuel cd acc).
Proof.
  pose proof (@EnumNames_asks S).
  revert acc. induction fuel as [|fuel IH]; intros acc;
    cbn [GetMethods_loop]; logged_walk.
Qed.

Lemma GetMethods_asks fuel : ensures (logged query_call) (GetMethods fuel).
Proof.
  unfold GetMethods. pose proof GetValue_asks.
  pose proof (@GetMethods_loop_asks Object). logged_walk.
Qed.

Lemma GetInstances_loop_asks fuel pEnum acc :
  ensures (logged query_call) (GetInstances_loop fuel pEnum acc).
Proof.
  revert acc. induction fuel as [|fuel IH]; intros acc;
    destruct pEnum as [enum|]; cbn [GetInstances_loop]; logged_walk.
Qed.

Lemma GetInstances_asks fuel lpClassName :
  ensures (logged query_call) (GetInstances fuel lpClassName).
Proof. unfold GetInstances. pose proof GetInstances_loop_asks. logged_walk. Qed.

Lemma GetObject_asks lpObjectName : ensures (logged query_call) (GetObject lpObjectName).
Proof. unfold GetObject. logged_walk. Qed.

Lemma GetClassNames_loop_asks {S} fuel enumerator acc :
  ensures (S := S) (logged query_call) (GetClassNames_loop fuel enumerator acc).
Proof.
  revert acc. induction fuel as [|fuel IH]; intros acc;
    destruct enumerator; cbn [GetClassNames_loop]; logged_walk.
Qed.

Lemma GetClassNames_asks fuel filter :
  ensures (logged query_call) (GetClassNames fuel filter).
Proof.
  unfold GetClassNames. pose proof (@GetClassNames_loop_asks Services). logged_walk.
Qed.

Lemma Services_ctor_asks lpResourcePath :
  ensures (logged query_call) (Services_ctor lpResourcePath).
Proof. unfold Services_ctor. logged_walk. Qed.

Lemma ExecMethod_put_invokes {S} lpMethodName pInst (iparams rest : list (string * VARIANT)) :
  rest ⊆ iparams →
  ensures (S := S) (logged (invokes lpMethodName iparams)) (ExecMethod_put pInst rest).
Proof.
  induction rest as [|p rest IH]; intros Hsub; cbn [ExecMethod_put].
  - logged_walk.
  - assert (p ∈ iparams) as Hp by (apply Hsub; left).
    assert (rest ⊆ iparams) as Hr by (intros x Hx; apply Hsub; by right).
    specialize (IH Hr). destruct p as [n v]. logged_walk.
Qed.

Lemma ExecMethod_drain_invokes {S} lpMethodName iparams fuel o oparams :
  ensures (S := S) (logged (invokes lpMethodName iparams))
    (ExecMethod_drain fuel o oparams).
Proof.
  revert oparams. induction fuel as [|fuel IH]; intros oparams;
    cbn [ExecMethod_drain]; logged_walk.
Qed.

Lemma query_call_invokes lpMethodName iparams e :
  query_call e → invokes lpMethodName iparams e.
Proof.
  intros [Hu Ha]. split; [done|]. unfold is_update in Hu.
  by destruct (ev_call e).
Qed.

End Queries.

(** X12.  No operation other than [ExecMethod] writes a property, spawns
    an instance or runs a method: [Put], [SpawnInstance] and
    [IWbemServices::ExecMethod] are never called by it, however it
    ends. *)
Theorem only_ExecMethod_updates `{P : Platform} (op : operation) (w : World) :
  is_ExecMethod op = false →
  Forall (λ e, is_update e = false) (perform op w).2.
Proof.
  assert (∀ S A (m : M S A), ensures (logged query_call) m →
            ∀ s w, Forall (λ e, is_update e = false) (summary (m s w)).2) as Hq.
  { intros S A m Hm s w'. eapply Forall_impl; [apply Hm|]. by intros e [? _]. }
  destruct op; cbn [is_ExecMethod perform]; intros Hop; try discriminate.
  - rewrite run_ComInit_ctor. by repeat constructor.
  - rewrite run_ComInit_dtor. destruct (ok this); by repeat constructor.
  - apply Hq, EnumNames_asks.
  - apply Hq, GetProperties_asks.
  - apply Hq, GetValue_asks.
  - apply Hq, GetIValue_asks.
  - apply Hq, GetMethods_asks.
  - apply Hq, Services_ctor_asks.
  - apply Hq, GetInstances_asks.
  - apply Hq, GetObject_asks.
  - apply Hq, GetClassNames_asks.
Qed.

Lemma only_ExecMethod_updates_witness :
  Forall (λ e, is_update e = false)
    (perform (P := Scripted.platform) (Op_GetMethods 5 Demo.disk)
       Sessions.methods_script).2.
Proof.
  refine (only_ExecMethod_updates (P := Scripted.platform)
            (Op_GetMethods 5 Demo.disk) Sessions.methods_script _).
  reflexivity.
Defined.

(** X13.  However a run of [ExecMethod] ends, each [Put] it made wrote a
    pair of [iparams] with the variant's own type, and each method it ran
    is [lpMethodName], synchronously; it called neither [CoInitializeEx]
    nor [CoUninitialize]. *)
Theorem ExecMethod_touches_only_its_arguments `{P : Platform}
    fuel lpMethodName iparams oparams this w :
  Forall (invokes lpMethodName iparams)
    (log (ExecMethod fuel lpMethodName iparams oparams this w)).
Proof.
  revert this w. change (ensures (logged (invokes lpMethodName iparams))
                           (ExecMethod fuel lpMethodName iparams oparams)).
  unfold ExecMethod.
  assert (∀ property,
    ensures (logged (invokes lpMethodName iparams)) (GetValue property)) as HG.
  { intros property. eapply logged_impl; [|apply GetValue_asks].
    apply query_call_invokes. }
  pose proof (λ pInst, ExecMethod_put_invokes (S := Object) lpMethodName pInst
                         iparams iparams (reflexivity _)).
  pose proof (ExecMethod_drain_invokes (S := Object) lpMethodName iparams).
  logged_walk.
Qed.

Lemma ExecMethod_touches_only_its_arguments_witness :
  invokes "chkdsk" Demo.chkdsk_params
    (Ev 358 (IWbemClassObject_Put 13%nat "FixErrors" (VariantOfBool false) VT_BOOL)
        Demo.WBEM_E_TYPE_MISMATCH).
Proof.
  refine (proj1 (Forall_forall _ _)
            (ExecMethod_touches_only_its_arguments (P := Scripted.platform) 5
               "chkdsk" Demo.chkdsk_params ∅ Demo.disk Demo.put_refused_script) _ _).
  apply (list_elem_of_lookup_2 _ 4%nat). by vm_compute.
Defined.

(** *** Failing before the invocation *)

Section Invocation_facts.
Context `{P : Platform}.

(** Before the invocation. *)
Lemma fbi_bind {S A B} (m : M S A) (k : A → M S B) :
  ensures (logged (λ e, is_invocation e = false)) m →
  (∀ a, ensures fails_before_invoking (k a)) →
  ensures fails_before_invoking (bind m k).
Proof.
  intros Hm Hk s w. unfold bind. specialize (Hm s w).
  destruct (m s w) as [o s1 w1 l1]. unfold logged in Hm. cbn [log] in Hm.
  destruct o as [a|e| | |]; cbn [out log abnormal];
    try (by right); try (left; by right).
  rewrite out_prepend, log_prepend.
  destruct (Hk a s1 w1) as [Hf|Hl]; [by left|]. right. by apply Forall_app.
Qed.

(** The invocation and what follows it. *)
Lemma fbi_invocation {S B} line c (k : Reply c → M S B) :
  (∀ r s w, finishes (out (k r s w))) →
  ensures fails_before_invoking (bind (call line c) k).
Proof.
  intros Hk s w. rewrite bind_call, out_prepend. left. apply Hk.
Qed.

Lemma ExecMethod_drain_finishes {S} fuel o oparams (s : S) w :
  finishes (out (ExecMethod_drain fuel o oparams s w)).
Proof.
  revert oparams w. induction fuel as [|fuel IH]; intros oparams w;
    cbn [ExecMethod_drain]; [by right|].
  autorewrite with run.
  destruct (respond (IWbemClassObject_Next o) w) as [[[hr nm] val] w1]. cbn [fst snd].
  destruct nm as [nm|]; [|by left].
  destruct (String.eqb nm "ReturnValue"); apply IH.
Qed.

Lemma ExecMethod_put_quiet {S} pInst iparams :
  ensures (S := S) (logged (λ e, is_invocation e = false))
    (ExecMethod_put pInst iparams).
Proof. induction iparams as [|p rest IH]; cbn [ExecMethod_put]; logged_walk. Qed.

Lemma GetValue_quiet property :
  ensures (logged (λ e, is_invocation e = false)) (GetValue property).
Proof. unfold GetValue. logged_walk. Qed.

End Invocation_facts.

(** X20.  [ExecMethod] fails only before it invokes: a run in which
    [IWbemServices::ExecMethod] was called returns (or goes on draining
    the out parameters for as long as the loop budget lasts); it ends
    neither in an exception nor in undefined behaviour. *)
Theorem ExecMethod_fails_only_before_invoking `{P : Platform}
    fuel lpMethodName iparams oparams this w :
  let r := ExecMethod fuel lpMethodName iparams oparams this w in
  Exists (λ e, is_invocation e = true) (log r) → finishes (out r).
Proof.
  cbn zeta.
  assert (ensures fails_before_invoking
            (ExecMethod fuel lpMethodName iparams oparams)) as H.
  { unfold ExecMethod.
    pose proof GetValue_quiet. pose proof (ExecMethod_put_quiet (S := Object)).
    repeat first
      [ match goal with
        | |- ensures _ (bind (call 373 _) _) => apply fbi_invocation
        end
      | apply fbi_bind; [logged_walk | intros ?]
      | match goal with
        | |- ensures _ (match ?x with _ => _ end) => destruct x
        end ].
    intros [hr9 [o9|]] s9 w9; [|by left].
    autorewrite with run.
    destruct (respond (IWbemClassObject_Get o9 "ReturnValue") w9) as [[hr1 v] w1].
    cbn [fst snd]. autorewrite with run.
    destruct (respond (IWbemClassObject_BeginEnumeration o9 WBEM_FLAG_NONSYSTEM_ONLY) w1)
      as [hr2 w2]. cbn [fst snd].
    pose proof (ExecMethod_drain_finishes fuel o9 oparams s9 w2) as Hd.
    unfold bind at 1.
    destruct (ExecMethod_drain fuel o9 oparams s9 w2) as [[m| | | |] s3 w3 l3];
      destruct Hd as [Hd|Hd]; try done; [|by right].
    cbn [prepend]. autorewrite with run.
    destruct (respond (IWbemClassObject_EndEnumeration o9) w3) as [hr3 w4].
    cbn [fst snd]. autorewrite with run. by left. }
  intros Hex. destruct (H this w) as [Hf|Hl]; [done|].
  apply Exists_exists in Hex as (e & He & Hi).
  apply (proj1 (Forall_forall _ _) Hl) in He. congruence.
Qed.

Lemma ExecMethod_fails_only_before_invoking_witness :
  finishes (out (ExecMethod (P := Scripted.platform) 5 "chkdsk" Demo.chkdsk_params ∅
                   Demo.disk Sessions.chkdsk_refused_script)).
Proof.
  refine (ExecMethod_fails_only_before_invoking (P := Scripted.platform) 5 "chkdsk"
            Demo.chkdsk_params ∅ Demo.disk Sessions.chkdsk_refused_script _).
  apply Exists_exists.
  exists (Ev 373 (IWbemServices_ExecMethod 1%nat "Win32_LogicalDisk.DeviceID=G:"
                    "chkdsk" 0 (Some 13%nat)) (E_FAIL, None)).
  split; [|reflexivity]. apply (list_elem_of_lookup_2 _ 7%nat). by vm_compute.
Defined.

(** *** Operations without undefined behaviour *)

Section Defined_facts.
Context `{P : Platform}.

Lemma GetInstances_loop_defined fuel pEnum acc :
  ensures defined (GetInstances_loop fuel pEnum acc).
Proof.
  unfold defined.
  revert acc. induction fuel as [|fuel IH]; intros acc;
    destruct pEnum as [enum|]; cbn [GetInstances_loop];
    try (apply ensures_out_of_fuel; by split); walk within_side.
Qed.

Lemma GetValue_crash property this w f :
  out (GetValue property this w) = Crashed f →
  f = NullString 249 ∨ f = NullString 253.
Proof.
  unfold GetValue. autorewrite with run.
  destruct (m_pObj this) as [obj|]; cbn [is_null]; autorewrite with run; [|done].
  destruct (respond (IWbemClassObject_Get obj property) w) as [[hr val] w1].
  cbn [fst snd]. autorewrite with run.
  destruct (negb (hr =? S_OK)); cbn [negb]; [done|]. autorewrite with run.
  destruct (vt val =? VT_NULL); [done|].
  destruct (vt val =? VT_BOOL); [done|].
  destruct (negb _).
  - autorewrite with run.
    destruct (respond (VariantChangeType val VT_BSTR) w1) as [[hr' val'] w2].
    cbn [fst snd]. autorewrite with run.
    destruct (bstrVal val'); [done|]. intros [= <-]. by left.
  - autorewrite with run. destruct (bstrVal val); [done|]. intros [= <-]. by right.
Qed.

End Defined_facts.

Section Defined_runs.
Context `{P : Platform}.

Lemma GetIValue_defined property this w f :
  out (GetIValue property this w) ≠ Crashed f.
Proof.
  unfold GetIValue. autorewrite with run.
  destruct (m_pObj this) as [obj|]; cbn [is_null]; autorewrite with run; [|done].
  destruct (respond (IWbemClassObject_Get obj property) w) as [[hr val] w1].
  cbn [fst snd]. autorewrite with run.
  destruct (negb (hr =? S_OK)); cbn [negb]; [done|]. autorewrite with run.
  destruct (negb (vt val =? VT_INT)); [|by autorewrite with run].
  rewrite bind_assoc. autorewrite with run.
  destruct (respond (VariantChangeType val VT_INT) w1) as [[hr' val'] w2].
  cbn [fst snd]. by autorewrite with run.
Qed.

Lemma GetInstances_defined fuel lpClassName this w f :
  out (GetInstances fuel lpClassName this w) ≠ Crashed f.
Proof.
  unfold GetInstances. autorewrite with run.
  destruct (m_pService this) as [svc|]; cbn [is_null]; autorewrite with run; [|done].
  destruct (respond (IWbemServices_CreateInstanceEnum svc lpClassName 0) w)
    as [[hr pEnum] w1]. cbn [fst snd]. autorewrite with run.
  destruct (negb (hr =? S_OK)); cbn [negb]; [done|]. autorewrite with run.
  intros Hc. by apply (proj2 (GetInstances_loop_defined fuel pEnum [] this w1) f).
Qed.

Lemma GetObject_defined lpObjectName this w f :
  out (GetObject lpObjectName this w) ≠ Crashed f.
Proof.
  unfold GetObject. autorewrite with run.
  destruct (m_pService this) as [svc|]; cbn [is_null]; autorewrite with run; [|done].
  destruct (respond (IWbemServices_GetObject svc lpObjectName) w)
    as [[hr pObj] w1]. cbn [fst snd]. autorewrite with run.
  destruct (negb (hr =? S_OK)); cbn [negb]; [done|]. by autorewrite with run.
Qed.

End Defined_runs.

(** *** The causes of exceptions *)

Section Caused_facts.
Context `{P : Platform}.

Lemma cause_app e l1 l2 : cause e l2 → cause e (l1 ++ l2).
Proof.
  intros [Hg|(la & ev & lb & -> & Hc & Hhr & He & Hall)]; [by left|].
  right. exists (l1 ++ la), ev, lb. by rewrite <- app_assoc.
Qed.

Lemma cause_snoc_cleanup e l d : is_cleanup d = true → cause e l → cause e (l ++ [d]).
Proof.
  intros Hd [Hg|(la & ev & lb & -> & Hc & Hhr & He & Hall)]; [by left|].
  right. exists la, ev, (lb ++ [d]). rewrite <- app_assoc. cbn [app].
  split; [done|]. split; [done|]. split; [done|]. split; [done|].
  rewrite forallb_app, Hall. cbn. by rewrite Hd.
Qed.

Lemma caused_quiet {S A} (m : M S A) :
  (∀ s w e, out (m s w) ≠ Raised e) → ensures caused m.
Proof. intros H s w e He. by apply H in He. Qed.

Lemma caused_ret {S A} (a : A) : ensures (S := S) caused (ret a).
Proof. by apply caused_quiet. Qed.
Lemma caused_get_this {S} : ensures (S := S) caused get_this.
Proof. by apply caused_quiet. Qed.
Lemma caused_put_this {S} (s' : S) : ensures caused (put_this s').
Proof. by apply caused_quiet. Qed.
Lemma caused_crash {S A} f : ensures (S := S) (A := A) caused (crash f).
Proof. by apply caused_quiet. Qed.
Lemma caused_out_of_fuel {S A} : ensures (S := S) (A := A) caused out_of_fuel.
Proof. by apply caused_quiet. Qed.
Lemma caused_deref {S} line p : ensures (S := S) caused (deref line p).
Proof. apply caused_quiet. intros s w e. by destruct p. Qed.
Lemma caused_wstring_of {S} line b : ensures (S := S) caused (wstring_of line b).
Proof. apply caused_quiet. intros s w e. by destruct b. Qed.
Lemma caused_incr_long {S} line i : ensures (S := S) caused (incr_long line i).
Proof. apply caused_quiet. intros s w e. unfold incr_long. by destruct (_ =? _). Qed.

Lemma caused_guard {S} line cond :
  line ∈ guard_lines →
  ensures (S := S) caused (throw_if cond (hr_error line E_POINTER)).
Proof.
  intros Hl s w e. destruct cond; cbn; [|done]. intros [= <-]. by left.
Qed.

Lemma caused_bind {S A B} (m : M S A) (k : A → M S B) :
  ensures caused m → (∀ a, ensures caused (k a)) → ensures caused (bind m k).
Proof.
  intros Hm Hk s w. unfold bind. specialize (Hm s w).
  destruct (m s w) as [o s1 w1 l1]. cbn in Hm.
  destruct o as [a|e0| | |]; cbn [out log abnormal].
  - rewrite out_prepend, log_prepend. intros e He. apply cause_app. by apply Hk.
  - intros e [= <-]. by apply Hm.
  - by intros e.
  - by intros e.
  - by intros e.
Qed.

(** A call and what the code does with its answer: it throws at once
    because the answer is a failure it checks for, or it goes on. *)
Lemma caused_checked_call {S B} line c (k : Reply c → M S B) :
  (∀ r, (∃ ln, checked (Ev line c r) = true ∧ hr_of c r ≠ S_OK ∧
               ∀ s w, k r s w =
                 Res (Raised (mkExn ln (expected_code (Ev line c r)))) s w []) ∨
        ensures caused (k r)) →
  ensures caused (bind (call line c) k).
Proof.
  intros H s w. rewrite bind_call. unfold caused.
  rewrite out_prepend, log_prepend.
  destruct (respond c w) as [r w1]. cbn [fst snd].
  destruct (H r) as [(ln & Hc & Hhr & Hk)|Hk].
  - rewrite Hk. cbn [out log]. intros e [= <-]. right.
    by exists [], (Ev line c r), [].
  - intros e He. apply (cause_app _ [_]). by apply Hk.
Qed.

Lemma caused_with_SAHandle {S A} psa (body : M S A) :
  ensures caused body → ensures caused (with_SAHandle psa body).
Proof.
  intros Hb s w. rewrite run_with_SAHandle. specialize (Hb s w).
  destruct (body s w) as [o s1 w1 l1]. cbn [out log] in Hb.
  destruct o, psa as [h|]; cbn [out log]; try done.
  all: destruct (_ =? S_OK); try done.
  intros e' He. by apply cause_snoc_cleanup, Hb.
Qed.

End Caused_facts.

Ltac caused_call :=
  match goal with
  | |- ensures caused (bind (call ?L ?c) ?k) =>
      apply caused_checked_call;
      let r := fresh "r" in
      intros r; split_reply r; cbn beta iota;
      lazymatch goal with
      | |- _ ∨ ensures caused (bind (throw_if (negb (?hr =? S_OK)) _) _) =>
          let Hne := fresh "Hne" in
          destruct (Z.eqb_spec hr S_OK) as [->|Hne];
          [ right; change (S_OK =? S_OK) with true; cbn [negb throw_if]
          | left; eexists; split; [by vm_compute|]; split; [done|];
            intros ? ?; autorewrite with run; reflexivity ]
      | |- _ => right
      end
  end.

Ltac caused_walk :=
  repeat first
    [ solve [auto 2]
    | apply caused_with_SAHandle
    | apply caused_guard; by apply (bool_decide_unpack _)
    | caused_call
    | apply caused_ret
    | apply caused_get_this
    | apply caused_put_this
    | apply caused_crash
    | apply caused_out_of_fuel
    | apply caused_deref
    | apply caused_wstring_of
    | apply caused_incr_long
    | apply caused_bind; [ | intros ?]
    | match goal with
      | |- ensures _ (match ?x with _ => _ end) => destruct x
      end ].

Section Caused_runs.
Context `{P : Platform}.

Lemma GetValue_caused property : ensures caused (GetValue property).
Proof. unfold GetValue. caused_walk. Qed.

Lemma GetIValue_caused property : ensures caused (GetIValue property).
Proof. unfold GetIValue. caused_walk. Qed.

Lemma EnumNames_loop_caused {S} budget psaNames i lUpper acc :
  ensures (S := S) caused (EnumNames_loop budget psaNames i lUpper acc).
Proof.
  revert i acc. induction budget as [|budget IH]; intros i acc;
    cbn [EnumNames_loop]; caused_walk.
Qed.

Lemma EnumNames_caused {S} pClass : ensures (S := S) caused (EnumNames pClass).
Proof. unfold EnumNames. pose proof (@EnumNames_loop_caused S). caused_walk. Qed.

Lemma GetProperties_caused : ensures caused GetProperties.
Proof. unfold GetProperties. pose proof (@EnumNames_caused Object). caused_walk. Qed.

Lemma GetMethods_loop_caused {S} fuel cd acc :
  ensures (S := S) caused (GetMethods_loop fuel cd acc).
Proof.
  pose proof (@EnumNames_caused S).
  revert acc. induction fuel as [|fuel IH]; intros acc;
    cbn [GetMethods_loop]; caused_walk.
Qed.

Lemma GetMethods_caused fuel : ensures caused (GetMethods fuel).
Proof.
  unfold GetMethods. pose proof GetValue_caused.
  pose proof (@GetMethods_loop_caused Object). caused_walk.
Qed.

Lemma ExecMethod_put_caused {S} pInst iparams :
  ensures (S := S) caused (ExecMethod_put pInst iparams).
Proof. induction iparams as [|p rest IH]; cbn [ExecMethod_put]; caused_walk. Qed.

Lemma ExecMethod_drain_caused {S} fuel o oparams :
  ensures (S := S) caused (ExecMethod_drain fuel o oparams).
Proof.
  revert oparams. induction fuel as [|fuel IH]; intros oparams;
    cbn [ExecMethod_drain]; caused_walk.
Qed.

Lemma ExecMethod_caused fuel lpMethodName iparams oparams :
  ensures caused (ExecMethod fuel lpMethodName iparams oparams).
Proof.
  unfold ExecMethod. pose proof GetValue_caused.
  pose proof (@ExecMethod_put_caused Object).
  pose proof (@ExecMethod_drain_caused Object). caused_walk.
Qed.

Lemma GetInstances_loop_caused fuel pEnum acc :
  ensures caused (GetInstances_loop fuel pEnum acc).
Proof.
  revert acc. induction fuel as [|fuel IH]; intros acc;
    destruct pEnum as [enum|]; cbn [GetInstances_loop]; try by caused_walk.
  apply caused_checked_call. intros [[hr p] returned].
  rewrite checked_478. cbn [hr_of fst snd].
  destruct (Z.eqb_spec returned 0) as [->|Hret].
  { right. caused_walk. }
  destruct (Z.eqb_spec hr S_OK) as [->|Hhr].
  - right. cbn [negb throw_if]. caused_walk.
  - left. exists 481%nat. split; [done|]. split; [done|]. intros s w.
    by autorewrite with run.
Qed.

Lemma GetInstances_caused fuel lpClassName :
  ensures caused (GetInstances fuel lpClassName).
Proof. unfold GetInstances. pose proof GetInstances_loop_caused. caused_walk. Qed.

Lemma GetObject_caused lpObjectName : ensures caused (GetObject lpObjectName).
Proof. unfold GetObject. caused_walk. Qed.

Lemma GetClassNames_loop_caused {S} fuel enumerator acc :
  ensures (S := S) caused (GetClassNames_loop fuel enumerator acc).
Proof.
  revert acc. induction fuel as [|fuel IH]; intros acc;
    destruct enumerator; cbn [GetClassNames_loop]; caused_walk.
Qed.

Lemma GetClassNames_caused fuel filter : ensures caused (GetClassNames fuel filter).
Proof.
  unfold GetClassNames. pose proof (@GetClassNames_loop_caused Services). caused_walk.
Qed.

Lemma ComInit_ctor_caused : ensures caused ComInit_ctor.
Proof. unfold ComInit_ctor. caused_walk. Qed.

Lemma caused_summary {S A} (r : result World S A) e :
  caused A (out r) (log r) → (summary r).1 = Raised e → cause e (summary r).2.
Proof.
  unfold summary. cbn [fst snd]. intros H He. apply H.
  by destruct (out r); cbn in He; simplify_eq.
Qed.

End Caused_runs.

(** X14.  An exception that leaves an operation has a cause: it comes
    from a test for a null member and carries the translation of
    [E_POINTER]; or a call whose HRESULT is checked answered other than
    [S_OK], the exception carries the translation of that HRESULT
    ([ComInit]: no code), and after that call only arrays were
    destroyed. *)
Theorem exceptions_have_causes `{P : Platform} (op : operation) (w : World) (e : exn) :
  (perform op w).1 = Raised e → cause e (perform op w).2.
Proof.
  destruct op; cbn [perform].
  - apply caused_summary, ComInit_ctor_caused.
  - unfold summary. rewrite run_ComInit_dtor. by destruct (ok this).
  - apply caused_summary, (EnumNames_caused (S := unit)).
  - apply caused_summary, GetProperties_caused.
  - apply caused_summary, GetValue_caused.
  - apply caused_summary, GetIValue_caused.
  - apply caused_summary, GetMethods_caused.
  - apply caused_summary, ExecMethod_caused.
  - unfold summary. cbn [fst]. intros He. exfalso. revert He.
    unfold Services_ctor.
    match goal with
    | |- context [noexcept ?m ?s ?w] =>
        pose proof (noexcept_never_raises m s w e) as Hn;
        destruct (out (noexcept m s w)); cbn; congruence
    end.
  - apply caused_summary, GetInstances_caused.
  - apply caused_summary, GetObject_caused.
  - apply caused_summary, GetClassNames_caused.
Qed.

Lemma exceptions_have_causes_witness :
  cause (P := Scripted.platform) (hr_error (P := Scripted.platform) 137 E_FAIL)
    (perform (P := Scripted.platform) (Op_EnumNames (Some 10%nat))
       Demo.bound_fails_script).2.
Proof.
  refine (exceptions_have_causes (P := Scripted.platform)
            (Op_EnumNames (Some 10%nat)) Demo.bound_fails_script
            (hr_error (P := Scripted.platform) 137 E_FAIL) _).
  by vm_compute.
Defined.

(** *** [main] *)

Section Yields_facts.
Context `{P : Platform}.

Lemma yields_ret {S A} (v : A) : yields (S := S) v (ret v).
Proof. by intros s w a [= <-]. Qed.

Lemma yields_bind {S A B} (v : B) (m : M S A) (k : A → M S B) :
  (∀ a, yields v (k a)) → yields v (bind m k).
Proof.
  intros Hk s w b. unfold bind.
  destruct (m s w) as [[a| | | |] s1 w1 l1]; try done.
  rewrite out_prepend. apply Hk.
Qed.

Lemma yields_scoped {S A} (v : A) (dtor : M S unit) (body : M S A) :
  yields v body → yields v (scoped dtor body).
Proof.
  intros Hb s w a. unfold scoped. specialize (Hb s w).
  destruct (body s w) as [[a'| | | |] s1 w1 l1]; try done.
  - destruct (noexcept dtor s1 w1) as [[| | | |] s2 w2 l2]; try done.
    cbn. intros [= <-]. by apply Hb.
  - by destruct (noexcept dtor s1 w1) as [[| | | |] s2 w2 l2].
Qed.

End Yields_facts.

Section Main_facts.
Context `{P : Platform}.

Lemma bind_run {S A B} (m : M S A) (k : A → M S B) s w :
  bind m k s w =
  match m s w with
  | Res (Done a) s1 w1 l1 => prepend l1 (k a s1 w1)
  | Res o s1 w1 l1 => Res (abnormal o) s1 w1 l1
  end.
Proof. reflexivity. Qed.

Lemma on_run {S S' A} (this' : S') (m : M S' A) (s : S) w :
  on this' m s w =
  match m this' w with
  | Res (Done a) s1 w1 l1 => Res (Done (a, s1)) s w1 l1
  | Res o _ w1 l1 => Res (abnormal o) s w1 l1
  end.
Proof. reflexivity. Qed.

Context (opts : Options).

Lemma GetValue_main property : ensures (logged (main_call opts)) (GetValue property).
Proof. unfold GetValue. logged_walk. Qed.

Lemma EnumNames_loop_main {S} budget psaNames i lUpper acc :
  ensures (S := S) (logged (main_call opts))
    (EnumNames_loop budget psaNames i lUpper acc).
Proof.
  revert i acc. induction budget as [|budget IH]; intros i acc;
    cbn [EnumNames_loop]; logged_walk.
Qed.

Lemma EnumNames_main {S} pClass :
  ensures (S := S) (logged (main_call opts)) (EnumNames pClass).
Proof. unfold EnumNames. pose proof (@EnumNames_loop_main S). logged_walk. Qed.

Lemma GetProperties_main : ensures (logged (main_call opts)) GetProperties.
Proof. unfold GetProperties. pose proof (@EnumNames_main Object). logged_walk. Qed.

Lemma GetMethods_loop_main {S} fuel cd acc :
  ensures (S := S) (logged (main_call opts)) (GetMethods_loop fuel cd acc).
Proof.
  pose proof (@EnumNames_main S).
  revert acc. induction fuel as [|fuel IH]; intros acc;
    cbn [GetMethods_loop]; logged_walk.
Qed.

Lemma GetMethods_main fuel : ensures (logged (main_call opts)) (GetMethods fuel).
Proof.
  unfold GetMethods. pose proof GetValue_main.
  pose proof (@GetMethods_loop_main Object). logged_walk.
Qed.

Lemma GetInstances_loop_main fuel pEnum acc :
  ensures (logged (main_call opts)) (GetInstances_loop fuel pEnum acc).
Proof.
  revert acc. induction fuel as [|fuel IH]; intros acc;
    destruct pEnum as [enum|]; cbn [GetInstances_loop]; logged_walk.
Qed.

Lemma GetInstances_main fuel :
  test_properties opts || test_methods opts = true →
  ensures (logged (main_call opts)) (GetInstances fuel "Win32_LogicalDisk").
Proof.
  intros Hopt. unfold GetInstances. pose proof GetInstances_loop_main. logged_walk.
Qed.

Lemma GetObject_main lpObjectName :
  ensures (logged (main_call opts)) (GetObject lpObjectName).
Proof. unfold GetObject. logged_walk. Qed.

Lemma GetClassNames_loop_main {S} fuel enumerator acc :
  ensures (S := S) (logged (main_call opts))
    (GetClassNames_loop fuel enumerator acc).
Proof.
  revert acc. induction fuel as [|fuel IH]; intros acc;
    destruct enumerator; cbn [GetClassNames_loop]; logged_walk.
Qed.

Lemma GetClassNames_main fuel :
  test_enumeration opts || negb (String.eqb (targetName opts) EmptyString) = true →
  ensures (logged (main_call opts)) (GetClassNames fuel (targetName opts)).
Proof.
  intros Hopt. unfold GetClassNames. cbn zeta.
  pose proof (@GetClassNames_loop_main Services). logged_walk.
Qed.

Lemma Services_ctor_main :
  ensures (logged (main_call opts)) (Services_ctor "ROOT\CIMV2").
Proof. unfold Services_ctor. logged_walk. Qed.

Lemma ExecMethod_drain_main {S} fuel o oparams :
  ensures (S := S) (logged (main_call opts)) (ExecMethod_drain fuel o oparams).
Proof.
  revert oparams. induction fuel as [|fuel IH]; intros oparams;
    cbn [ExecMethod_drain]; logged_walk.
Qed.

Lemma ExecMethod_main fuel oparams :
  test_methods opts = true →
  ensures (logged (main_call opts))
    (ExecMethod fuel "chkdsk" chkdsk_iparams oparams).
Proof.
  intros Hopt. unfold ExecMethod, chkdsk_iparams. cbn [ExecMethod_put].
  pose proof GetValue_main. pose proof (@ExecMethod_drain_main Object).
  logged_walk.
Qed.

Lemma main_not_elevated fuel w :
  main fuel false opts tt w = Res (Done (-1)) tt w [].
Proof. unfold main, main_try, try_catch. by rewrite bind_throw_if. Qed.

Lemma main_help fuel w :
  help opts = true → main fuel true opts tt w = Res (Done 0) tt w [].
Proof.
  intros Hh. unfold main, main_try, try_catch. rewrite bind_throw_if.
  cbn [negb]. by rewrite Hh.
Qed.

(** How [main] runs once the process is elevated and no help is asked
    for. *)
Lemma main_run fuel w :
  help opts = false →
  let a := respond (CoInitializeEx COINIT_APARTMENTTHREADED) w in
  let r := main fuel true opts tt w in
  if a.1 =? S_OK then
    ∃ body_log,
      Forall (main_call opts) body_log ∧
      ((∃ v, out r = Done v ∧ (v = 0 ∨ v = -1) ∧
             log r = Ev 64 (CoInitializeEx COINIT_APARTMENTTHREADED) a.1
                     :: body_log ++ [Ev 73 CoUninitialize tt]) ∨
       (is_Done (out r) = false ∧ (∀ e, out r ≠ Raised e) ∧
        log r = Ev 64 (CoInitializeEx COINIT_APARTMENTTHREADED) a.1 :: body_log))
  else r = Res (Done (-1)) tt a.2
             [Ev 64 (CoInitializeEx COINIT_APARTMENTTHREADED) a.1].
Proof.
  intros Hhelp. cbn zeta. unfold main, main_try, try_catch.
  rewrite bind_throw_if. cbn [negb]. rewrite Hhelp.
  rewrite bind_run, (on_run (mkComInit false) ComInit_ctor), run_ComInit_ctor.
  cbn zeta.
  destruct (respond (CoInitializeEx COINIT_APARTMENTTHREADED) w) as [hr w1].
  cbn [fst snd].
  destruct (Z.eqb_spec hr S_OK) as [->|Hhr]; cbn [abnormal prepend snd];
    [|by rewrite run_ret].
  match goal with
  | |- context [scoped ?d ?b tt w1] => set (body := b)
  end.
  assert (ensures (logged (main_call opts)) body) as Hlog.
  { unfold body.
    pose proof GetValue_main. pose proof GetProperties_main.
    pose proof GetMethods_main. pose proof GetObject_main.
    pose proof Services_ctor_main.
    pose proof GetInstances_main. pose proof GetClassNames_main.
    pose proof ExecMethod_main.
    destruct (test_enumeration opts || negb (String.eqb (targetName opts) EmptyString))
      eqn:Hte;
      destruct (test_properties opts) eqn:Htp;
      destruct (test_methods opts) eqn:Htm; cbn [orb] in *;
      logged_walk. }
  assert (yields 0 body) as Hy.
  { unfold body. repeat first [ apply yields_ret | apply yields_bind; intros ? ]. }
  clearbody body. rename body into b.
  unfold scoped. specialize (Hlog tt w1). specialize (Hy tt w1).
  destruct (b tt w1) as [o s1 w2 l1]. unfold logged in Hlog. cbn [out log] in *.
  exists l1. split; [done|].
  assert (noexcept (bind (on (mkComInit true) ComInit_dtor) (λ _, ret tt)) s1 w2
          = Res (Done tt) s1 (respond CoUninitialize w2).2 [Ev 73 CoUninitialize tt])
    as Hd.
  { unfold noexcept, bind, on. rewrite run_ComInit_dtor. cbn [ok prepend].
    by rewrite run_ret. }
  destruct o as [v|e| | |]; rewrite ?Hd; cbn [prepend out log app is_Done].
  - left. exists v. split; [done|]. split; [left; by apply Hy|done].
  - left. rewrite run_ret. cbn [prepend out log]. exists (-1).
    split; [done|]. split; [by right|]. by rewrite app_nil_r.
  - right. by repeat split.
  - right. by repeat split.
  - right. by repeat split.
Qed.

End Main_facts.

(** X15.  [main] lets no exception out and returns 0 or -1.  It returns
    -1 without a call when the process is not elevated, 0 without a call
    when help is asked for, and -1 after the one call when
    [CoInitializeEx] answers other than [S_OK]. *)
Theorem main_exit_code `{P : Platform} fuel elevated opts w :
  let a := respond (CoInitializeEx COINIT_APARTMENTTHREADED) w in
  let r := main fuel elevated opts tt w in
  (∀ e, out r ≠ Raised e) ∧
  (∀ v, out r = Done v → v = 0 ∨ v = -1) ∧
  (elevated = false → r = Res (Done (-1)) tt w []) ∧
  (elevated = true → help opts = true → r = Res (Done 0) tt w []) ∧
  (elevated = true → help opts = false → a.1 ≠ S_OK →
     r = Res (Done (-1)) tt a.2
           [Ev 64 (CoInitializeEx COINIT_APARTMENTTHREADED) a.1]).
Proof.
  cbn zeta. destruct elevated.
  2: { rewrite main_not_elevated. repeat split; try done.
       intros v [= <-]. by right. }
  destruct (help opts) eqn:Hh.
  { rewrite main_help by done. repeat split; try done.
    intros v [= <-]. by left. }
  pose proof (main_run opts fuel w Hh) as Hrun. cbn zeta in Hrun.
  destruct (Z.eqb_spec (respond (CoInitializeEx COINIT_APARTMENTTHREADED) w).1 S_OK)
    as [Hok|Hne].
  - destruct Hrun as (body_log & _ & [(v & Hv & Hv01 & _)|(Hnd & Hnr & _)]).
    + rewrite Hv. repeat split; try done. by intros v' [= <-].
    + repeat split; try done. intros v Hv. by rewrite Hv in Hnd.
  - rewrite Hrun. repeat split; try done. intros v [= <-]. by right.
Qed.

Lemma main_exit_code_witness :
  main (P := Scripted.platform) 5 false Demo.no_tests tt Sessions.bootstrap_script
  = Res (Done (-1)) tt Sessions.bootstrap_script [].
Proof.
  refine (proj1 (proj2 (proj2 (main_exit_code (P := Scripted.platform) 5 false
            Demo.no_tests Sessions.bootstrap_script))) _).
  reflexivity.
Defined.

(** X16.  Once [CoInitializeEx] has answered [S_OK], a run of [main] that
    returns has called [CoUninitialize] once, as its last call; a run that
    does not return has not called it.  No other call of [CoInitializeEx]
    or [CoUninitialize] is made. *)
Theorem main_uninitializes_COM `{P : Platform} fuel opts w :
  help opts = false →
  (respond (CoInitializeEx COINIT_APARTMENTTHREADED) w).1 = S_OK →
  let r := main fuel true opts tt w in
  ∃ body_log,
    Forall (λ e, is_apartment e = false) body_log ∧
    log r = Ev 64 (CoInitializeEx COINIT_APARTMENTTHREADED) S_OK
            :: body_log ++
               (if is_Done (out r) then [Ev 73 CoUninitialize tt] else []).
Proof.
  intros Hh Hok. pose proof (main_run opts fuel w Hh) as Hrun. cbn zeta in *.
  rewrite Hok in Hrun. change (S_OK =? S_OK) with true in Hrun.
  destruct Hrun as (body_log & Hall & H). exists body_log. split.
  { eapply Forall_impl; [done|]. by intros e [? _]. }
  destruct H as [(v & -> & _ & ->)|(Hnd & _ & ->)]; [done|].
  by rewrite Hnd, app_nil_r.
Qed.

Lemma main_uninitializes_COM_witness :
  ∃ body_log,
    Forall (λ e, is_apartment e = false) body_log ∧
    log (main (P := Scripted.platform) 5 true Demo.no_tests tt
           (Sessions.bootstrap_script ++ [Scripted.A_void]))
    = Ev 64 (CoInitializeEx COINIT_APARTMENTTHREADED) S_OK
      :: body_log ++
         (if is_Done (out (main (P := Scripted.platform) 5 true Demo.no_tests tt
                             (Sessions.bootstrap_script ++ [Scripted.A_void])))
          then [Ev 73 CoUninitialize tt] else []).
Proof.
  refine (main_uninitializes_COM (P := Scripted.platform) 5 Demo.no_tests
            (Sessions.bootstrap_script ++ [Scripted.A_void]) _ _); reflexivity.
Defined.

(** X17.  Every call of a run of [main] is one its options allow: the
    connection is to [ROOT\CIMV2]; classes are queried only with [-te] or
    a target name, with the query built from that name; instances are
    enumerated only of [Win32_LogicalDisk] and only with [-tp] or [-tm];
    and a method is prepared, written to and run only with [-tm], and then
    [chkdsk] with [FixErrors] and [OKToRunAtBootUp] false. *)
Theorem main_asks_what_options_allow `{P : Platform} fuel elevated opts w :
  Forall (option_call opts) (log (main fuel elevated opts tt w)).
Proof.
  destruct elevated; [|rewrite main_not_elevated; constructor].
  destruct (help opts) eqn:Hh; [rewrite main_help by done; constructor|].
  pose proof (main_run opts fuel w Hh) as Hrun. cbn zeta in Hrun.
  destruct (Z.eqb_spec (respond (CoInitializeEx COINIT_APARTMENTTHREADED) w).1 S_OK)
    as [Hok|Hne].
  2: { rewrite Hrun. cbn [log]. by repeat constructor. }
  destruct Hrun as (body_log & Hall & H).
  assert (Forall (option_call opts) body_log) as Hbody.
  { eapply Forall_impl; [done|]. by intros e [_ ?]. }
  destruct H as [(v & _ & _ & ->)|(_ & _ & ->)].
  - constructor; [done|]. apply Forall_app. split; [done|]. by repeat constructor.
  - by constructor.
Qed.

Lemma main_asks_what_options_allow_witness :
  option_call Sessions.test_methods_only
    (Ev 358 (IWbemClassObject_Put 13%nat "FixErrors" (VariantOfBool false) VT_BOOL)
        S_OK).
Proof.
  refine (proj1 (Forall_forall _ _)
            (main_asks_what_options_allow (P := Scripted.platform) 5 true
               Sessions.test_methods_only Sessions.chkdsk_run_script) _ _).
  apply (list_elem_of_lookup_2 _ 13%nat). by vm_compute.
Defined.

(** *** The places of undefined behaviour *)

Section Faulty_facts.
Context `{P : Platform}.

Lemma faulty_with_SAHandle {S A} faults psa (body : M S A) :
  ensures (faulty faults) body → ensures (faulty faults) (with_SAHandle psa body).
Proof.
  intros Hb s w. rewrite run_with_SAHandle. specialize (Hb s w).
  destruct (body s w) as [o s1 w1 l1]. destruct Hb as [Hl Hf]. cbn [out log] in *.
  destruct o, psa as [h|]; cbn [out log]; try done.
  all: split; [apply Forall_app; split; [done | by repeat constructor]|].
  all: intros f; by destruct (_ =? S_OK).
Qed.

Lemma faulty_subseteq {S A} faults faults' (m : M S A) :
  faults ⊆ faults' → ensures (faulty faults) m → ensures (faulty faults') m.
Proof.
  intros Hsub Hm s w. destruct (Hm s w) as [Hl Hf]. split; [done|].
  intros f Hc. by apply Hsub, Hf.
Qed.

End Faulty_facts.

Ltac faulty_side :=
  unfold faulty, within; split;
  [ repeat constructor
  | first [ done | intros ? [= <-]; cbn; repeat constructor ] ].

Ltac faulty_walk :=
  repeat first
    [ solve [auto 2]
    | apply faulty_with_SAHandle
    | apply ensures_out_of_fuel; faulty_side
    | apply ensures_ret; tc_solve
    | apply ensures_throw; tc_solve
    | apply ensures_get_this; tc_solve
    | apply ensures_throw_if; tc_solve
    | apply ensures_bind; [tc_solve | | intros ?]
    | apply ensures_call; intros ?; faulty_side
    | apply ensures_deref; [tc_solve | faulty_side]
    | apply ensures_wstring_of; [tc_solve | faulty_side]
    | apply ensures_incr_long; [tc_solve | faulty_side]
    | apply ensures_crash; faulty_side
    | match goal with
      | |- ensures _ (match ?x with _ => _ end) => destruct x
      end ].

Section Faulty_runs.
Context `{P : Platform}.

Lemma EnumNames_loop_faulty {S} budget psaNames i lUpper acc :
  ensures (S := S) (faulty EnumNames_sites)
    (EnumNames_loop budget psaNames i lUpper acc).
Proof.
  unfold EnumNames_sites.
  revert i acc. induction budget as [|budget IH]; intros i acc;
    cbn [EnumNames_loop]; faulty_walk.
Qed.

(** On a pointer that is set. *)
Lemma EnumNames_faulty {S} obj :
  ensures (S := S) (faulty EnumNames_sites) (EnumNames (Some obj)).
Proof.
  unfold EnumNames. cbn [deref]. pose proof (@EnumNames_loop_faulty S).
  unfold EnumNames_sites in *. faulty_walk.
Qed.

Lemma signature_faulty {S} (p : option handle) :
  ensures (S := S) (faulty EnumNames_sites)
    (if negb (is_null p) then EnumNames p else ret []).
Proof.
  destruct p as [obj|]; cbn [is_null negb]; [apply EnumNames_faulty|].
  apply ensures_ret, _.
Qed.

Lemma GetMethods_loop_faulty {S} fuel cd acc :
  ensures (S := S) (faulty EnumNames_sites) (GetMethods_loop fuel cd acc).
Proof.
  pose proof (@signature_faulty S).
  revert acc. induction fuel as [|fuel IH]; intros acc;
    cbn [GetMethods_loop]; unfold EnumNames_sites in *; faulty_walk.
Qed.

Lemma GetValue_fault property this w f :
  out (GetValue property this w) = Crashed f → f ∈ GetValue_sites.
Proof.
  intros [->| ->]%GetValue_crash; unfold GetValue_sites; by repeat constructor.
Qed.

Lemma ExecMethod_put_faulty {S} pInst iparams :
  ensures (S := S) (faulty [NullDeref 358]) (ExecMethod_put pInst iparams).
Proof. induction iparams as [|p rest IH]; cbn [ExecMethod_put]; faulty_walk. Qed.

Lemma ExecMethod_drain_faulty {S} fuel o oparams :
  ensures (S := S) (faulty []) (ExecMethod_drain fuel o oparams).
Proof.
  revert oparams. induction fuel as [|fuel IH]; intros oparams;
    cbn [ExecMethod_drain]; faulty_walk.
Qed.

Lemma GetClassNames_loop_faulty {S} fuel enumerator acc :
  ensures (S := S) (faulty GetClassNames_sites)
    (GetClassNames_loop fuel enumerator acc).
Proof.
  unfold GetClassNames_sites.
  revert acc. induction fuel as [|fuel IH]; intros acc;
    destruct enumerator; cbn [GetClassNames_loop]; faulty_walk.
Qed.

Lemma GetClassNames_faulty fuel filter :
  ensures (faulty GetClassNames_sites) (GetClassNames fuel filter).
Proof.
  unfold GetClassNames. pose proof (@GetClassNames_loop_faulty Services).
  unfold GetClassNames_sites in *. faulty_walk.
Qed.

(** A fault of the first part or of the second is a fault of both. *)
Lemma bind_fault {S A B} (m : M S A) (k : A → M S B) s w f :
  out (bind m k s w) = Crashed f →
  out (m s w) = Crashed f ∨
  ∃ a s1 w1 l1, m s w = Res (Done a) s1 w1 l1 ∧ out (k a s1 w1) = Crashed f.
Proof.
  unfold bind. destruct (m s w) as [[a| | | |] s1 w1 l1]; cbn; try done.
  - rewrite out_prepend. intros H. right. by exists a, s1, w1, l1.
  - intros [= <-]. by left.
Qed.

Lemma GetMethods_fault fuel this w f :
  out (GetMethods fuel this w) = Crashed f → f ∈ GetMethods_sites.
Proof.
  unfold GetMethods, GetMethods_sites.
  intros [Hc|(className & s1 & w1 & l1 & Hclass & Hc)]%bind_fault.
  { apply elem_of_app. left. by apply GetValue_fault in Hc. }
  apply elem_of_app. right. revert Hc.
  pose proof (@GetMethods_loop_faulty Object) as Hloop.
  match goal with
  | |- out (?k s1 w1) = _ → _ =>
      assert (ensures (faulty ([NullDeref 285; NullDeref 288] ++ EnumNames_sites)) k)
        as Hk
  end.
  { assert (∀ fuel cd acc, ensures
      (faulty ([NullDeref 285; NullDeref 288] ++ EnumNames_sites))
      (GetMethods_loop (S := Object) fuel cd acc)) as Hloop'.
    { intros. eapply faulty_subseteq; [|apply Hloop].
      intros x Hx. apply elem_of_app. by right. }
    unfold EnumNames_sites in *. cbn [app] in *. faulty_walk. }
  intros Hc. by apply (proj2 (Hk s1 w1)).
Qed.

Lemma ExecMethod_fault fuel lpMethodName iparams oparams this w f :
  out (ExecMethod fuel lpMethodName iparams oparams this w) = Crashed f →
  f ∈ ExecMethod_sites.
Proof.
  unfold ExecMethod, ExecMethod_sites. autorewrite with run.
  destruct (m_pServices this) as [svc|] eqn:Hsvc; cbn [is_null]; [|done].
  autorewrite with run.
  destruct (m_pObj this) as [obj|] eqn:Hobj; cbn [is_null]; [|done].
  intros [Hc|(className & s1 & w1 & l1 & Hclass & Hc)]%bind_fault.
  { apply elem_of_app. left. by apply GetValue_fault in Hc. }
  pose proof (GetValue_Done _ _ _ _ _ _ _ Hclass) as ->.
  revert Hc. autorewrite with run. rewrite Hsvc. autorewrite with run.
  destruct (respond (IWbemServices_GetObject svc className) w1)
    as [[hR pClassDefinition] w2]. cbn [fst snd]. autorewrite with run.
  destruct (negb (hR =? S_OK)); [done|]. autorewrite with run.
  destruct pClassDefinition as [cd|].
  2: { intros [= <-]. apply elem_of_app. right. by repeat constructor. }
  autorewrite with run.
  destruct (respond (IWbemClassObject_GetMethod cd lpMethodName) w2)
    as [[hR2 pInParamsClass] w3]. cbn [fst snd]. autorewrite with run.
  destruct pInParamsClass as [inc|].
  2: { intros [= <-]. apply elem_of_app. right. by repeat constructor. }
  autorewrite with run.
  destruct (respond (IWbemClassObject_SpawnInstance inc) w3)
    as [[hR3 pInParamsInstance] w4]. cbn [fst snd].
  intros [Hc|([] & s5 & w5 & l5 & Hput & Hc)]%bind_fault.
  { apply (proj2 (ExecMethod_put_faulty pInParamsInstance iparams this w4)) in Hc.
    apply list_elem_of_singleton in Hc as ->.
    apply elem_of_app. right. by repeat constructor. }
  pose proof (keeps_ExecMethod_put pInParamsInstance iparams this w4) as Hs.
  rewrite Hput in Hs. cbn in Hs. subst s5.
  revert Hc.
  intros [Hc|(relPath & s6 & w6 & l6 & Hrel & Hc)]%bind_fault.
  { apply elem_of_app. left. by apply GetValue_fault in Hc. }
  pose proof (GetValue_Done _ _ _ _ _ _ _ Hrel) as ->.
  revert Hc. autorewrite with run. rewrite Hsvc. autorewrite with run.
  destruct (respond (IWbemServices_ExecMethod svc relPath lpMethodName 0
                       pInParamsInstance) w6) as [[hR4 pOut] w7]. cbn [fst snd].
  destruct pOut as [o|]; [|by autorewrite with run].
  autorewrite with run.
  destruct (respond (IWbemClassObject_Get o "ReturnValue") w7) as [[hR5 ret_] w8].
  cbn [fst snd]. autorewrite with run.
  destruct (respond (IWbemClassObject_BeginEnumeration o WBEM_FLAG_NONSYSTEM_ONLY) w8)
    as [hR6 w9]. cbn [fst snd].
  intros [Hc|(oparams' & s10 & w10 & l10 & Hdrain & Hc)]%bind_fault.
  { apply (proj2 (ExecMethod_drain_faulty fuel o oparams this w9)) in Hc.
    by apply elem_of_nil in Hc. }
  revert Hc. autorewrite with run.
  destruct (respond (IWbemClassObject_EndEnumeration o) w10) as [hR7 w11].
  cbn [fst snd]. by autorewrite with run.
Qed.

Lemma EnumNames_fault {S} pClass (s : S) w f :
  out (EnumNames pClass s w) = Crashed f →
  f ∈ NullDeref 120 :: EnumNames_sites.
Proof.
  destruct pClass as [obj|].
  - intros Hc. right. by apply (proj2 (EnumNames_faulty obj s w)).
  - unfold EnumNames. cbn [deref]. autorewrite with run. intros [= <-]. by left.
Qed.

Lemma GetProperties_fault this w f :
  out (GetProperties this w) = Crashed f →
  f ∈ NullDeref 214 :: EnumNames_sites.
Proof.
  unfold GetProperties. autorewrite with run.
  destruct (m_pObj this) as [obj|] eqn:Hobj.
  2: { autorewrite with run. intros [= <-]. by left. }
  autorewrite with run.
  destruct (respond (IWbemClassObject_GetNames obj _) w) as [[hr psa] w1].
  cbn [fst snd]. autorewrite with run.
  destruct (negb (hr =? S_OK)); [done|].
  autorewrite with run. rewrite run_with_SAHandle, bind_get_this, Hobj.
  pose proof (proj2 (EnumNames_faulty obj this w1) f) as Hf.
  destruct (EnumNames (Some obj) this w1) as [o s2 w2 l2]. cbn [out] in Hf.
  intros Hc. right. apply Hf. revert Hc.
  destruct o, psa as [h|]; cbn; try done; by destruct (_ =? S_OK).
Qed.

Lemma Services_ctor_fault lpResourcePath this w f :
  out (Services_ctor lpResourcePath this w) = Crashed f → f ∈ [NullDeref 443].
Proof.
  unfold Services_ctor.
  match goal with
  | |- out (noexcept ?m _ _) = _ → _ =>
      assert (ensures (faulty [NullDeref 443]) m) as Hm by faulty_walk;
      specialize (Hm this w); unfold noexcept;
      destruct (m this w) as [[| | | |] s1 w1 l1]; cbn [out]; try done
  end.
  intros [= <-]. by apply (proj2 Hm).
Qed.

Lemma summary_fault {S A} (r : result World S A) f :
  (summary r).1 = Crashed f → out r = Crashed f.
Proof. unfold summary. cbn [fst]. destruct (out r); cbn; congruence. Qed.

End Faulty_runs.

(** X18.  Where each operation can run into undefined behaviour.  The
    two operations of [ComInit], [GetIValue], [GetInstances] and
    [Services::GetObject] cannot; [GetValue] only by reading a null string
    out of the variant; the others at the places listed in [faults_of]: a
    null pointer member, a null pointer handed back by a call that is not
    tested, a null string, the overflow of the loop counter. *)
Theorem undefined_behaviour_sites `{P : Platform} (op : operation) (w : World)
    (f : fault) :
  (perform op w).1 = Crashed f → f ∈ faults_of op.
Proof.
  destruct op; cbn [perform faults_of]; intros Hc%summary_fault.
  - revert Hc. rewrite run_ComInit_ctor. cbn. by destruct (_ =? _).
  - revert Hc. rewrite run_ComInit_dtor. by destruct (ok this).
  - by apply EnumNames_fault in Hc.
  - by apply GetProperties_fault in Hc.
  - by apply GetValue_fault in Hc.
  - exfalso. by eapply GetIValue_defined.
  - by apply GetMethods_fault in Hc.
  - by apply ExecMethod_fault in Hc.
  - by apply Services_ctor_fault in Hc.
  - exfalso. by eapply GetInstances_defined.
  - exfalso. by eapply GetObject_defined.
  - by apply (proj2 (GetClassNames_faulty fuel filter this w)).
Qed.

Lemma undefined_behaviour_sites_witness :
  NullDeref 358 ∈ faults_of (Op_ExecMethod 5 Demo.disk "chkdsk" Demo.chkdsk_params ∅).
Proof.
  refine (undefined_behaviour_sites (P := Scripted.platform)
            (Op_ExecMethod 5 Demo.disk "chkdsk" Demo.chkdsk_params ∅)
            [Scripted.A_variant S_OK (Demo.bstr "Win32_LogicalDisk");
             Scripted.A_ptr S_OK (Some 11%nat);
             Scripted.A_ptr S_OK (Some 12%nat);
             Scripted.A_ptr E_FAIL None] (NullDeref 358) _).
  by vm_compute.
Defined.

(** *** What exit code 0 tells *)

Section Sound_facts.
Context `{P : Platform}.

#[global] Instance sound_sequential : Sequential sound.
Proof.
  split.
  - intros A a _. constructor.
  - intros A e _. constructor.
  - intros A B a o l1 l2 H1 H2 Ho. apply Forall_app. split; [by apply H1 | by apply H2].
  - intros A B o l Ho _ Hd. by destruct o.
Qed.

Lemma sound_abnormal {A} (o : outcome A) l : is_Done o = false → sound A o l.
Proof. intros Ho Hd. congruence. Qed.

(** A call and what the code does with its answer: when the call must
    succeed and has not, the code does not return. *)
Lemma sound_checked_call {S B} line c (k : Reply c → M S B) :
  (∀ r, (must_succeed (Ev line c r) && negb (hr_of c r =? S_OK) = true →
           ∀ s w, is_Done (out (k r s w)) = false) ∧
        ensures sound (k r)) →
  ensures sound (bind (call line c) k).
Proof.
  intros H s w. rewrite bind_call. unfold sound.
  rewrite out_prepend, log_prepend.
  destruct (respond c w) as [r w1]. cbn [fst snd app].
  destruct (H r) as [Hf Hk]. intros Hd. constructor; [|by apply Hk].
  intros Hm. destruct (Z.eqb_spec (hr_of c r) S_OK) as [|Hne]; [done|].
  rewrite Hf in Hd; [done|]. by rewrite Hm.
Qed.

Lemma sound_with_SAHandle {S A} psa (body : M S A) :
  ensures sound body → ensures sound (with_SAHandle psa body).
Proof.
  intros Hb s w. rewrite run_with_SAHandle. specialize (Hb s w).
  destruct (body s w) as [o s1 w1 l1]. cbn [out log] in Hb. unfold sound in *.
  destruct o, psa as [h|]; cbn [out log]; try done.
  all: destruct (Z.eqb_spec (respond (SafeArrayDestroy h) w1).1 S_OK) as [E|E];
    try done.
  intros _. apply Forall_app. split; [by apply Hb|]. by repeat constructor.
Qed.

Lemma sound_noexcept {S A} (m : M S A) :
  ensures sound m → ensures sound (noexcept m).
Proof.
  intros H s w. specialize (H s w). unfold noexcept.
  by destruct (m s w) as [[| | | |] s1 w1 l1].
Qed.

Lemma sound_on {S S' A} (this' : S') (m : M S' A) :
  ensures sound m → ensures (S := S) sound (on this' m).
Proof.
  intros H s w. specialize (H this' w). unfold on.
  by destruct (m this' w) as [[| | | |] s1 w1 l1].
Qed.

Lemma sound_for_each {S A} (xs : list A) (body : A → M S unit) :
  (∀ x, ensures sound (body x)) → ensures sound (for_each xs body).
Proof.
  intros H. induction xs as [|x xs IH]; cbn [for_each].
  - apply ensures_ret, _.
  - apply ensures_bind; [apply _ | apply H | by intros _].
Qed.

Lemma sound_scoped {S A} (dtor : M S unit) (body : M S A) :
  ensures sound dtor → ensures sound body → ensures sound (scoped dtor body).
Proof.
  intros Hd Hb s w. specialize (Hb s w). unfold scoped.
  destruct (body s w) as [o s1 w1 l1]. cbn [out log] in Hb.
  pose proof (sound_noexcept _ Hd s1 w1) as Hn.
  destruct o; try done.
  - destruct (noexcept dtor s1 w1) as [[| | | |] s2 w2 l2]; try done.
    unfold sound in *. cbn [out log] in *. intros _.
    apply Forall_app. split; [by apply Hb | by apply Hn].
  - by destruct (noexcept dtor s1 w1) as [[| | | |] s2 w2 l2].
Qed.

End Sound_facts.

Ltac sound_call :=
  match goal with
  | |- ensures sound (bind (call ?L ?c) ?k) =>
      apply sound_checked_call;
      let r := fresh "r" in
      let Hq := fresh "Hq" in
      intros r; split;
      [ intros Hq; apply andb_true_iff in Hq as [Hq ?];
        first
          [ by vm_compute in Hq
          | intros ? ?; split_reply r;
            match goal with
            | H : negb (_ =? S_OK) = true |- _ =>
                cbn [hr_of fst snd] in H; cbn beta iota;
                autorewrite with run; rewrite H; reflexivity
            end ]
      | cbn beta ]
  end.

Ltac sound_walk :=
  repeat first
    [ solve [auto 2]
    | apply sound_with_SAHandle
    | apply sound_noexcept
    | apply sound_on
    | apply sound_for_each; intros ?
    | apply ensures_out_of_fuel; by apply sound_abnormal
    | apply ensures_put_this; tc_solve
    | apply ensures_ret; tc_solve
    | apply ensures_throw; tc_solve
    | apply ensures_get_this; tc_solve
    | apply ensures_throw_if; tc_solve
    | sound_call
    | apply ensures_bind; [tc_solve | | intros ?]
    | apply ensures_deref; [tc_solve | by apply sound_abnormal]
    | apply ensures_wstring_of; [tc_solve | by apply sound_abnormal]
    | apply ensures_incr_long; [tc_solve | by apply sound_abnormal]
    | apply ensures_crash; by apply sound_abnormal
    | match goal with
      | |- ensures _ (match ?x with _ => _ end) => destruct x
      end ].

Section Sound_runs.
Context `{P : Platform}.

Lemma GetValue_sound property : ensures sound (GetValue property).
Proof. unfold GetValue. sound_walk. Qed.

Lemma EnumNames_loop_sound {S} budget psaNames i lUpper acc :
  ensures (S := S) sound (EnumNames_loop budget psaNames i lUpper acc).
Proof.
  revert i acc. induction budget as [|budget IH]; intros i acc;
    cbn [EnumNames_loop]; sound_walk.
Qed.

Lemma EnumNames_sound {S} pClass : ensures (S := S) sound (EnumNames pClass).
Proof. unfold EnumNames. pose proof (@EnumNames_loop_sound S). sound_walk. Qed.

Lemma GetProperties_sound : ensures sound GetProperties.
Proof. unfold GetProperties. pose proof (@EnumNames_sound Object). sound_walk. Qed.

Lemma GetMethods_loop_sound {S} fuel cd acc :
  ensures (S := S) sound (GetMethods_loop fuel cd acc).
Proof.
  pose proof (@EnumNames_sound S).
  revert acc. induction fuel as [|fuel IH]; intros acc;
    cbn [GetMethods_loop]; sound_walk.
Qed.

Lemma GetMethods_sound fuel : ensures sound (GetMethods fuel).
Proof.
  unfold GetMethods. pose proof GetValue_sound.
  pose proof (@GetMethods_loop_sound Object). sound_walk.
Qed.

Lemma ExecMethod_put_sound {S} pInst iparams :
  ensures (S := S) sound (ExecMethod_put pInst iparams).
Proof. induction iparams as [|p rest IH]; cbn [ExecMethod_put]; sound_walk. Qed.

Lemma ExecMethod_drain_sound {S} fuel o oparams :
  ensures (S := S) sound (ExecMethod_drain fuel o oparams).
Proof.
  revert oparams. induction fuel as [|fuel IH]; intros oparams;
    cbn [ExecMethod_drain]; sound_walk.
Qed.

Lemma ExecMethod_sound fuel lpMethodName iparams oparams :
  ensures sound (ExecMethod fuel lpMethodName iparams oparams).
Proof.
  unfold ExecMethod. pose proof GetValue_sound.
  pose proof (@ExecMethod_put_sound Object).
  pose proof (@ExecMethod_drain_sound Object). sound_walk.
Qed.

Lemma GetInstances_loop_sound fuel pEnum acc :
  ensures sound (GetInstances_loop fuel pEnum acc).
Proof.
  revert acc. induction fuel as [|fuel IH]; intros acc;
    destruct pEnum as [enum|]; cbn [GetInstances_loop]; try by sound_walk.
  apply sound_checked_call. intros [[hr p] returned].
  unfold must_succeed. rewrite checked_478. cbn [hr_of fst snd is_bootstrap is_cleanup
    ev_call orb]. rewrite !orb_false_r. split.
  - intros [Hret Hhr]%andb_true_iff s w.
    apply negb_true_iff in Hret. rewrite Hret. autorewrite with run.
    by rewrite Hhr.
  - sound_walk.
Qed.

Lemma GetInstances_sound fuel lpClassName :
  ensures sound (GetInstances fuel lpClassName).
Proof. unfold GetInstances. pose proof GetInstances_loop_sound. sound_walk. Qed.

Lemma GetObject_sound lpObjectName : ensures sound (GetObject lpObjectName).
Proof. unfold GetObject. sound_walk. Qed.

Lemma GetClassNames_loop_sound {S} fuel enumerator acc :
  ensures (S := S) sound (GetClassNames_loop fuel enumerator acc).
Proof.
  revert acc. induction fuel as [|fuel IH]; intros acc;
    destruct enumerator; cbn [GetClassNames_loop]; sound_walk.
Qed.

Lemma GetClassNames_sound fuel filter : ensures sound (GetClassNames fuel filter).
Proof.
  unfold GetClassNames. pose proof (@GetClassNames_loop_sound Services). sound_walk.
Qed.

Lemma Services_ctor_sound lpResourcePath : ensures sound (Services_ctor lpResourcePath).
Proof. unfold Services_ctor. sound_walk. Qed.

Lemma ComInit_ctor_sound : ensures sound ComInit_ctor.
Proof. unfold ComInit_ctor. sound_walk. Qed.

Lemma ComInit_dtor_sound : ensures sound ComInit_dtor.
Proof.
  intros s w. rewrite run_ComInit_dtor.
  destruct (ok s); intros _; by repeat constructor.
Qed.

Lemma main_try_sound fuel elevated opts : ensures sound (main_try fuel elevated opts).
Proof.
  unfold main_try.
  pose proof GetValue_sound. pose proof GetProperties_sound.
  pose proof GetMethods_sound. pose proof GetObject_sound.
  pose proof Services_ctor_sound. pose proof GetInstances_sound.
  pose proof GetClassNames_sound. pose proof ExecMethod_sound.
  pose proof ComInit_ctor_sound. pose proof ComInit_dtor_sound.
  apply ensures_bind; [apply _ | apply ensures_throw_if, _ | intros _].
  destruct (help opts); [apply ensures_ret, _|].
  apply ensures_bind; [apply _ | by apply sound_on | intros ci].
  apply sound_scoped; sound_walk.
Qed.

End Sound_runs.

(** X19.  When [main] returns 0, every call of the run whose HRESULT
    reaches a [throw_if] (in the operations, in the constructor of
    [Services] and in the destructor of [SAHandle]) has answered
    [S_OK]. *)
Theorem main_success_means_no_failure `{P : Platform} fuel elevated opts w :
  out (main fuel elevated opts tt w) = Done 0 →
  Forall (λ e, must_succeed e = true → ev_hr e = S_OK)
    (log (main fuel elevated opts tt w)).
Proof.
  unfold main, try_catch.
  pose proof (main_try_sound fuel elevated opts tt w) as H.
  destruct (main_try fuel elevated opts tt w) as [[v|e| | |] s1 w1 l1];
    cbn [out log] in *; try done.
  intros _. by apply H.
Qed.

Lemma main_success_means_no_failure_witness :
  Forall (λ e, must_succeed e = true → ev_hr e = S_OK)
    (log (main (P := Scripted.platform) 5 true Sessions.test_methods_only tt
            Sessions.chkdsk_run_script)).
Proof.
  refine (main_success_means_no_failure (P := Scripted.platform) 5 true
            Sessions.test_methods_only Sessions.chkdsk_run_script _).
  by vm_compute.
Defined.
